(** * NextGenPaint pixel engine: tiles, tile grids, layers, undo history,
      stroke kernels and the tile loop of the filter plugins.

    The C++ sources are embedded shallowly.  Machine integers are [Z] with
    the conversions written out, [float] is IEEE binary32 through the
    parametric [SpecFloat] operations, vectors are lists indexed with
    stdpp's lookup and insert, and every construct whose behaviour the
    language leaves undefined (an index past the end of a vector, a float to
    integer conversion out of range) makes the enclosing function return
    [None].

    Conventions: [size_t] has 64 bits; arithmetic on [int] is arithmetic on
    [Z] (signed overflow is not modelled); a [float] expression is evaluated
    one operation at a time, each rounded to nearest even in binary32, with
    neither fused multiply-add nor extended precision; the function-local
    static dummies behind the mutable accessors are the explicit state
    [Statics]; the clock read by [pushState] is an argument. *)

From Stdlib Require Import ZArith Lia Bool List.
From Stdlib Require Import Floats.SpecFloat.
From stdpp Require Import base option list list_numbers strings gmap.

Local Open Scope Z_scope.

(** ** Machine integers *)

(** Conversion of an [int] to [uint16_t]: reduction modulo 2^16. *)
Definition to_uint16 (z : Z) : Z := z mod 65536.

(** Conversion to [size_t] (64 bits): reduction modulo 2^64. *)
Definition to_size_t (z : Z) : Z := z mod 2 ^ 64.

(** [std::min<T>(a, b)] is [(b < a) ? b : a]; [std::max<T>(a, b)] is
    [(a < b) ? b : a].  The arguments have already been converted to [T]. *)
Definition std_min (a b : Z) : Z := if b <? a then b else a.
Definition std_max (a b : Z) : Z := if a <? b then b else a.

(** ** IEEE binary32 and binary64 *)

Module F64.
Definition prec : Z := 53.
Definition emax : Z := 1024.
Definition of_int (n : Z) : spec_float := binary_normalize prec emax n 0 false.
Definition sqrt : spec_float -> spec_float := SFsqrt prec emax.
End F64.

Module F32.
Definition prec : Z := 24.
Definition emax : Z := 128.

Definition add : spec_float -> spec_float -> spec_float := SFadd prec emax.
Definition sub : spec_float -> spec_float -> spec_float := SFsub prec emax.
Definition mul : spec_float -> spec_float -> spec_float := SFmul prec emax.
Definition div : spec_float -> spec_float -> spec_float := SFdiv prec emax.
Definition ltb : spec_float -> spec_float -> bool := SFltb.
Definition leb : spec_float -> spec_float -> bool := SFleb.

(** Integer to [float], round to nearest even. *)
Definition of_int (n : Z) : spec_float := binary_normalize prec emax n 0 false.

(** [double] to [float], round to nearest even. *)
Definition of_double (d : spec_float) : spec_float :=
  match d with
  | S754_finite s m e => binary_round prec emax s m e
  | _ => d
  end.

(** Literals of the sources: [0.0f], [1.0f], [2.0f], [0.5f], [65535.0f],
    [0.1f] (the binary32 number nearest to one tenth), [50.0f], [5.0f]. *)
Definition zero : spec_float := S754_zero false.
Definition one : spec_float := Eval vm_compute in of_int 1.
Definition two : spec_float := Eval vm_compute in of_int 2.
Definition half : spec_float :=
  Eval vm_compute in binary_normalize prec emax 1 (-1) false.
Definition c65535 : spec_float := Eval vm_compute in of_int 65535.
Definition c0_1 : spec_float := Eval vm_compute in div (of_int 1) (of_int 10).
Definition c50 : spec_float := Eval vm_compute in of_int 50.
Definition c5 : spec_float := Eval vm_compute in of_int 5.

(** Truncation toward zero; no value for NaN and the infinities. *)
Definition trunc (f : spec_float) : option Z :=
  match f with
  | S754_zero _ => Some 0
  | S754_finite s m e =>
      Some (cond_Zopp s (if 0 <=? e then Z.pos m * 2 ^ e else Z.pos m / 2 ^ (- e)))
  | _ => None
  end.

(** [static_cast<uint16_t>(f)]: defined only when the truncated value is
    representable. *)
Definition to_uint16 (f : spec_float) : option Z :=
  z ← trunc f; if (0 <=? z) && (z <? 65536) then Some z else None.

(** [static_cast<int>(f)], 32-bit [int]. *)
Definition to_int (f : spec_float) : option Z :=
  z ← trunc f; if (- 2 ^ 31 <=? z) && (z <? 2 ^ 31) then Some z else None.

(** [std::max(a, b)] and [std::min(a, b)] on floats. *)
Definition max (a b : spec_float) : spec_float := if ltb a b then b else a.
Definition min (a b : spec_float) : spec_float := if ltb b a then b else a.
End F32.

(** ** Loops *)

(** [for (i : l) body], threading the loop state; an undefined step makes
    the whole loop undefined. *)
Fixpoint for_each {A S : Type} (l : list A) (body : A -> S -> option S) (s : S)
  : option S :=
  match l with
  | [] => Some s
  | i :: l' => s' ← body i s; for_each l' body s'
  end.

(** [for (int i = lo; i < hi; ++i) body] *)
Definition for_range {S : Type} (lo hi : Z) (body : Z -> S -> option S) (s : S)
  : option S :=
  for_each (seqZ lo (hi - lo)) body s.

(** A loop whose body may execute [return]. *)
Inductive flow (S : Type) := Continue (s : S) | Return (s : S).
Arguments Continue {S} s.
Arguments Return {S} s.

Fixpoint for_each_ret {A S : Type} (l : list A)
    (body : A -> S -> option (flow S)) (s : S) : option (flow S) :=
  match l with
  | [] => Some (Continue s)
  | i :: l' =>
      f ← body i s;
      match f with
      | Continue s' => for_each_ret l' body s'
      | Return s' => Some (Return s')
      end
  end.

Definition for_range_ret {S : Type} (lo hi : Z)
    (body : Z -> S -> option (flow S)) (s : S) : option (flow S) :=
  for_each_ret (seqZ lo (hi - lo)) body s.

Definition flow_state {S : Type} (f : flow S) : S :=
  match f with Continue s => s | Return s => s end.

(** ** Pixel (tile_engine.h) *)

Record Pixel := mkPixel { r : Z; g : Z; b : Z; a : Z }.

(** [Pixel()] *)
Definition Pixel_default : Pixel := mkPixel 0 0 0 65535.

(** A channel holds a [uint16_t]. *)
Definition Pixel_ok (p : Pixel) : Prop :=
  0 <= r p < 65536 /\ 0 <= g p < 65536 /\ 0 <= b p < 65536 /\ 0 <= a p < 65536.

(** Float expressions that occur verbatim in the stroke kernels and in the
    smudge plugin. *)

(** [std::sqrt(dx * dx + dy * dy)] is computed on [double] and stored in a
    [float]. *)
Definition distance (dx dy : Z) : spec_float :=
  F32.of_double (F64.sqrt (F64.of_int (dx * dx + dy * dy))).

(** [static_cast<uint16_t>(d * (1 - alpha) + c * alpha)] *)
Definition mix_channel (d c : Z) (alpha : spec_float) : option Z :=
  F32.to_uint16
    (F32.add (F32.mul (F32.of_int d) (F32.sub (F32.of_int 1) alpha))
             (F32.mul (F32.of_int c) alpha)).

Definition mix_pixel (src : Pixel) (alpha : spec_float) (dest : Pixel)
  : option Pixel :=
  r' ← mix_channel (r dest) (r src) alpha;
  g' ← mix_channel (g dest) (g src) alpha;
  b' ← mix_channel (b dest) (b src) alpha;
  a' ← mix_channel (a dest) (a src) alpha;
  Some (mkPixel r' g' b' a').

(** ** Tile (tile_engine.h, tile_engine.cpp) *)

Definition TILE_SIZE : Z := 256.

Module Tile.

Record t := mk { pixels_ : list Pixel; x_ : Z; y_ : Z; dirty_ : bool }.

(** [Tile(int x, int y)] and [Tile()] *)
Definition new (x y : Z) : t :=
  mk (replicate (Z.to_nat (TILE_SIZE * TILE_SIZE)) Pixel_default) x y false.
Definition new0 : t := new 0 0.

Definition setDirty (d : bool) (tl : t) : t :=
  mk (pixels_ tl) (x_ tl) (y_ tl) d.
Definition set_pixels (ps : list Pixel) (tl : t) : t :=
  mk ps (x_ tl) (y_ tl) (dirty_ tl).

(** The bounds test shared by both overloads of [Tile::at]. *)
Definition out_of_range (x y : Z) : bool :=
  (x <? 0) || (x >=? TILE_SIZE) || (y <? 0) || (y >=? TILE_SIZE).

(** What a [Pixel&] returned by the mutable [Tile::at] designates: an
    element of [pixels_], or the function-local [static Pixel dummy]. *)
Inductive ref := Stored (i : nat) | Dummy.

(** [Pixel& Tile::at(int x, int y)]: the tile after the call and the
    designated pixel. *)
Definition at_mut (tl : t) (x y : Z) : t * ref :=
  if out_of_range x y then (tl, Dummy)
  else (setDirty true tl, Stored (Z.to_nat (y * TILE_SIZE + x))).

(** [const Pixel& Tile::at(int x, int y) const]; its dummy is a
    [static const Pixel], always [Pixel()]. *)
Definition at_const (tl : t) (x y : Z) : option Pixel :=
  if out_of_range x y then Some Pixel_default
  else pixels_ tl !! Z.to_nat (y * TILE_SIZE + x).

(** Reading and writing through a [Pixel&]; [d] is the current value of
    the mutable static dummy pixel. *)
Definition load (tl : t) (d : Pixel) (rf : ref) : option Pixel :=
  match rf with
  | Stored i => pixels_ tl !! i
  | Dummy => Some d
  end.

Definition store (tl : t) (d : Pixel) (rf : ref) (p : Pixel) : option (t * Pixel) :=
  match rf with
  | Stored i =>
      _ ← pixels_ tl !! i;
      Some (set_pixels (<[i := p]> (pixels_ tl)) tl, d)
  | Dummy => Some (tl, p)
  end.

Definition clear (tl : t) : t :=
  mk (replicate (length (pixels_ tl)) Pixel_default) (x_ tl) (y_ tl) true.

Definition fill (color : Pixel) (tl : t) : t :=
  mk (replicate (length (pixels_ tl)) color) (x_ tl) (y_ tl) true.

Definition clone (tl : t) : t :=
  setDirty (dirty_ tl) (set_pixels (pixels_ tl) (new (x_ tl) (y_ tl))).

(** *** In-place arithmetic.  The operands of [+] and [-] are promoted to
    [int]; the result is converted to [uint16_t] when it is passed to
    [std::min<uint16_t>] or [std::max<uint16_t>]. *)
Definition add_channel (c d : Z) : Z := std_min 65535 (to_uint16 (c + d)).
Definition sub_channel (c d : Z) : Z := std_max 0 (to_uint16 (c - d)).
Definition mul_channel (c : Z) (factor : spec_float) : option Z :=
  v ← F32.to_uint16 (F32.mul (F32.of_int c) factor); Some (std_min 65535 v).

Definition add_pixel (p q : Pixel) : Pixel :=
  mkPixel (add_channel (r p) (r q)) (add_channel (g p) (g q))
          (add_channel (b p) (b q)) (add_channel (a p) (a q)).
Definition sub_pixel (p q : Pixel) : Pixel :=
  mkPixel (sub_channel (r p) (r q)) (sub_channel (g p) (g q))
          (sub_channel (b p) (b q)) (sub_channel (a p) (a q)).
Definition mul_pixel (factor : spec_float) (p : Pixel) : option Pixel :=
  r' ← mul_channel (r p) factor; g' ← mul_channel (g p) factor;
  b' ← mul_channel (b p) factor; a' ← mul_channel (a p) factor;
  Some (mkPixel r' g' b' a').

(** The loop [for i < pixels_.size()] reading [other.pixels_[i]]. *)
Fixpoint zip_pixels (f : Pixel -> Pixel -> Pixel) (ps qs : list Pixel)
  : option (list Pixel) :=
  match ps, qs with
  | [], _ => Some []
  | p :: ps', q :: qs' => rest ← zip_pixels f ps' qs'; Some (f p q :: rest)
  | _ :: _, [] => None
  end.

(** [operator+=], [operator-=], [operator*=] *)
Definition add_assign (tl other : t) : option t :=
  ps ← zip_pixels add_pixel (pixels_ tl) (pixels_ other);
  Some (setDirty true (set_pixels ps tl)).
Definition sub_assign (tl other : t) : option t :=
  ps ← zip_pixels sub_pixel (pixels_ tl) (pixels_ other);
  Some (setDirty true (set_pixels ps tl)).
Definition mul_assign (tl : t) (factor : spec_float) : option t :=
  ps ← mapM (mul_pixel factor) (pixels_ tl);
  Some (setDirty true (set_pixels ps tl)).

(** Class invariant: the pixel buffer holds TILE_SIZE * TILE_SIZE pixels. *)
Definition wf (tl : t) : Prop :=
  length (pixels_ tl) = Z.to_nat (TILE_SIZE * TILE_SIZE).

End Tile.


(** ** External 16-bit four-channel matrix ([cv::Mat] of type CV_16UC4) *)

Module Mat.
(** [cv::Vec4w] *)
Record Vec4w := vec { c0 : Z; c1 : Z; c2 : Z; c3 : Z }.

Record t := mk { rows : Z; cols : Z; data : list (list Vec4w) }.

(** [mat.at<cv::Vec4w>(y, x)] *)
Definition at_ (m : t) (y x : Z) : option Vec4w :=
  if (y <? 0) || (x <? 0) then None
  else row ← data m !! Z.to_nat y; row !! Z.to_nat x.
End Mat.

(** ** Function-local statics of the mutable accessors *)

(** [static Pixel dummy] of [Tile::at] and [static Tile dummy] of
    [TileGrid::getTile]: one object each for the whole process, handed out
    by reference and therefore writable by any caller. *)
Record Statics := mkStatics { dummy_pixel : Pixel; dummy_tile : Tile.t }.

Definition Statics_init : Statics := mkStatics Pixel_default Tile.new0.

(** ** TileGrid (tile_engine.h, tile_engine.cpp) *)

Module TileGrid.

Record t := mk {
  tiles_ : list Tile.t;
  width_ : Z;
  height_ : Z;
  tileCountX_ : Z;
  tileCountY_ : Z
}.

Definition set_tiles (ts : list Tile.t) (gr : t) : t :=
  mk ts (width_ gr) (height_ gr) (tileCountX_ gr) (tileCountY_ gr).

(** [TileGrid(int width, int height)]; [/] on [int] truncates.  This is the
    grid the constructor builds when it returns; it throws instead, out of
    [tiles_.reserve], when exactly one of the two tile counts is negative
    ([reserve_throws] below). *)
Definition new (width height : Z) : t :=
  let tcx := Z.quot (width + TILE_SIZE - 1) TILE_SIZE in
  let tcy := Z.quot (height + TILE_SIZE - 1) TILE_SIZE in
  mk (ty ← seqZ 0 tcy; tx ← seqZ 0 tcx;
      [Tile.new (tx * TILE_SIZE) (ty * TILE_SIZE)])
     width height tcx tcy.

Definition tile_out_of_range (gr : t) (tileX tileY : Z) : bool :=
  (tileX <? 0) || (tileX >=? tileCountX_ gr)
  || (tileY <? 0) || (tileY >=? tileCountY_ gr).

(** What a [Tile&] returned by the mutable [getTile] designates. *)
Inductive tile_ref := Own (i : nat) | DummyTile.

(** [Tile& TileGrid::getTile(int tileX, int tileY)] *)
Definition getTile_mut (gr : t) (tileX tileY : Z) : tile_ref :=
  if tile_out_of_range gr tileX tileY then DummyTile
  else Own (Z.to_nat (tileY * tileCountX_ gr + tileX)).

(** [const Tile& TileGrid::getTile(int tileX, int tileY) const]; its dummy
    is a [static const Tile], always [Tile()]. *)
Definition getTile_const (gr : t) (tileX tileY : Z) : option Tile.t :=
  if tile_out_of_range gr tileX tileY then Some Tile.new0
  else tiles_ gr !! Z.to_nat (tileY * tileCountX_ gr + tileX).

(** The tile behind a [Tile&], and its replacement. *)
Definition deref (gr : t) (st : Statics) (tr : tile_ref) : option Tile.t :=
  match tr with
  | Own i => tiles_ gr !! i
  | DummyTile => Some (dummy_tile st)
  end.

Definition update (gr : t) (st : Statics) (tr : tile_ref) (tl : Tile.t)
  : t * Statics :=
  match tr with
  | Own i => (set_tiles (<[i := tl]> (tiles_ gr)) gr, st)
  | DummyTile => (gr, mkStatics (dummy_pixel st) tl)
  end.

(** What a [Pixel&] returned by the mutable [getPixel] designates. *)
Definition pixel_ref : Type := tile_ref * Tile.ref.

(** [Pixel& TileGrid::getPixel(int x, int y)]; [/] and [%] on [int]
    truncate toward zero. *)
Definition getPixel_mut (gr : t) (st : Statics) (x y : Z)
  : option (t * Statics * pixel_ref) :=
  let tileX := Z.quot x TILE_SIZE in
  let tileY := Z.quot y TILE_SIZE in
  let localX := Z.rem x TILE_SIZE in
  let localY := Z.rem y TILE_SIZE in
  let tr := getTile_mut gr tileX tileY in
  tl ← deref gr st tr;
  let '(tl', pr) := Tile.at_mut tl localX localY in
  let '(gr', st') := update gr st tr tl' in
  Some (gr', st', (tr, pr)).

(** [const Pixel& TileGrid::getPixel(int x, int y) const] *)
Definition getPixel_const (gr : t) (x y : Z) : option Pixel :=
  let tileX := Z.quot x TILE_SIZE in
  let tileY := Z.quot y TILE_SIZE in
  let localX := Z.rem x TILE_SIZE in
  let localY := Z.rem y TILE_SIZE in
  tl ← getTile_const gr tileX tileY;
  Tile.at_const tl localX localY.

(** Reading and writing through a [Pixel&]. *)
Definition load (gr : t) (st : Statics) (rf : pixel_ref) : option Pixel :=
  tl ← deref gr st (fst rf);
  Tile.load tl (dummy_pixel st) (snd rf).

Definition store (gr : t) (st : Statics) (rf : pixel_ref) (p : Pixel)
  : option (t * Statics) :=
  tl ← deref gr st (fst rf);
  '(tl', d') ← Tile.store tl (dummy_pixel st) (snd rf) p;
  let '(gr', st') := update gr st (fst rf) tl' in
  Some (gr', mkStatics d' (dummy_tile st')).

(** Copy constructor: every tile is fetched with the const [getTile] and
    copied. *)
Definition copy (other : t) : option t :=
  ts ← mapM (λ yx : Z * Z, getTile_const other yx.2 yx.1)
            (ty ← seqZ 0 (tileCountY_ other);
             tx ← seqZ 0 (tileCountX_ other); [(ty, tx)]);
  Some (mk ts (width_ other) (height_ other)
           (tileCountX_ other) (tileCountY_ other)).

(** Copy assignment [*this = other]; all members of [*this] are replaced. *)
Definition assign (this other : t) : option t := copy other.

Definition clear (gr : t) : t := set_tiles (Tile.clear <$> tiles_ gr) gr.
Definition fill (color : Pixel) (gr : t) : t :=
  set_tiles (Tile.fill color <$> tiles_ gr) gr.
Definition getDirtyTiles (gr : t) : list Tile.t :=
  filter (λ tl, Tile.dirty_ tl = true) (tiles_ gr).
Definition clearDirtyFlags (gr : t) : t :=
  set_tiles (Tile.setDirty false <$> tiles_ gr) gr.

(** [cv::Mat TileGrid::toMat() const]: channel order B, G, R, A. *)
Definition toMat (gr : t) : option Mat.t :=
  rws ← mapM (λ y,
           mapM (λ x,
             p ← getPixel_const gr x y;
             Some (Mat.vec (b p) (g p) (r p) (a p)))
           (seqZ 0 (width_ gr)))
         (seqZ 0 (height_ gr));
  Some (Mat.mk (height_ gr) (width_ gr) rws).


(** Class invariant established by the constructors: the tile counts are
    those of the dimensions, the grid is dense and every tile is
    well-formed. *)
Definition wf (gr : t) : Prop :=
  tileCountX_ gr = Z.quot (width_ gr + TILE_SIZE - 1) TILE_SIZE
  /\ tileCountY_ gr = Z.quot (height_ gr + TILE_SIZE - 1) TILE_SIZE
  /\ length (tiles_ gr)
     = (Z.to_nat (tileCountY_ gr) * Z.to_nat (tileCountX_ gr))%nat
  /\ Forall Tile.wf (tiles_ gr).

End TileGrid.

(** ** UndoStack (undo_stack.h, undo_stack.cpp) *)

Module UndoStack.

Record UndoState := mkState {
  layerSnapshots : list TileGrid.t;
  description : string;
  timestamp : Z
}.

(** [currentIndex_] and [maxStates_] are [size_t]. *)
Record t := mk { states_ : list UndoState; currentIndex_ : Z; maxStates_ : Z }.

(** [UndoStack(size_t maxStates = 50)] *)
Definition new (maxStates : Z) : t := mk [] 0 maxStates.

(** [states_.size()] *)
Definition size (us : t) : Z := Z.of_nat (length (states_ us)).

(** [canUndo() { return currentIndex_ > 0; }] *)
Definition canUndo (us : t) : bool := currentIndex_ us >? 0.

(** [canRedo() { return currentIndex_ < states_.size() - 1; }], the
    subtraction being done on [size_t]. *)
Definition canRedo (us : t) : bool :=
  currentIndex_ us <? to_size_t (size us - 1).

Definition getStateCount (us : t) : Z := size us.
Definition getCurrentIndex (us : t) : Z := currentIndex_ us.
Definition setMaxStates (maxStates : Z) (us : t) : t :=
  mk (states_ us) (currentIndex_ us) maxStates.

Definition trimStates (us : t) : t :=
  if size us <=? maxStates_ us then us
  else
    let toRemove := to_size_t (size us - maxStates_ us) in
    mk (drop (Z.to_nat toRemove) (states_ us))
       (std_max 0 (to_size_t (currentIndex_ us - toRemove)))
       (maxStates_ us).

(** [pushState(snapshots, description)]; [now] is the clock reading stored
    as the timestamp. *)
Definition pushState (us : t) (snapshots : list TileGrid.t)
    (description : string) (now : Z) : option t :=
  let states1 :=
    if currentIndex_ us <? size us
    then take (Z.to_nat (currentIndex_ us)) (states_ us)
    else states_ us in
  snaps ← mapM TileGrid.copy snapshots;
  let state := mkState snaps description now in
  Some (trimStates (mk (states1 ++ [state])
                       (to_size_t (currentIndex_ us + 1))
                       (maxStates_ us))).

Definition popState (us : t) : option (t * list TileGrid.t) :=
  if negb (canUndo us) then Some (us, [])
  else
    let idx := to_size_t (currentIndex_ us - 1) in
    state ← states_ us !! Z.to_nat idx;
    result ← mapM TileGrid.copy (layerSnapshots state);
    Some (mk (states_ us) idx (maxStates_ us), result).

Definition redoState (us : t) : option (t * list TileGrid.t) :=
  if negb (canRedo us) then Some (us, [])
  else
    state ← states_ us !! Z.to_nat (currentIndex_ us);
    result ← mapM TileGrid.copy (layerSnapshots state);
    Some (mk (states_ us) (to_size_t (currentIndex_ us + 1)) (maxStates_ us),
          result).

Definition getUndoDescription (us : t) : option string :=
  if negb (canUndo us) then Some EmptyString
  else description <$> states_ us !! Z.to_nat (to_size_t (currentIndex_ us - 1)).

Definition getRedoDescription (us : t) : option string :=
  if negb (canRedo us) then Some EmptyString
  else description <$> states_ us !! Z.to_nat (currentIndex_ us).

Definition clear (us : t) : t := mk [] 0 (maxStates_ us).

(** Invariant of a history whose ceiling is positive and is not lowered
    after construction (the canvas never calls [setMaxStates]): the index
    never passes the end, the ceiling is respected, and every stored
    snapshot is a well-formed grid. *)
Definition wf (us : t) : Prop :=
  0 <= currentIndex_ us <= size us
  /\ size us <= maxStates_ us
  /\ 1 <= maxStates_ us < 2 ^ 63
  /\ Forall (λ st, Forall TileGrid.wf (layerSnapshots st)) (states_ us).

End UndoStack.

(** ** Layer (canvas_core.h, canvas_core.cpp) *)

Inductive BlendMode :=
  | Normal | Multiply | Screen | Overlay | SoftLight | HardLight
  | ColorDodge | ColorBurn | Darken | Lighten | Difference | Exclusion.

Module Layer.

(** The clip mask is a [shared_ptr<Layer>]; the pointee is held by value,
    [None] being the null pointer. *)
#[local] Unset Elimination Schemes.
Inductive t := mk {
  name_ : string;
  pixels_ : TileGrid.t;
  opacity_ : spec_float;
  blendMode_ : BlendMode;
  visible_ : bool;
  clipMask_ : option t;
  adjustments_ : list (string * gmap string spec_float)
}.
#[local] Set Elimination Schemes.

(** [Layer(name, width, height)] *)
Definition new (name : string) (width height : Z) : t :=
  mk name (TileGrid.new width height) F32.one Normal true None [].

Definition set_pixels (px : TileGrid.t) (l : t) : t :=
  mk (name_ l) px (opacity_ l) (blendMode_ l) (visible_ l) (clipMask_ l)
     (adjustments_ l).

Definition setName (name : string) (l : t) : t :=
  mk name (pixels_ l) (opacity_ l) (blendMode_ l) (visible_ l) (clipMask_ l)
     (adjustments_ l).

(** [std::clamp(opacity, 0.0f, 1.0f)] is
    [(v < lo) ? lo : (hi < v) ? hi : v]. *)
Definition setOpacity (opacity : spec_float) (l : t) : t :=
  let o := if F32.ltb opacity F32.zero then F32.zero
           else if F32.ltb F32.one opacity then F32.one else opacity in
  mk (name_ l) (pixels_ l) o (blendMode_ l) (visible_ l) (clipMask_ l)
     (adjustments_ l).

Definition setBlendMode (mode : BlendMode) (l : t) : t :=
  mk (name_ l) (pixels_ l) (opacity_ l) mode (visible_ l) (clipMask_ l)
     (adjustments_ l).

Definition setVisible (visible : bool) (l : t) : t :=
  mk (name_ l) (pixels_ l) (opacity_ l) (blendMode_ l) visible (clipMask_ l)
     (adjustments_ l).

Definition setClipMask (mask : option t) (l : t) : t :=
  mk (name_ l) (pixels_ l) (opacity_ l) (blendMode_ l) (visible_ l) mask
     (adjustments_ l).

Definition set_adjustments
    (adj : list (string * gmap string spec_float)) (l : t) : t :=
  mk (name_ l) (pixels_ l) (opacity_ l) (blendMode_ l) (visible_ l)
     (clipMask_ l) adj.

Definition addAdjustment (type : string) (params : gmap string spec_float)
    (l : t) : t :=
  set_adjustments (adjustments_ l ++ [(type, params)]) l.

Definition removeAdjustment (index : Z) (l : t) : t :=
  if (index >=? 0) && (index <? Z.of_nat (length (adjustments_ l)))
  then set_adjustments (delete (Z.to_nat index) (adjustments_ l)) l
  else l.

Definition clearAdjustments (l : t) : t := set_adjustments [] l.

End Layer.

(** ** CanvasCore (canvas_core.h, canvas_core.cpp) *)

Module CanvasCore.

Record t := mk {
  width_ : Z;
  height_ : Z;
  layers_ : list Layer.t;
  selection_ : list (Z * Z);
  undoStack_ : UndoStack.t
}.

Definition set_layers (ls : list Layer.t) (c : t) : t :=
  mk (width_ c) (height_ c) ls (selection_ c) (undoStack_ c).
Definition set_undoStack (us : UndoStack.t) (c : t) : t :=
  mk (width_ c) (height_ c) (layers_ c) (selection_ c) us.

Definition addLayer (name : string) (c : t) : t :=
  set_layers (layers_ c ++ [Layer.new name (width_ c) (height_ c)]) c.

(** [CanvasCore(int width, int height)] *)
Definition new (width height : Z) : t :=
  addLayer "Background" (mk width height [] [] (UndoStack.new 50)).

(** [void CanvasCore::resize(int width, int height)], when no [Layer]
    constructor throws.  When the grid constructor throws ([reserve_throws]
    below) and the canvas has a layer, the first [std::make_shared<Layer>]
    raises [std::length_error] after [width_] and [height_] have been
    assigned and before any layer is replaced. *)
Definition resize (width height : Z) (c : t) : t :=
  mk width height
     ((λ layer, Layer.new (Layer.name_ layer) width height) <$> layers_ c)
     (selection_ c) (undoStack_ c).

Definition layer_index_ok (c : t) (index : Z) : bool :=
  (index >=? 0) && (index <? Z.of_nat (length (layers_ c))).

Definition removeLayer (index : Z) (c : t) : t :=
  if layer_index_ok c index
  then set_layers (delete (Z.to_nat index) (layers_ c)) c
  else c.

Definition moveLayer (fromIndex toIndex : Z) (c : t) : option t :=
  if layer_index_ok c fromIndex && layer_index_ok c toIndex then
    layer ← layers_ c !! Z.to_nat fromIndex;
    let ls := delete (Z.to_nat fromIndex) (layers_ c) in
    Some (set_layers (take (Z.to_nat toIndex) ls ++ layer
                        :: drop (Z.to_nat toIndex) ls) c)
  else Some c.

(** [getLayer]: [None] is the null pointer. *)
Definition getLayer (index : Z) (c : t) : option Layer.t :=
  if layer_index_ok c index then layers_ c !! Z.to_nat index else None.

Definition setSelection (points : list (Z * Z)) (c : t) : t :=
  mk (width_ c) (height_ c) (layers_ c) points (undoStack_ c).
Definition clearSelection (c : t) : t := setSelection [] c.
Definition hasSelection (c : t) : bool :=
  match selection_ c with [] => false | _ => true end.

(** [beginStroke()]; [now] is the clock reading taken by [pushState]. *)
Definition beginStroke (now : Z) (c : t) : option t :=
  snapshots ← mapM (λ layer, TileGrid.copy (Layer.pixels_ layer)) (layers_ c);
  us ← UndoStack.pushState (undoStack_ c) snapshots "Brush Stroke" now;
  Some (set_undoStack us c).

Definition endStroke (c : t) : t := c.

(** The loop [for (i = 0; i < layers_.size() && i < snapshots.size(); ++i)
    layers_[i]->getPixels() = *snapshots[i];] *)
Fixpoint restore (ls : list Layer.t) (snapshots : list TileGrid.t)
  : option (list Layer.t) :=
  match ls, snapshots with
  | layer :: ls', snap :: snapshots' =>
      px ← TileGrid.assign (Layer.pixels_ layer) snap;
      rest ← restore ls' snapshots';
      Some (Layer.set_pixels px layer :: rest)
  | _, _ => Some ls
  end.

Definition undo (c : t) : option t :=
  if UndoStack.canUndo (undoStack_ c) then
    '(us, snapshots) ← UndoStack.popState (undoStack_ c);
    ls ← restore (layers_ c) snapshots;
    Some (set_layers ls (set_undoStack us c))
  else Some c.

Definition redo (c : t) : option t :=
  if UndoStack.canRedo (undoStack_ c) then
    '(us, snapshots) ← UndoStack.redoState (undoStack_ c);
    ls ← restore (layers_ c) snapshots;
    Some (set_layers ls (set_undoStack us c))
  else Some c.

Definition canUndo (c : t) : bool := UndoStack.canUndo (undoStack_ c).
Definition canRedo (c : t) : bool := UndoStack.canRedo (undoStack_ c).

(** *** Stroke kernels *)

(** [1.0f - (distance / radius)], then [alpha *= opacity] *)
Definition stamp_alpha (dist : spec_float) (radius : Z) (opacity : spec_float)
  : spec_float :=
  F32.mul (F32.sub F32.one (F32.div dist (F32.of_int radius))) opacity.

(** [static_cast<uint16_t>(dest.a * (1 - alpha))] *)
Definition fade_channel (d : Z) (alpha : spec_float) : option Z :=
  F32.to_uint16 (F32.mul (F32.of_int d) (F32.sub (F32.of_int 1) alpha)).

Definition brush_pixel (color : Pixel) (alpha : spec_float) (dest : Pixel)
  : option Pixel :=
  mix_pixel color alpha dest.

Definition erase_pixel (alpha : spec_float) (dest : Pixel) : option Pixel :=
  a' ← fade_channel (a dest) alpha;
  Some (mkPixel (r dest) (g dest) (b dest) a').

(** The loops over the points and over the square around each point,
    shared by both kernels; [paint alpha dest] is the update of one
    pixel. *)
Definition stamp (width height : Z) (size opacity : spec_float)
    (paint : spec_float -> Pixel -> option Pixel)
    (point : Z * Z) (s : TileGrid.t * Statics) : option (TileGrid.t * Statics) :=
  let x := point.1 in
  let y := point.2 in
  radius ← F32.to_int (F32.div size F32.two);
  for_range (- radius) (radius + 1) (λ dy,
    for_range (- radius) (radius + 1) (λ dx (s : TileGrid.t * Statics),
      let px := x + dx in
      let py := y + dy in
      if (px >=? 0) && (px <? width) && (py >=? 0) && (py <? height) then
        let dist := distance dx dy in
        if F32.leb dist (F32.of_int radius) then
          let alpha := stamp_alpha dist radius opacity in
          '(gr1, st1, rf) ← TileGrid.getPixel_mut s.1 s.2 px py;
          dest ← TileGrid.load gr1 st1 rf;
          dest' ← paint alpha dest;
          TileGrid.store gr1 st1 rf dest'
        else Some s
      else Some s)) s.

Definition stroke (c : t) (st : Statics) (layerIndex : Z)
    (points : list (Z * Z)) (size opacity : spec_float)
    (paint : spec_float -> Pixel -> option Pixel) : option (t * Statics) :=
  if (layerIndex <? 0) || (layerIndex >=? Z.of_nat (length (layers_ c)))
  then Some (c, st)
  else
    layer ← layers_ c !! Z.to_nat layerIndex;
    '(px, st') ← for_each points
                   (stamp (width_ c) (height_ c) size opacity paint)
                   (Layer.pixels_ layer, st);
    Some (set_layers (<[Z.to_nat layerIndex := Layer.set_pixels px layer]>
                        (layers_ c)) c, st').

Definition drawBrushStroke (c : t) (st : Statics) (layerIndex : Z)
    (points : list (Z * Z)) (size opacity : spec_float) (color : Pixel)
  : option (t * Statics) :=
  stroke c st layerIndex points size opacity (brush_pixel color).

Definition eraseBrushStroke (c : t) (st : Statics) (layerIndex : Z)
    (points : list (Z * Z)) (size opacity : spec_float)
  : option (t * Statics) :=
  stroke c st layerIndex points size opacity erase_pixel.

Definition applyFilter (layerIndex : Z) (filterType : string)
    (params : gmap string spec_float) (c : t) : t :=
  if (layerIndex <? 0) || (layerIndex >=? Z.of_nat (length (layers_ c)))
  then c
  else set_layers
         (alter (Layer.addAdjustment filterType params)
                (Z.to_nat layerIndex) (layers_ c)) c.

(** *** Blend operator *)

Definition blend_fn (mode : BlendMode) (d s : spec_float) : spec_float :=
  match mode with
  | Normal => s
  | Multiply => F32.mul d s
  | Screen =>
      F32.sub F32.one (F32.mul (F32.sub F32.one d) (F32.sub F32.one s))
  | Overlay =>
      if F32.ltb d F32.half then F32.mul (F32.mul F32.two d) s
      else F32.sub F32.one
             (F32.mul (F32.mul F32.two (F32.sub F32.one d))
                      (F32.sub F32.one s))
  | _ => s
  end.

(** [(result * srcAlpha + dest * destAlpha * (1.0f - srcAlpha))
     / finalAlpha * 65535.0f], converted to [uint16_t]. *)
Definition blend_channel (result destC srcAlpha destAlpha finalAlpha : spec_float)
  : option Z :=
  F32.to_uint16
    (F32.mul
       (F32.div
          (F32.add (F32.mul result srcAlpha)
                   (F32.mul (F32.mul destC destAlpha)
                            (F32.sub F32.one srcAlpha)))
          finalAlpha)
       F32.c65535).

(** [blendPixels(dest, src, mode, opacity)]: the new value of [dest]. *)
Definition blendPixels (dest src : Pixel) (mode : BlendMode)
    (opacity : spec_float) : option Pixel :=
  let srcAlpha := F32.mul (F32.div (F32.of_int (a src)) F32.c65535) opacity in
  let destAlpha := F32.div (F32.of_int (a dest)) F32.c65535 in
  if F32.leb srcAlpha F32.zero then Some dest
  else
    let srcR := F32.div (F32.of_int (r src)) F32.c65535 in
    let srcG := F32.div (F32.of_int (g src)) F32.c65535 in
    let srcB := F32.div (F32.of_int (b src)) F32.c65535 in
    let destR := F32.div (F32.of_int (r dest)) F32.c65535 in
    let destG := F32.div (F32.of_int (g dest)) F32.c65535 in
    let destB := F32.div (F32.of_int (b dest)) F32.c65535 in
    let resultR := blend_fn mode destR srcR in
    let resultG := blend_fn mode destG srcG in
    let resultB := blend_fn mode destB srcB in
    let finalAlpha :=
      F32.add srcAlpha (F32.mul destAlpha (F32.sub F32.one srcAlpha)) in
    if F32.ltb F32.zero finalAlpha then
      r' ← blend_channel resultR destR srcAlpha destAlpha finalAlpha;
      g' ← blend_channel resultG destG srcAlpha destAlpha finalAlpha;
      b' ← blend_channel resultB destB srcAlpha destAlpha finalAlpha;
      a' ← F32.to_uint16 (F32.mul finalAlpha F32.c65535);
      Some (mkPixel r' g' b' a')
    else Some dest.

(** Well-formed canvas: every layer grid and the history are
    well-formed. *)
Definition wf (c : t) : Prop :=
  Forall (λ layer, TileGrid.wf (Layer.pixels_ layer)) (layers_ c)
  /\ UndoStack.wf (undoStack_ c).

End CanvasCore.

(** *** Strokes as sequences of kernel calls *)

(** One call of [drawBrushStroke] or [eraseBrushStroke] with its
    arguments. *)
Inductive kernel_call :=
  | Brush (layerIndex : Z) (points : list (Z * Z)) (size opacity : spec_float)
          (color : Pixel)
  | Eraser (layerIndex : Z) (points : list (Z * Z)) (size opacity : spec_float).

Definition run_kernel (k : kernel_call) (s : CanvasCore.t * Statics)
  : option (CanvasCore.t * Statics) :=
  match k with
  | Brush layerIndex points size opacity color =>
      CanvasCore.drawBrushStroke s.1 s.2 layerIndex points size opacity color
  | Eraser layerIndex points size opacity =>
      CanvasCore.eraseBrushStroke s.1 s.2 layerIndex points size opacity
  end.

Definition run_kernels (ks : list kernel_call) (s : CanvasCore.t * Statics)
  : option (CanvasCore.t * Statics) :=
  for_each ks run_kernel s.

(** The pixel grids of the layers, bottom to top. *)
Definition layer_grids (c : CanvasCore.t) : list TileGrid.t :=
  Layer.pixels_ <$> CanvasCore.layers_ c.

(** Everything of a layer except its pixel grid. *)
Definition same_metadata (l l' : Layer.t) : Prop :=
  Layer.name_ l' = Layer.name_ l
  /\ Layer.opacity_ l' = Layer.opacity_ l
  /\ Layer.blendMode_ l' = Layer.blendMode_ l
  /\ Layer.visible_ l' = Layer.visible_ l
  /\ Layer.clipMask_ l' = Layer.clipMask_ l
  /\ Layer.adjustments_ l' = Layer.adjustments_ l.

(** [ls'] is [ls] with the grids of [snapshots] copied into the layers that
    have one; count, order and metadata are those of [ls]. *)
Definition restored (snapshots : list TileGrid.t) (ls ls' : list Layer.t) : Prop :=
  length ls' = length ls
  /\ forall (i : nat) (l : Layer.t), ls !! i = Some l ->
       exists l', ls' !! i = Some l'
         /\ same_metadata l l'
         /\ ((i < Nat.min (length ls) (length snapshots))%nat ->
               snapshots !! i = Some (Layer.pixels_ l'))
         /\ ((Nat.min (length ls) (length snapshots) <= i)%nat ->
               Layer.pixels_ l' = Layer.pixels_ l).

(** ** Filter plugins (plugin_interface.h and the plugin sources) *)

Record FilterParams := mkParams {
  floatParams : gmap string spec_float;
  intParams : gmap string Z;
  stringParams : gmap string string
}.

(** [ProgressCallback].  [has_progress] tells whether the [progress]
    member holds a target; [cancelled] is [None] when that member is empty,
    and otherwise gives the answer of [cancelled()] as a function of the
    number of earlier polls. *)
Record ProgressCallback := mkCallback {
  has_progress : bool;
  cancelled : option (nat -> bool)
}.

(** State of a run of [process]: the tile array behind [data], the
    process-wide state the per-tile filter uses, the counter, the fractions
    passed to [progress] and the number of polls of [cancelled]. *)
Record run (G : Type) := mkRun {
  tiles : list Tile.t;
  globals : G;
  currentTile : Z;
  reported : list spec_float;
  polls : nat
}.
Arguments mkRun {G} _ _ _ _ _.
Arguments tiles {G} _.
Arguments globals {G} _.
Arguments currentTile {G} _.
Arguments reported {G} _.
Arguments polls {G} _.

Section TileLoop.
Context {G : Type}.

(** The per-tile filter applied to [*tile]. *)
Variable kernel : Tile.t -> G -> option (Tile.t * G).

(** Body of the inner loop, the same text in the four plugins. *)
Definition tile_step (w : Z) (cb : option ProgressCallback) (totalTiles : Z)
    (ty tx : Z) (s : run G) : option (flow (run G)) :=
  let tileIndex := ty * Z.quot (w + TILE_SIZE - 1) TILE_SIZE + tx in
  tile ← tiles s !! Z.to_nat tileIndex;
  '(tile', gs') ← kernel tile (globals s);
  let data' := <[Z.to_nat tileIndex := tile']> (tiles s) in
  let currentTile' := currentTile s + 1 in
  let reported' :=
    match cb with
    | Some c =>
        if has_progress c
        then reported s
               ++ [F32.div (F32.of_int currentTile') (F32.of_int totalTiles)]
        else reported s
    | None => reported s
    end in
  match cb with
  | Some c =>
      match cancelled c with
      | Some answer =>
          let s' := mkRun data' gs' currentTile' reported' (S (polls s)) in
          if answer (polls s) then Some (Return s') else Some (Continue s')
      | None => Some (Continue (mkRun data' gs' currentTile' reported' (polls s)))
      end
  | None => Some (Continue (mkRun data' gs' currentTile' reported' (polls s)))
  end.

(** The loops [for ty ... for tx ...] of [process]. *)
Definition tile_loop (data : list Tile.t) (w h : Z)
    (cb : option ProgressCallback) (gs : G) : option (run G) :=
  let totalTiles :=
    Z.quot (w + TILE_SIZE - 1) TILE_SIZE * Z.quot (h + TILE_SIZE - 1) TILE_SIZE in
  flow_state <$>
    for_range_ret 0 (Z.quot (h + TILE_SIZE - 1) TILE_SIZE) (λ ty,
      for_range_ret 0 (Z.quot (w + TILE_SIZE - 1) TILE_SIZE)
        (tile_step w cb totalTiles ty))
      (mkRun data gs 0 [] 0%nat).

(** [if (!data) return;] followed by the loops. *)
Definition process_with (data : option (list Tile.t)) (w h : Z)
    (cb : option ProgressCallback) (gs : G) : option (option (run G)) :=
  match data with
  | None => Some None
  | Some ts => Some <$> tile_loop ts w h cb gs
  end.
End TileLoop.

(** *** Smudge (smudge.cpp) *)

Module Smudge.

Record SmudgeState := mkState {
  buffer : list Pixel;
  size : Z;
  initialized : bool
}.

(** [static SmudgeState g_smudgeState;] *)
Definition g_smudgeState_init : SmudgeState := mkState [] 0 false.

Definition in_tile (px py : Z) : bool :=
  (px >=? 0) && (px <? TILE_SIZE) && (py >=? 0) && (py <? TILE_SIZE).

(** The test and resize that both [pick_up_color] and [smart_smudge]
    start with. *)
Definition ensure_buffer (radius : Z) (gs : SmudgeState) : SmudgeState :=
  if negb (initialized gs) || negb (size gs =? radius * 2 + 1) then
    let size' := radius * 2 + 1 in
    mkState (resize (Z.to_nat (size' * size')) Pixel_default (buffer gs))
            size' true
  else gs.

Definition pick_up_color (tile : Tile.t) (x y radius : Z) (gs : SmudgeState)
  : option SmudgeState :=
  let gs1 := ensure_buffer radius gs in
  '(buf, _) ←
    for_range (- radius) (radius + 1) (λ dy,
      for_range (- radius) (radius + 1) (λ dx (s : list Pixel * Z),
        let px := x + dx in
        let py := y + dy in
        _ ← s.1 !! Z.to_nat s.2;
        if in_tile px py then
          p ← Tile.at_const tile px py;
          Some (<[Z.to_nat s.2 := p]> s.1, s.2 + 1)
        else Some (<[Z.to_nat s.2 := Pixel_default]> s.1, s.2 + 1)))
      (buffer gs1, 0);
  Some (mkState buf (size gs1) (initialized gs1)).

Definition apply_smudge (tile : Tile.t) (x y radius : Z) (strength : spec_float)
    (gs : SmudgeState * Statics) : option (Tile.t * (SmudgeState * Statics)) :=
  if negb (initialized gs.1) then Some (tile, gs)
  else
    '(tile', d', _) ←
      for_range (- radius) (radius + 1) (λ dy,
        for_range (- radius) (radius + 1) (λ dx (s : Tile.t * Pixel * Z),
          let px := x + dx in
          let py := y + dy in
          if in_tile px py then
            let '(tile1, rf) := Tile.at_mut s.1.1 px py in
            src ← buffer gs.1 !! Z.to_nat s.2;
            let dist := distance dx dy in
            let falloff :=
              F32.max F32.zero
                      (F32.sub F32.one (F32.div dist (F32.of_int radius))) in
            let alpha := F32.mul strength falloff in
            dest ← Tile.load tile1 s.1.2 rf;
            dest' ← mix_pixel src alpha dest;
            '(tile2, d2) ← Tile.store tile1 s.1.2 rf dest';
            Some (tile2, d2, s.2 + 1)
          else Some (s.1, s.2 + 1)))
        (tile, dummy_pixel gs.2, 0);
    gs' ← pick_up_color tile' x y radius gs.1;
    Some (tile', (gs', mkStatics d' (dummy_tile gs.2))).

Section WithOpenCV.
(** [smart_smudge] measures the distance to the nearest Canny edge with
    OpenCV, which is outside the repository. *)
Variable smart_smudge :
  Tile.t -> Z -> Z -> Z -> spec_float -> SmudgeState * Statics
  -> option (Tile.t * (SmudgeState * Statics)).

Definition tile_filter (smartMode : bool) (radius : Z) (strength : spec_float)
    (tile : Tile.t) (gs : SmudgeState * Statics)
  : option (Tile.t * (SmudgeState * Statics)) :=
  gs1 ← pick_up_color tile (Z.quot TILE_SIZE 2) (Z.quot TILE_SIZE 2) radius gs.1;
  if smartMode
  then smart_smudge tile (Z.quot TILE_SIZE 2) (Z.quot TILE_SIZE 2) radius
                    strength (gs1, gs.2)
  else apply_smudge tile (Z.quot TILE_SIZE 2) (Z.quot TILE_SIZE 2) radius
                    strength (gs1, gs.2).

End WithOpenCV.

End Smudge.

(** *** Gaussian blur, unsharp mask, inpaint *)

(** The per-tile filters of these three plugins convert the tile to a matrix,
    call OpenCV ([cv::boxFilter], [cv::GaussianBlur], [cv::inpaint], ...) and
    convert back; OpenCV is outside the repository, so the filters are
    parameters of the plugins' [process] functions. *)
Section OpenCVPlugins.
Variable fast_gaussian_blur : Tile.t -> spec_float -> option Tile.t.
Variable unsharp_mask :
  Tile.t -> spec_float -> spec_float -> spec_float -> option Tile.t.
Variable inpaint_telea inpaint_navier_stokes inpaint_advanced :
  Tile.t -> list (Z * Z) -> Z -> option Tile.t.

Definition stateless (f : Tile.t -> option Tile.t) (tile : Tile.t) (u : unit)
  : option (Tile.t * unit) :=
  tile' ← f tile; Some (tile', u).

Definition gaussian_process (data : option (list Tile.t)) (w h : Z)
    (params : FilterParams) (cb : option ProgressCallback)
  : option (option (run unit)) :=
  let sigma := default F32.one (floatParams params !! "sigma") in
  let sigma := F32.max F32.c0_1 (F32.min F32.c50 sigma) in
  process_with (stateless (λ tile, fast_gaussian_blur tile sigma)) data w h cb ().

Definition unsharp_process (data : option (list Tile.t)) (w h : Z)
    (params : FilterParams) (cb : option ProgressCallback)
  : option (option (run unit)) :=
  let radius := default F32.one (floatParams params !! "radius") in
  let amount := default F32.one (floatParams params !! "amount") in
  let threshold := default F32.zero (floatParams params !! "threshold") in
  let radius := F32.max F32.c0_1 (F32.min F32.c50 radius) in
  let amount := F32.max F32.zero (F32.min F32.c5 amount) in
  let threshold := F32.max F32.zero (F32.min F32.one threshold) in
  process_with (stateless (λ tile, unsharp_mask tile radius amount threshold))
               data w h cb ().

Definition inpaint_process (data : option (list Tile.t)) (w h : Z)
    (params : FilterParams) (cb : option ProgressCallback)
  : option (option (run unit)) :=
  let radius := default 3 (intParams params !! "radius") in
  let algorithm := default "telea" (stringParams params !! "algorithm") in
  let radius := std_max 1 (std_min 50 radius) in
  let centerX := Z.quot TILE_SIZE 2 in
  let centerY := Z.quot TILE_SIZE 2 in
  let maskPoints : list (Z * Z) :=
    y ← seqZ (centerY - radius) (2 * radius + 1);
    x ← seqZ (centerX - radius) (2 * radius + 1);
    if F32.leb (distance (x - centerX) (y - centerY)) (F32.of_int radius)
    then [(x, y)] else [] in
  process_with
    (stateless (λ tile,
       if bool_decide (algorithm = "navier_stokes")
       then inpaint_navier_stokes tile maskPoints radius
       else if bool_decide (algorithm = "advanced")
       then inpaint_advanced tile maskPoints radius
       else inpaint_telea tile maskPoints radius))
    data w h cb ().
End OpenCVPlugins.

(** ** Definitions used in the statements *)

(** Row-major enumeration of an [n] by [m] grid: the order in which the
    nested [for ty ... for tx ...] loops visit the tiles. *)
Definition grid_enum {A : Type} (f : Z -> Z -> A) (n m : Z) : list A :=
  ty ← seqZ 0 n; tx ← seqZ 0 m; [f ty tx].

(** The pixel at [(x, y)] of a layer of the canvas. *)
Definition pixel_at (c : CanvasCore.t) (layer : nat) (x y : Z) : option Pixel :=
  l ← CanvasCore.layers_ c !! layer; TileGrid.getPixel_const (Layer.pixels_ l) x y.

(** [begin_stroke] followed by a sequence of kernel calls. *)
Definition stroke_on (c : CanvasCore.t) (now : Z) (ks : list kernel_call)
    (st : Statics) : option (CanvasCore.t * Statics) :=
  c1 ← CanvasCore.beginStroke now c; run_kernels ks (c1, st).

(** The snapshot list handed back by the history: empty when there is
    nothing to restore, else the snapshots of one of its states. *)
Definition from_history (us : UndoStack.t) (snapshots : list TileGrid.t) : Prop :=
  snapshots = []
  \/ exists state, state ∈ UndoStack.states_ us
                /\ snapshots = UndoStack.layerSnapshots state.

(** [l'] is what [Layer(name, width, height)] builds from the name of [l]. *)
Definition fresh_layer (width height : Z) (l l' : Layer.t) : Prop :=
  Layer.name_ l' = Layer.name_ l
  /\ Layer.opacity_ l' = F32.one
  /\ Layer.blendMode_ l' = Normal
  /\ Layer.visible_ l' = true
  /\ Layer.clipMask_ l' = None
  /\ Layer.adjustments_ l' = []
  /\ TileGrid.width_ (Layer.pixels_ l') = width
  /\ TileGrid.height_ (Layer.pixels_ l') = height
  /\ forall x y, TileGrid.getPixel_const (Layer.pixels_ l') x y = Some Pixel_default.

(** The invariants are decidable, so they can be checked by evaluation on a
    concrete value. *)
Global Instance Tile_wf_dec tl : Decision (Tile.wf tl).
Proof. unfold Tile.wf. apply _. Defined.
Global Instance TileGrid_wf_dec gr : Decision (TileGrid.wf gr).
Proof. unfold TileGrid.wf. apply _. Defined.
Global Instance UndoStack_wf_dec us : Decision (UndoStack.wf us).
Proof. unfold UndoStack.wf. apply _. Defined.
Global Instance CanvasCore_wf_dec c : Decision (CanvasCore.wf c).
Proof. unfold CanvasCore.wf. apply _. Defined.

(** *** Concrete inputs *)

Definition white : Pixel := mkPixel 65535 65535 65535 65535.
Definition gray (v : Z) : Pixel := mkPixel v v v v.
Definition flat_tile (v : Z) : Tile.t := Tile.fill (gray v) Tile.new0.

(** A 128 x 128 canvas and the one-point opaque white stroke of size 2 at
    (10, 10). *)
Definition canvas128 : CanvasCore.t := CanvasCore.new 128 128.
Definition dot_stroke : list kernel_call :=
  [Brush 0 [(10, 10)] F32.two F32.one white].

(** The canvas after that stroke, with a second layer added on top. *)
Definition layered_canvas : CanvasCore.t :=
  CanvasCore.addLayer "Top"
    (from_option fst canvas128 (stroke_on canvas128 0 dot_stroke Statics_init)).

(** A history with one state pushed and then undone. *)
Definition one_undone : option UndoStack.t :=
  us ← UndoStack.pushState (UndoStack.new 50) [TileGrid.new 1 1] "A" 0;
  fst <$> UndoStack.popState us.

(** [x / 65535.0f] for a channel value [x]. *)
Definition unit_of (x : Z) : spec_float := F32.div (F32.of_int x) F32.c65535.

(** A non-negative float below 2 with at most 24 significant bits. *)
Definition small_float (f : spec_float) : bool :=
  match f with
  | S754_zero false => true
  | S754_finite false m e => (Z.pos m <? 2 ^ 24) && (e <=? -23)
  | _ => false
  end.

(** +0, or a positive normal binary32 number below 2 and not below
    2^-77. *)
Definition unit_float (f : spec_float) : bool :=
  match f with
  | S754_zero false => true
  | S754_finite false m e =>
      (digits2_pos m =? 24)%positive && (Z.pos m <? 2 ^ 24)
      && (-100 <=? e) && (e <=? -23)
  | _ => false
  end.

(** [static_cast<uint16_t>((x / 65535.0f) * 65535.0f)] gives back [x], and
    the quotient is a unit float. *)
Definition channel_ok (x : Z) : bool :=
  let u := unit_of x in
  unit_float u && bool_decide (F32.to_uint16 (F32.mul u F32.c65535) = Some x).

(** [p] holds of the [n] integers from [x0] on. *)
Definition check_from (p : Z → bool) (x0 : Z) (n : positive) : Z * bool :=
  Pos.iter (λ s : Z * bool, (s.1 + 1, s.2 && p s.1)) (x0, true) n.

Definition grid_out_of_range (gr : TileGrid.t) (x y : Z) : bool :=
  TileGrid.tile_out_of_range gr (Z.quot x TILE_SIZE) (Z.quot y TILE_SIZE)
  || Tile.out_of_range (Z.rem x TILE_SIZE) (Z.rem y TILE_SIZE).

Definition grid100 : TileGrid.t := TileGrid.new 100 100.

Definition write_at (gr : TileGrid.t) (st : Statics) (x y : Z) (p : Pixel)
  : option (TileGrid.t * Statics) :=
  '(gr1, st1, rf) ← TileGrid.getPixel_mut gr st x y;
  TileGrid.store gr1 st1 rf p.

Definition read_at (gr : TileGrid.t) (st : Statics) (x y : Z) : option Pixel :=
  '(gr1, st1, rf) ← TileGrid.getPixel_mut gr st x y;
  TileGrid.load gr1 st1 rf.



(** Stand-in for the OpenCV-backed smart mode, which the default mode never
    calls. *)
Definition no_smart_smudge (tile : Tile.t) (x y radius : Z) (strength : spec_float)
    (gs : Smudge.SmudgeState * Statics)
  : option (Tile.t * (Smudge.SmudgeState * Statics)) := None.

(** Two tiles filled with (3, 3, 3, 65535), their dirty flags cleared: a
    512 x 256 image. *)
Definition dark_tile : Tile.t :=
  Tile.setDirty false (Tile.fill (mkPixel 3 3 3 65535) Tile.new0).
Definition two_tiles : list Tile.t := [dark_tile; dark_tile].



(** Position of the pixel [(x, y)] of the image in the tile array and in
    the pixel buffer of its tile. *)
Definition tile_index (gr : TileGrid.t) (x y : Z) : nat :=
  Z.to_nat (Z.quot y TILE_SIZE * TileGrid.tileCountX_ gr + Z.quot x TILE_SIZE).
Definition pixel_index (x y : Z) : nat :=
  Z.to_nat (Z.rem y TILE_SIZE * TILE_SIZE + Z.rem x TILE_SIZE).

Definition in_image (gr : TileGrid.t) (x y : Z) : Prop :=
  0 ≤ x < TileGrid.width_ gr ∧ 0 ≤ y < TileGrid.height_ gr.

(** [pixel[0..3]] of the matrix entry written for a pixel, and back. *)
Definition to_vec (p : Pixel) : Mat.Vec4w := Mat.vec (b p) (g p) (r p) (a p).



(** * Further code and the definitions used in the further properties *)

(** ** Histories *)

(** [pushState] called once for each entry of [l], oldest first; an entry is
    the snapshot list, the description and the clock reading. *)
Definition push_all (us : UndoStack.t) (l : list (list TileGrid.t * string * Z))
  : option UndoStack.t :=
  for_each l (λ e us, UndoStack.pushState us e.1.1 e.1.2 e.2) us.

(** The state [pushState] stores for an entry. *)
Definition state_of (e : list TileGrid.t * string * Z) : UndoStack.UndoState :=
  UndoStack.mkState e.1.1 e.1.2 e.2.

(** A history with ceiling 1 that holds one state. *)
Definition full_history : UndoStack.t :=
  UndoStack.mk [UndoStack.mkState [] "A" 0] 1 1.

(** Three pushes without snapshots. *)
Definition three_pushes : list (list TileGrid.t * string * Z) :=
  [([], "A", 0); ([], "B", 1); ([], "C", 2)].

(** ** The public mutators of the canvas *)

(** The grid constructor calls [tiles_.reserve(tileCountX_ * tileCountY_)]:
    a negative product, converted to [size_t], exceeds [max_size()] and
    [reserve] throws [std::length_error]. *)
Definition reserve_throws (width height : Z) : bool :=
  Z.quot (width + TILE_SIZE - 1) TILE_SIZE
  * Z.quot (height + TILE_SIZE - 1) TILE_SIZE <? 0.

(** The public mutators of [CanvasCore]. *)
Inductive canvas_op :=
  | OpResize (width height : Z)
  | OpAddLayer (name : string)
  | OpRemoveLayer (index : Z)
  | OpMoveLayer (fromIndex toIndex : Z)
  | OpBeginStroke (now : Z)
  | OpEndStroke
  | OpUndo
  | OpRedo
  | OpKernel (k : kernel_call)
  | OpSetSelection (points : list (Z * Z))
  | OpClearSelection
  | OpApplyFilter (layerIndex : Z) (filterType : string)
                  (params : gmap string spec_float).

(** One call.  A call in which a grid constructor throws has no result. *)
Definition run_op (op : canvas_op) (s : CanvasCore.t * Statics)
  : option (CanvasCore.t * Statics) :=
  match op with
  | OpResize width height =>
      if negb (bool_decide (CanvasCore.layers_ s.1 = []))
         && reserve_throws width height
      then None else Some (CanvasCore.resize width height s.1, s.2)
  | OpAddLayer name =>
      if reserve_throws (CanvasCore.width_ s.1) (CanvasCore.height_ s.1)
      then None else Some (CanvasCore.addLayer name s.1, s.2)
  | OpRemoveLayer index => Some (CanvasCore.removeLayer index s.1, s.2)
  | OpMoveLayer fromIndex toIndex =>
      c ← CanvasCore.moveLayer fromIndex toIndex s.1; Some (c, s.2)
  | OpBeginStroke now => c ← CanvasCore.beginStroke now s.1; Some (c, s.2)
  | OpEndStroke => Some (CanvasCore.endStroke s.1, s.2)
  | OpUndo => c ← CanvasCore.undo s.1; Some (c, s.2)
  | OpRedo => c ← CanvasCore.redo s.1; Some (c, s.2)
  | OpKernel k => run_kernel k s
  | OpSetSelection points => Some (CanvasCore.setSelection points s.1, s.2)
  | OpClearSelection => Some (CanvasCore.clearSelection s.1, s.2)
  | OpApplyFilter layerIndex filterType params =>
      Some (CanvasCore.applyFilter layerIndex filterType params s.1, s.2)
  end.

Definition run_ops (ops : list canvas_op) (s : CanvasCore.t * Statics)
  : option (CanvasCore.t * Statics) :=
  for_each ops run_op s.

(** [gr'] is a well-formed grid with the dimensions of [gr]. *)
Definition grid_like (gr gr' : TileGrid.t) : Prop :=
  TileGrid.wf gr'
  ∧ TileGrid.width_ gr' = TileGrid.width_ gr
  ∧ TileGrid.height_ gr' = TileGrid.height_ gr.

(** A session: a second layer, a stroke with one stamp, undo, a resize and
    a reordering of the layers. *)
Definition session : list canvas_op :=
  [OpAddLayer "Top"; OpBeginStroke 0;
   OpKernel (Brush 0 [(10, 10)] F32.two F32.one white);
   OpEndStroke; OpUndo; OpRedo; OpResize 3 3; OpMoveLayer 0 1].

(** ** Kernel calls and concrete canvases *)

Definition is_nan (f : spec_float) : bool :=
  match f with S754_nan => true | _ => false end.

(** The layer a kernel call paints on. *)
Definition kernel_layer (k : kernel_call) : Z :=
  match k with
  | Brush layerIndex _ _ _ _ => layerIndex
  | Eraser layerIndex _ _ _ => layerIndex
  end.

(** A kernel call with the given layer, points, size and opacity. *)
Definition is_call (k : kernel_call) (layerIndex : Z) (points : list (Z * Z))
    (size opacity : spec_float) : Prop :=
  match k with
  | Brush i pts sz op _ => i = layerIndex ∧ pts = points ∧ sz = size ∧ op = opacity
  | Eraser i pts sz op => i = layerIndex ∧ pts = points ∧ sz = size ∧ op = opacity
  end.

(** A canvas with two layers. *)
Definition two_layers : CanvasCore.t :=
  CanvasCore.addLayer "Top" (CanvasCore.new 1 1).

(** One opaque white stamp of size 2 at (10, 10), and the same with
    size 1. *)
Definition white_dot : kernel_call := Brush 0 [(10, 10)] F32.two F32.one white.
Definition white_speck : kernel_call := Brush 0 [(10, 10)] F32.one F32.one white.

(** ** Pixels of allocated tiles *)

(** The pixel [(x, y)] lies in an allocated tile: the tests of [getTile] and
    of [Tile::at] both pass. *)
Definition addressable (gr : TileGrid.t) (x y : Z) : Prop :=
  grid_out_of_range gr x y = false.

(** The tile with one pixel assigned through the mutable accessor. *)
Definition tile_with (tl : Tile.t) (i : nat) (p : Pixel) : Tile.t :=
  Tile.set_pixels (<[i := p]> (Tile.pixels_ tl)) (Tile.setDirty true tl).

(** The grid with the pixel [(x, y)] of an allocated tile assigned. *)
Definition grid_with (gr : TileGrid.t) (x y : Z) (p : Pixel) : TileGrid.t :=
  TileGrid.set_tiles
    (alter (λ tl, tile_with tl (pixel_index x y) p) (tile_index gr x y)
           (TileGrid.tiles_ gr)) gr.

(** ** Tile matrices (tile_engine.cpp) and exact arithmetic *)

(** [cv::Mat Tile::toMat() const]: channel order B, G, R, A. *)
Definition Tile_toMat (tl : Tile.t) : option Mat.t :=
  rws ← mapM (λ y,
           mapM (λ x,
             p ← Tile.at_const tl x y;
             Some (Mat.vec (b p) (g p) (r p) (a p)))
           (seqZ 0 TILE_SIZE))
         (seqZ 0 TILE_SIZE);
  Some (Mat.mk TILE_SIZE TILE_SIZE rws).

(** [void Tile::fromMat(const cv::Mat& mat)]; [d] is the static dummy pixel
    of the mutable [Tile::at]. *)
Definition Tile_fromMat (tl : Tile.t) (d : Pixel) (mat : Mat.t)
  : option (Tile.t * Pixel) :=
  if negb (Mat.rows mat =? TILE_SIZE) || negb (Mat.cols mat =? TILE_SIZE)
  then Some (tl, d)
  else
    '(tl', d') ←
      for_range 0 TILE_SIZE (λ y,
        for_range 0 TILE_SIZE (λ x (s : Tile.t * Pixel),
          px ← Mat.at_ mat y x;
          let '(tl1, rf) := Tile.at_mut s.1 x y in
          Tile.store tl1 s.2 rf
            (mkPixel (Mat.c2 px) (Mat.c1 px) (Mat.c0 px) (Mat.c3 px))))
        (tl, d);
    Some (Tile.setDirty true tl', d').

(** No channel of [p + q] exceeds 65535; no channel of [p - q] is
    negative. *)
Definition sum_fits (p q : Pixel) : Prop :=
  r p + r q ≤ 65535 ∧ g p + g q ≤ 65535 ∧ b p + b q ≤ 65535 ∧ a p + a q ≤ 65535.
Definition diff_fits (p q : Pixel) : Prop :=
  r q ≤ r p ∧ g q ≤ g p ∧ b q ≤ b p ∧ a q ≤ a p.

(** ** Stamps *)

(** [static_cast<int>(size / 2.0f)], the radius both kernels compute. *)
Definition stamp_radius (size : spec_float) : option Z :=
  F32.to_int (F32.div size F32.two).

(** [(x, y)] lies in the square of side [2 * radius + 1] that the loops
    over [dy] and [dx] visit around [point]. *)
Definition in_stamp (radius : Z) (point : Z * Z) (x y : Z) : Prop :=
  point.1 - radius ≤ x ≤ point.1 + radius
  ∧ point.2 - radius ≤ y ≤ point.2 + radius.

(** Equal colour channels. *)
Definition same_rgb (p q : Pixel) : Prop := r q = r p ∧ g q = g p ∧ b q = b p.

(** ** Runs of the tile loop *)

(** The per-tile filter applied to the tiles of [l] one after the other,
    threading the process-wide state. *)
Fixpoint filter_tiles {G : Type} (kernel : Tile.t → G → option (Tile.t * G))
    (l : list Tile.t) (gs : G) : option (list Tile.t * G) :=
  match l with
  | [] => Some ([], gs)
  | tile :: l' =>
      '(tile', gs1) ← kernel tile gs;
      '(rest, gs2) ← filter_tiles kernel l' gs1;
      Some (tile' :: rest, gs2)
  end.

(** The answer of the [j]-th poll [cb && cb->cancelled && cb->cancelled()]
    (counting from 0). *)
Definition cancel_at (cb : option ProgressCallback) (j : nat) : bool :=
  match cb with
  | Some c => match cancelled c with Some answer => answer j | None => false end
  | None => false
  end.

(** Number of calls of [cancelled()] made while [n] tiles are processed. *)
Definition polls_after (cb : option ProgressCallback) (n : nat) : nat :=
  match cb with
  | Some c => match cancelled c with Some _ => n | None => 0%nat end
  | None => 0%nat
  end.

(** The fractions passed to [progress] while [n] tiles are processed. *)
Definition reports_after (cb : option ProgressCallback) (totalTiles : Z) (n : nat)
  : list spec_float :=
  match cb with
  | Some c =>
      if has_progress c
      then (λ j, F32.div (F32.of_int j) (F32.of_int totalTiles))
             <$> seqZ 1 (Z.of_nat n)
      else []
  | None => []
  end.

(** The tile counts the plugins compute from the image size. *)
Definition tiles_across (w : Z) : Z := Z.quot (w + TILE_SIZE - 1) TILE_SIZE.

(** A per-tile filter that paints the tile white and counts the tiles it
    has seen. *)
Definition count_tiles (tile : Tile.t) (n : Z) : option (Tile.t * Z) :=
  Some (Tile.fill white tile, n + 1).

(** ** Source alpha *)

(** [src.a / 65535.0f * opacity], the effective source alpha of
    [blendPixels]. *)
Definition src_alpha (src : Pixel) (opacity : spec_float) : spec_float :=
  F32.mul (F32.div (F32.of_int (a src)) F32.c65535) opacity.

(** A zero of either sign, or a NaN. *)
Definition zero_or_nan (f : spec_float) : bool :=
  match f with S754_zero _ | S754_nan => true | _ => false end.

(** ** The smudge square *)

(** [strength * std::max(0.0f, 1.0f - distance / radius)] at the offset
    [(dx, dy)] from the centre. *)
Definition smudge_alpha (strength : spec_float) (radius dx dy : Z) : spec_float :=
  F32.mul strength
    (F32.max F32.zero
       (F32.sub F32.one (F32.div (distance dx dy) (F32.of_int radius)))).

(** [(x, y)] lies in the square of side [2 * radius + 1] centred at
    [(x0, y0)]. *)
Definition in_square (x0 y0 radius x y : Z) : bool :=
  (x0 - radius <=? x) && (x <=? x0 + radius)
  && (y0 - radius <=? y) && (y <=? y0 + radius).

(** Position in the smudge buffer of the offset [(dx, dy)]. *)
Definition buffer_index (radius dx dy : Z) : Z :=
  (dy + radius) * (2 * radius + 1) + (dx + radius).

(** The buffer holds the pixels of the square, row by row. *)
Definition picked (tile : Tile.t) (x0 y0 radius n : Z) (s : list Pixel * Z)
  : Prop :=
  s.2 = n
  ∧ ∀ dx dy, - radius ≤ dx ≤ radius → - radius ≤ dy ≤ radius →
      buffer_index radius dx dy < n →
      s.1 !! Z.to_nat (buffer_index radius dx dy)
      = Tile.at_const tile (x0 + dx) (y0 + dy).

(** The tile while [apply_smudge] runs: the pixels of the square already
    visited are blended with themselves, all others are as in [tile]. *)
Definition smudged (tile : Tile.t) (x0 y0 radius : Z) (strength : spec_float)
    (n : Z) (s : Tile.t * Pixel * Z) : Prop :=
  s.2 = n ∧ Tile.wf s.1.1
  ∧ ∀ x y, Tile.out_of_range x y = false →
      Tile.at_const s.1.1 x y
      = if in_square x0 y0 radius x y
           && (buffer_index radius (x - x0) (y - y0) <? n)
        then p ← Tile.at_const tile x y;
             mix_pixel p (smudge_alpha strength radius (x - x0) (y - y0)) p
        else Tile.at_const tile x y.

(** ** Compositing (canvas_core.cpp) *)

(** The body of the loops over [py] and [px] of [Layer::renderTo] on one
    pair of tiles, and the loops.  Both tiles are held by [Tile&], so both
    are read with the mutable [Tile::at]; [d] is the static dummy pixel. *)
Definition blend_at (mode : BlendMode) (opacity : spec_float) (px py : Z)
    (s : Tile.t * Tile.t * Pixel) : option (Tile.t * Tile.t * Pixel) :=
  let '(destTile1, dest) := Tile.at_mut s.1.2 px py in
  let '(sourceTile1, src) := Tile.at_mut s.1.1 px py in
  destv ← Tile.load destTile1 s.2 dest;
  srcv ← Tile.load sourceTile1 s.2 src;
  p ← CanvasCore.blendPixels destv srcv mode opacity;
  '(destTile2, d') ← Tile.store destTile1 s.2 dest p;
  Some (sourceTile1, destTile2, d').

Definition render_tile (mode : BlendMode) (opacity : spec_float)
    (sourceTile destTile : Tile.t) (d : Pixel)
  : option (Tile.t * Tile.t * Pixel) :=
  for_range 0 TILE_SIZE (λ py,
    for_range 0 TILE_SIZE (λ px, blend_at mode opacity px py))
    (sourceTile, destTile, d).

(** The body of the loops over [ty] and [tx] of [Layer::renderTo]; the
    state is the layer's grid, the target and the statics.  [sourceTile] is
    always a tile of the layer's grid, [destTile] may be the static dummy
    tile of [getTile]. *)
Definition render_tile_at (mode : BlendMode) (opacity : spec_float)
    (x y tx ty : Z) (s : TileGrid.t * TileGrid.t * Statics)
  : option (TileGrid.t * TileGrid.t * Statics) :=
  let sr := TileGrid.getTile_mut s.1.1 tx ty in
  let dr := TileGrid.getTile_mut s.1.2 (tx + Z.quot x TILE_SIZE)
                                 (ty + Z.quot y TILE_SIZE) in
  sourceTile ← TileGrid.deref s.1.1 s.2 sr;
  destTile ← TileGrid.deref s.1.2 s.2 dr;
  '(sourceTile', destTile', d') ←
    render_tile mode opacity sourceTile destTile (dummy_pixel s.2);
  let '(px1, st1) := TileGrid.update s.1.1 s.2 sr sourceTile' in
  let '(target1, st2) := TileGrid.update s.1.2 st1 dr destTile' in
  Some (px1, target1, mkStatics d' (dummy_tile st2)).

(** [void Layer::renderTo(TileGrid& target, int x, int y)] for a [target]
    that is an object of its own: the layer's grid and the target are two
    values here, so a call that passes the layer's own grid, where
    [sourceTile] and [destTile] are the same tile, is outside this
    definition.  [applyAdjustments] has an empty body. *)
Definition Layer_renderTo (l : Layer.t) (target : TileGrid.t) (st : Statics)
    (x y : Z) : option (Layer.t * TileGrid.t * Statics) :=
  if negb (Layer.visible_ l) || F32.leb (Layer.opacity_ l) F32.zero
  then Some (l, target, st)
  else
    '(px, target', st') ←
      for_range 0 (TileGrid.tileCountY_ (Layer.pixels_ l)) (λ ty,
        for_range 0 (TileGrid.tileCountX_ (Layer.pixels_ l)) (λ tx,
          render_tile_at (Layer.blendMode_ l) (Layer.opacity_ l) x y tx ty))
        (Layer.pixels_ l, target, st);
    Some (Layer.set_pixels px l, target', st').

(** [void CanvasCore::renderTo(TileGrid& target)] for a [target] that is
    the grid of none of the canvas's layers, as the local [composite] of
    [getCompositedImage] is.  A call that passes a layer's own grid, which
    [target.clear()] would wipe before the layers are blended, is outside
    this definition; the properties below are stated for
    [getCompositedImage]. *)
Definition CanvasCore_renderTo (c : CanvasCore.t) (target : TileGrid.t)
    (st : Statics) : option (CanvasCore.t * TileGrid.t * Statics) :=
  '(ls, target', st') ←
    for_each (CanvasCore.layers_ c)
      (λ layer (s : list Layer.t * TileGrid.t * Statics),
        '(layer', target1, st1) ← Layer_renderTo layer s.1.2 s.2 0 0;
        Some (s.1.1 ++ [layer'], target1, st1))
      ([], TileGrid.clear target, st);
  Some (CanvasCore.set_layers ls c, target', st').

(** [cv::Mat CanvasCore::getCompositedImage()]; [composite] is a local grid
    of the canvas size. *)
Definition getCompositedImage (c : CanvasCore.t) (st : Statics)
  : option (CanvasCore.t * Statics * Mat.t) :=
  '(c', composite, st') ←
    CanvasCore_renderTo c
      (TileGrid.new (CanvasCore.width_ c) (CanvasCore.height_ c)) st;
  mat ← TileGrid.toMat composite;
  Some (c', st', mat).

(** *** Definitions used in the statements about compositing *)

(** A layer that [renderTo] skips. *)
Definition hidden (l : Layer.t) : bool :=
  negb (Layer.visible_ l) || F32.leb (Layer.opacity_ l) F32.zero.

(** What one layer does to the pixel of the target at [(x, y)]. *)
Definition render_pixel (l : Layer.t) (x y : Z) (dest : Pixel) : option Pixel :=
  if hidden l then Some dest
  else src ← TileGrid.getPixel_const (Layer.pixels_ l) x y;
       CanvasCore.blendPixels dest src (Layer.blendMode_ l) (Layer.opacity_ l).

(** The layers blended onto a pixel from bottom to top. *)
Definition composite_pixel (ls : list Layer.t) (x y : Z) (dest : Pixel)
  : option Pixel :=
  for_each ls (λ l, render_pixel l x y) dest.

(** The layer with every tile flagged dirty, unless it is hidden. *)
Definition touched (l : Layer.t) : Layer.t :=
  if hidden l then l
  else Layer.set_pixels
         (TileGrid.set_tiles
            (Tile.setDirty true <$> TileGrid.tiles_ (Layer.pixels_ l))
            (Layer.pixels_ l)) l.

(** Two grids with the same tile counts. *)
Definition same_tiling (gr gr' : TileGrid.t) : Prop :=
  TileGrid.tileCountX_ gr' = TileGrid.tileCountX_ gr
  ∧ TileGrid.tileCountY_ gr' = TileGrid.tileCountY_ gr.

(** The pixel of [D] at [(px, py)] blended with the pixel of [S] at the
    same place. *)
Definition blend_of (mode : BlendMode) (opacity : spec_float)
    (S D : Tile.t) (px py : Z) : option Pixel :=
  dest ← Tile.at_const D px py; src ← Tile.at_const S px py;
  CanvasCore.blendPixels dest src mode opacity.

(** [D'] is the tile [D] with every pixel blended with the pixel of [S] at
    the same place. *)
Definition blended (mode : BlendMode) (opacity : spec_float)
    (S D D' : Tile.t) : Prop :=
  Tile.wf D' ∧ Tile.dirty_ D' = true
  ∧ ∀ px py, Tile.out_of_range px py = false →
      Tile.at_const D' px py = blend_of mode opacity S D px py.

(** The pair of tiles and the dummy pixel after [n] pixels of
    [render_tile]. *)
Definition rendering (mode : BlendMode) (opacity : spec_float)
    (S D : Tile.t) (d : Pixel) (n : Z) (s : Tile.t * Tile.t * Pixel) : Prop :=
  s.2 = d
  ∧ Tile.pixels_ s.1.1 = Tile.pixels_ S
  ∧ Tile.x_ s.1.1 = Tile.x_ S ∧ Tile.y_ s.1.1 = Tile.y_ S
  ∧ (0 < n → Tile.dirty_ s.1.1 = true)
  ∧ Tile.wf s.1.2
  ∧ (0 < n → Tile.dirty_ s.1.2 = true)
  ∧ ∀ px py, Tile.out_of_range px py = false →
      Tile.at_const s.1.2 px py
      = if py * TILE_SIZE + px <? n
        then blend_of mode opacity S D px py
        else Tile.at_const D px py.

(** The two grids and the statics after [n] tiles of [Layer_renderTo]. *)
Definition rendering_tiles (mode : BlendMode) (opacity : spec_float)
    (G T : TileGrid.t) (st : Statics) (n : Z)
    (s : TileGrid.t * TileGrid.t * Statics) : Prop :=
  s.2 = st
  ∧ same_tiling G s.1.1 ∧ same_tiling T s.1.2
  ∧ TileGrid.width_ s.1.1 = TileGrid.width_ G
  ∧ TileGrid.height_ s.1.1 = TileGrid.height_ G
  ∧ TileGrid.width_ s.1.2 = TileGrid.width_ T
  ∧ TileGrid.height_ s.1.2 = TileGrid.height_ T
  ∧ length (TileGrid.tiles_ s.1.1) = length (TileGrid.tiles_ G)
  ∧ length (TileGrid.tiles_ s.1.2) = length (TileGrid.tiles_ T)
  ∧ Forall Tile.wf (TileGrid.tiles_ s.1.2)
  ∧ ∀ i : nat,
      if Z.of_nat i <? n
      then TileGrid.tiles_ s.1.1 !! i
           = Tile.setDirty true <$> TileGrid.tiles_ G !! i
           ∧ ∀ D, TileGrid.tiles_ T !! i = Some D →
               ∃ S D', TileGrid.tiles_ G !! i = Some S
                 ∧ TileGrid.tiles_ s.1.2 !! i = Some D'
                 ∧ blended mode opacity S D D'
      else TileGrid.tiles_ s.1.1 !! i = TileGrid.tiles_ G !! i
           ∧ TileGrid.tiles_ s.1.2 !! i = TileGrid.tiles_ T !! i.

(** A 1 x 1 canvas, with its background layer. *)
Definition canvas1 : CanvasCore.t := CanvasCore.new 1 1.

(** The same canvas with a second layer, filled with white, on top. *)
Definition white_layer : Layer.t :=
  Layer.set_pixels (TileGrid.fill white (TileGrid.new 1 1)) (Layer.new "Top" 1 1).
Definition white_on_black : CanvasCore.t :=
  CanvasCore.set_layers [Layer.new "Background" 1 1; white_layer] canvas1.


(** * Proofs *)

(** ** Row-major enumeration of a grid *)

Section GridEnum.
Context {A : Type}.
Implicit Types f : Z → Z → A.


Lemma bind_singleton_fmap {B} (h : B → A) (l : list B) :
  (x ← l; [h x]) = h <$> l.
Proof. induction l as [|x l IH]; [done|]. by rewrite bind_cons, IH. Qed.

Lemma grid_enum_S f (n : nat) m :
  grid_enum f (Z.of_nat (S n)) m
  = grid_enum f (Z.of_nat n) m ++ (f (Z.of_nat n) <$> seqZ 0 m).
Proof.
  unfold grid_enum. rewrite seqZ_S, bind_app. simpl.
  rewrite bind_singleton_fmap. by rewrite app_nil_r.
Qed.

Lemma length_grid_enum f (n : nat) m :
  length (grid_enum f (Z.of_nat n) m) = (n * Z.to_nat m)%nat.
Proof.
  induction n as [|n IH]; [done|].
  rewrite grid_enum_S, length_app, IH, length_fmap, length_seqZ. lia.
Qed.

Lemma grid_enum_lookup f (n m ty tx : nat) :
  (ty < n)%nat → (tx < m)%nat →
  grid_enum f (Z.of_nat n) (Z.of_nat m) !! (ty * m + tx)%nat
  = Some (f (Z.of_nat ty) (Z.of_nat tx)).
Proof.
  induction n as [|n IH]; intros Hty Htx; [lia|].
  rewrite grid_enum_S.
  destruct (decide (ty < n)%nat) as [Hlt|Hge].
  - rewrite lookup_app_l; [by apply IH|].
    rewrite length_grid_enum, Nat2Z.id. nia.
  - assert (ty = n) as -> by lia.
    rewrite lookup_app_r; rewrite length_grid_enum, Nat2Z.id; [|nia].
    replace (n * m + tx - n * m)%nat with tx by nia.
    rewrite list_lookup_fmap, lookup_seqZ_lt by lia. done.
Qed.

Lemma grid_enum_lookup_inv f (n m i : nat) (x : A) :
  grid_enum f (Z.of_nat n) (Z.of_nat m) !! i = Some x →
  (i < n * m)%nat ∧ x = f (Z.of_nat (i / m)) (Z.of_nat (i mod m)).
Proof.
  intros Hi. pose proof (lookup_lt_Some _ _ _ Hi) as Hlen.
  rewrite length_grid_enum, Nat2Z.id in Hlen. split; [done|].
  assert (m ≠ 0)%nat as Hm by nia.
  pose proof (Nat.div_mod_eq i m) as Hdm.
  pose proof (Nat.mod_upper_bound i m Hm) as Hmod.
  assert (i / m < n)%nat as Hdiv by (apply Nat.Div0.div_lt_upper_bound; nia).
  pose proof (grid_enum_lookup f n m (i / m) (i mod m) Hdiv Hmod) as Hl.
  replace (i / m * m + i mod m)%nat with i in Hl by lia.
  congruence.
Qed.
End GridEnum.

Section GridEnumZ.
Context {A : Type}.
Implicit Types f : Z → Z → A.

Lemma length_grid_enum_Z f n m :
  length (grid_enum f n m) = (Z.to_nat n * Z.to_nat m)%nat.
Proof.
  destruct (decide (n ≤ 0)) as [Hn|Hn].
  - unfold grid_enum. rewrite (seqZ_nil 0 n) by lia.
    by assert (Z.to_nat n = 0%nat) as -> by lia.
  - rewrite <- (Z2Nat.id n) at 1 by lia. apply length_grid_enum.
Qed.

Lemma grid_enum_lookup_Z f n m ty tx :
  0 ≤ ty < n → 0 ≤ tx < m →
  grid_enum f n m !! Z.to_nat (ty * m + tx) = Some (f ty tx).
Proof.
  intros Hty Htx.
  pose proof (grid_enum_lookup f (Z.to_nat n) (Z.to_nat m)
                (Z.to_nat ty) (Z.to_nat tx)) as Hl.
  rewrite !Z2Nat.id in Hl by lia.
  replace (Z.to_nat (ty * m + tx))
    with (Z.to_nat ty * Z.to_nat m + Z.to_nat tx)%nat by nia.
  apply Hl; lia.
Qed.

Lemma grid_enum_lookup_inv_Z f n m i x :
  grid_enum f n m !! i = Some x →
  ∃ ty tx, 0 ≤ ty < n ∧ 0 ≤ tx < m
           ∧ i = Z.to_nat (ty * m + tx) ∧ x = f ty tx.
Proof.
  intros Hi. pose proof (lookup_lt_Some _ _ _ Hi) as Hlen.
  rewrite length_grid_enum_Z in Hlen.
  assert (0 < n ∧ 0 < m) as [Hn Hm] by nia.
  pose proof (grid_enum_lookup_inv f (Z.to_nat n) (Z.to_nat m) i x) as Hinv.
  rewrite !Z2Nat.id in Hinv by lia.
  destruct (Hinv Hi) as [Hlt ->].
  assert (Z.to_nat m ≠ 0)%nat as Hm' by lia.
  pose proof (Nat.div_mod_eq i (Z.to_nat m)) as Hdm.
  pose proof (Nat.mod_upper_bound i (Z.to_nat m) Hm') as Hmod.
  assert (i / Z.to_nat m < Z.to_nat n)%nat as Hdiv
    by (apply Nat.Div0.div_lt_upper_bound; nia).
  exists (Z.of_nat (i / Z.to_nat m)), (Z.of_nat (i mod Z.to_nat m)).
  repeat split; try lia; nia.
Qed.
End GridEnumZ.

(** ** Tile grids: construction and copying *)

Lemma Tile_wf_new x y : Tile.wf (Tile.new x y).
Proof. unfold Tile.wf, Tile.new. cbn [Tile.pixels_]. apply length_replicate. Qed.

Lemma TileGrid_wf_new width height : TileGrid.wf (TileGrid.new width height).
Proof.
  unfold TileGrid.wf, TileGrid.new. cbn [TileGrid.tiles_ TileGrid.width_
    TileGrid.height_ TileGrid.tileCountX_ TileGrid.tileCountY_].
  repeat split.
  - apply (length_grid_enum_Z (λ ty tx, Tile.new (tx * TILE_SIZE) (ty * TILE_SIZE))).
  - apply Forall_lookup_2. intros i tl Hi.
    apply (grid_enum_lookup_inv_Z
             (λ ty tx, Tile.new (tx * TILE_SIZE) (ty * TILE_SIZE)))
      in Hi as (ty & tx & _ & _ & _ & ->).
    apply Tile_wf_new.
Qed.

Lemma getTile_const_in_range gr tileX tileY :
  0 ≤ tileX < TileGrid.tileCountX_ gr → 0 ≤ tileY < TileGrid.tileCountY_ gr →
  TileGrid.getTile_const gr tileX tileY
  = TileGrid.tiles_ gr !! Z.to_nat (tileY * TileGrid.tileCountX_ gr + tileX).
Proof.
  intros Hx Hy. unfold TileGrid.getTile_const, TileGrid.tile_out_of_range.
  replace (tileX <? 0) with false by lia.
  replace (tileX >=? TileGrid.tileCountX_ gr) with false by lia.
  replace (tileY <? 0) with false by lia.
  replace (tileY >=? TileGrid.tileCountY_ gr) with false by lia.
  done.
Qed.

Lemma TileGrid_copy_wf gr : TileGrid.wf gr → TileGrid.copy gr = Some gr.
Proof.
  intros (_ & _ & Hlen & _). unfold TileGrid.copy.
  assert (mapM (λ yx : Z * Z, TileGrid.getTile_const gr yx.2 yx.1)
            (grid_enum pair (TileGrid.tileCountY_ gr) (TileGrid.tileCountX_ gr))
          = Some (TileGrid.tiles_ gr)) as Hm.
  { apply mapM_Some_2, Forall2_same_length_lookup_2.
    - by rewrite length_grid_enum_Z.
    - intros i yx tl Hyx Htl.
      apply grid_enum_lookup_inv_Z in Hyx as (ty & tx & Hty & Htx & -> & ->).
      simpl. by rewrite getTile_const_in_range. }
  unfold grid_enum in Hm. rewrite Hm. simpl. by destruct gr.
Qed.

Lemma mapM_copy_wf (l : list TileGrid.t) :
  Forall TileGrid.wf l → mapM TileGrid.copy l = Some l.
Proof.
  intros Hl. apply mapM_Some_2, Forall2_same_length_lookup_2; [done|].
  intros i x y Hx Hy. assert (x = y) as -> by congruence.
  apply TileGrid_copy_wf. by eapply Forall_lookup_1.
Qed.

(** ** The undo history *)

Lemma to_size_t_small z : 0 ≤ z < 2 ^ 64 → to_size_t z = z.
Proof. intros Hz. unfold to_size_t. by apply Z.mod_small. Qed.

Lemma pushState_wf us snapshots description now :
  UndoStack.wf us → Forall TileGrid.wf snapshots →
  ∃ us', UndoStack.pushState us snapshots description now = Some us'
    ∧ UndoStack.wf us'
    ∧ UndoStack.maxStates_ us' = UndoStack.maxStates_ us
    ∧ 1 ≤ UndoStack.currentIndex_ us'
    ∧ UndoStack.currentIndex_ us' = UndoStack.size us'
    ∧ UndoStack.states_ us' !! Z.to_nat (UndoStack.currentIndex_ us' - 1)
      = Some (UndoStack.mkState snapshots description now).
Proof.
  intros (Hidx & Hsz & Hmax & Hst) Hsn.
  unfold UndoStack.pushState. rewrite mapM_copy_wf by done. simpl.
  eexists. split; [done|].
  set (states1 := if UndoStack.currentIndex_ us <? UndoStack.size us
                  then take (Z.to_nat (UndoStack.currentIndex_ us)) (UndoStack.states_ us)
                  else UndoStack.states_ us).
  unfold UndoStack.size in *.
  assert (states1 = take (Z.to_nat (UndoStack.currentIndex_ us)) (UndoStack.states_ us))
    as Hs1.
  { subst states1. case_match; [done|]. rewrite take_ge; [done|lia]. }
  assert (length states1 = Z.to_nat (UndoStack.currentIndex_ us)) as Hl1.
  { rewrite Hs1, length_take. lia. }
  assert (Forall (λ st, Forall TileGrid.wf (UndoStack.layerSnapshots st)) states1)
    as Hw1.
  { rewrite Hs1. by apply Forall_take. }
  clearbody states1.
  set (state := UndoStack.mkState snapshots description now).
  rewrite to_size_t_small by lia.
  unfold UndoStack.trimStates, UndoStack.size; simpl.
  rewrite length_app; simpl.
  destruct (Z.leb_spec (Z.of_nat (length states1 + 1)) (UndoStack.maxStates_ us));
    simpl.
  - unfold UndoStack.wf, UndoStack.size; simpl. rewrite length_app; simpl.
    split_and!; try lia.
    + apply Forall_app; split; [done|]. by repeat constructor.
    + rewrite lookup_app_r by lia.
      replace (Z.to_nat (UndoStack.currentIndex_ us + 1 - 1) - length states1)%nat
        with 0%nat by lia. done.
  - rewrite !to_size_t_small by lia.
    replace (UndoStack.currentIndex_ us + 1
             - (Z.of_nat (length states1 + 1) - UndoStack.maxStates_ us))
      with (UndoStack.maxStates_ us) by lia.
    unfold std_max. replace (0 <? UndoStack.maxStates_ us) with true by lia.
    unfold UndoStack.wf, UndoStack.size; simpl.
    rewrite length_drop, length_app; simpl.
    split_and!; try lia.
    + apply Forall_drop, Forall_app; split; [done|]. by repeat constructor.
    + rewrite lookup_drop, lookup_app_r by lia.
      match goal with |- [_] !! ?i = _ => replace i with 0%nat by lia end.
      done.
Qed.

Lemma popState_wf us :
  UndoStack.wf us → UndoStack.canUndo us = true →
  ∃ st, UndoStack.states_ us !! Z.to_nat (UndoStack.currentIndex_ us - 1) = Some st
    ∧ UndoStack.popState us
      = Some (UndoStack.mk (UndoStack.states_ us) (UndoStack.currentIndex_ us - 1)
                           (UndoStack.maxStates_ us),
              UndoStack.layerSnapshots st).
Proof.
  intros (Hidx & Hsz & Hmax & Hst) Hcan.
  unfold UndoStack.canUndo in Hcan. unfold UndoStack.size in *.
  destruct (lookup_lt_is_Some_2 (UndoStack.states_ us)
              (Z.to_nat (UndoStack.currentIndex_ us - 1))) as [st Hl]; [lia|].
  exists st. split; [done|].
  unfold UndoStack.popState, UndoStack.canUndo.
  replace (UndoStack.currentIndex_ us >? 0) with true by lia. simpl.
  rewrite to_size_t_small by lia. rewrite Hl. simpl.
  rewrite mapM_copy_wf; [done|].
  by eapply (Forall_lookup_1 _ _ _ _ Hst).
Qed.

Lemma redoState_wf us :
  UndoStack.wf us → UndoStack.states_ us ≠ [] → UndoStack.canRedo us = true →
  ∃ st, UndoStack.states_ us !! Z.to_nat (UndoStack.currentIndex_ us) = Some st
    ∧ UndoStack.redoState us
      = Some (UndoStack.mk (UndoStack.states_ us) (UndoStack.currentIndex_ us + 1)
                           (UndoStack.maxStates_ us),
              UndoStack.layerSnapshots st).
Proof.
  intros (Hidx & Hsz & Hmax & Hst) Hne Hcan.
  unfold UndoStack.canRedo in Hcan. unfold UndoStack.size in *.
  assert (0 < length (UndoStack.states_ us))%nat
    by (destruct (UndoStack.states_ us); [done|simpl; lia]).
  rewrite to_size_t_small in Hcan by lia.
  destruct (lookup_lt_is_Some_2 (UndoStack.states_ us)
              (Z.to_nat (UndoStack.currentIndex_ us))) as [st Hl]; [lia|].
  exists st. split; [done|].
  unfold UndoStack.redoState, UndoStack.canRedo, UndoStack.size.
  rewrite (to_size_t_small (_ - 1)) by lia.
  rewrite Hcan. simpl. rewrite Hl. simpl.
  rewrite to_size_t_small by lia.
  rewrite mapM_copy_wf; [done|].
  by eapply (Forall_lookup_1 _ _ _ _ Hst).
Qed.

(** ** Restoring snapshots into the layers *)

Lemma same_metadata_set_pixels px l : same_metadata l (Layer.set_pixels px l).
Proof. by destruct l. Qed.

Lemma same_metadata_refl l : same_metadata l l.
Proof. by repeat split. Qed.

Lemma restore_spec snapshots : ∀ ls,
  Forall TileGrid.wf snapshots →
  ∃ ls', CanvasCore.restore ls snapshots = Some ls' ∧ restored snapshots ls ls'.
Proof.
  induction snapshots as [|snap snapshots IH]; intros ls Hwf.
  - exists ls. split; [by destruct ls|]. split; [done|].
    intros i l Hl. exists l. repeat split; try done.
    rewrite Nat.min_0_r. lia.
  - destruct ls as [|layer ls].
    + exists []. split; [done|]. split; [done|]. intros i l Hl. done.
    + apply Forall_cons in Hwf as [Hs Hwf].
      destruct (IH ls Hwf) as (ls' & Hr & Hlen & Hrest).
      exists (Layer.set_pixels snap layer :: ls'). split.
      { simpl. unfold TileGrid.assign. rewrite TileGrid_copy_wf by done.
        simpl. by rewrite Hr. }
      split; [simpl; lia|].
      intros [|i] l Hl; simpl in Hl.
      * injection Hl as <-. eexists. split; [done|].
        split; [apply same_metadata_set_pixels|].
        split; [by destruct layer|]. simpl. lia.
      * destruct (Hrest i l Hl) as (l' & Hl' & Hm & Hlt & Hge).
        exists l'. split; [done|]. split; [done|].
        simpl. split; intros; [apply Hlt|apply Hge]; lia.
Qed.


(** ** Strokes leave the history and the layer list alone *)

Lemma stroke_frame c st layerIndex points size opacity paint c' st' :
  CanvasCore.stroke c st layerIndex points size opacity paint = Some (c', st') →
  CanvasCore.undoStack_ c' = CanvasCore.undoStack_ c
  ∧ length (CanvasCore.layers_ c') = length (CanvasCore.layers_ c).
Proof.
  unfold CanvasCore.stroke. intros H.
  case_match; [by simplify_eq|].
  destruct (CanvasCore.layers_ c !! Z.to_nat layerIndex) as [layer|]; [|done].
  simpl in H.
  destruct (for_each points _ _) as [[px st1]|]; [|done].
  simpl in H. simplify_eq. simpl. by rewrite length_insert.
Qed.

Lemma run_kernel_frame k s s' :
  run_kernel k s = Some s' →
  CanvasCore.undoStack_ s'.1 = CanvasCore.undoStack_ s.1
  ∧ length (CanvasCore.layers_ s'.1) = length (CanvasCore.layers_ s.1).
Proof.
  destruct s' as [c' st']. destruct k; simpl; apply stroke_frame.
Qed.

Lemma run_kernels_frame ks : ∀ s s',
  run_kernels ks s = Some s' →
  CanvasCore.undoStack_ s'.1 = CanvasCore.undoStack_ s.1
  ∧ length (CanvasCore.layers_ s'.1) = length (CanvasCore.layers_ s.1).
Proof.
  induction ks as [|k ks IH]; intros s s' H; unfold run_kernels in H; simpl in H.
  - by simplify_eq.
  -
    destruct (run_kernel k s) as [s1|] eqn:Hk; [|done]. simpl in H.
    apply run_kernel_frame in Hk as [Hu Hl].
    apply IH in H as [Hu' Hl']. split; congruence.
Qed.

Lemma layer_grids_wf c :
  CanvasCore.wf c → Forall TileGrid.wf (layer_grids c).
Proof. intros [Hl _]. unfold layer_grids. by apply Forall_fmap. Qed.

Lemma beginStroke_wf now c :
  CanvasCore.wf c →
  ∃ us, UndoStack.pushState (CanvasCore.undoStack_ c) (layer_grids c)
          "Brush Stroke" now = Some us
    ∧ CanvasCore.beginStroke now c = Some (CanvasCore.set_undoStack us c).
Proof.
  intros Hwf. pose proof (layer_grids_wf c Hwf) as Hg.
  destruct Hwf as [Hl Hu].
  destruct (pushState_wf _ _ "Brush Stroke" now Hu Hg) as (us & Hp & _).
  exists us. split; [done|]. unfold CanvasCore.beginStroke.
  assert (mapM (λ layer, TileGrid.copy (Layer.pixels_ layer)) (CanvasCore.layers_ c)
          = Some (layer_grids c)) as ->.
  { apply mapM_Some_2. unfold layer_grids. apply Forall2_fmap_r, Forall_Forall2_diag.
    eapply Forall_impl; [exact Hl|]. intros l Hlw. by apply TileGrid_copy_wf. }
  simpl. by rewrite Hp.
Qed.

Lemma restored_all snapshots ls ls' :
  length snapshots = length ls → restored snapshots ls ls' →
  Layer.pixels_ <$> ls' = snapshots.
Proof.
  intros Hlen [Hl Hr]. apply list_eq_same_length with (length ls).
  - done.
  - by rewrite length_fmap.
  - intros i x y Hi Hx Hy. rewrite list_lookup_fmap in Hx.
    destruct (lookup_lt_is_Some_2 ls i Hi) as [l Hli].
    destruct (Hr i l Hli) as (l' & Hl' & _ & Hlt & _).
    rewrite Hl' in Hx. simpl in Hx. rewrite Hlt in Hy by lia. congruence.
Qed.

Lemma undo_after_stroke c now ks st c2 st2 :
  CanvasCore.wf c → stroke_on c now ks st = Some (c2, st2) →
  ∃ c3, CanvasCore.undo c2 = Some c3
    ∧ layer_grids c3 = layer_grids c
    ∧ UndoStack.canRedo (CanvasCore.undoStack_ c3) = false.
Proof.
  intros Hwf Hrun. unfold stroke_on in Hrun.
  destruct (beginStroke_wf now c Hwf) as (us & Hpush & Hbegin).
  rewrite Hbegin in Hrun. simpl in Hrun.
  apply run_kernels_frame in Hrun as [Hus Hlen]. simpl in Hus, Hlen.
  destruct Hwf as [Hl Hu].
  destruct (pushState_wf _ _ "Brush Stroke" now Hu (layer_grids_wf c (conj Hl Hu)))
    as (us' & Hp & Hwf' & _ & Hone & Hsize & Hlast).
  assert (us' = us) as -> by congruence.
  assert (UndoStack.canUndo us = true) as Hcan
    by (unfold UndoStack.canUndo; lia).
  destruct (popState_wf us Hwf' Hcan) as (state & Hstate & Hpop).
  rewrite Hlast in Hstate. injection Hstate as <-. simpl in Hpop.
  unfold CanvasCore.undo. rewrite Hus, Hcan, Hpop. simpl.
  destruct (restore_spec (layer_grids c) (CanvasCore.layers_ c2)
              (layer_grids_wf c (conj Hl Hu))) as (ls' & Hr & Hres).
  rewrite Hr. simpl. eexists. split; [done|]. split.
  - unfold layer_grids at 1. simpl.
    apply (restored_all _ (CanvasCore.layers_ c2)); [|done].
    unfold layer_grids. rewrite length_fmap. done.
  - simpl. unfold UndoStack.canRedo, UndoStack.size. simpl.
    destruct Hwf' as (_ & Hsz & Hmax & _). unfold UndoStack.size in *.
    rewrite to_size_t_small by lia. lia.
Qed.

(** C1.  Undo reversibility: on a well-formed canvas, after [begin_stroke]
    and any sequence of brush and eraser kernel calls, [undo] is defined and
    leaves every layer with exactly the pixel grid it had just before
    [begin_stroke]. *)
Theorem undo_restores_pre_stroke
    (c : CanvasCore.t) (now : Z) (ks : list kernel_call) (st : Statics)
    (c2 : CanvasCore.t) (st2 : Statics)
    (Hwf : CanvasCore.wf c)
    (Hrun : stroke_on c now ks st = Some (c2, st2)) :
  ∃ c3, CanvasCore.undo c2 = Some c3 ∧ layer_grids c3 = layer_grids c.
Proof.
  destruct (undo_after_stroke c now ks st c2 st2 Hwf Hrun) as (c3 & Hu & Hg & _).
  by exists c3.
Qed.

(** The theorem at the white dot painted on the 128 x 128 canvas. *)
Lemma undo_restores_pre_stroke_witness :
  match stroke_on canvas128 0 dot_stroke Statics_init with
  | Some (c2, _) =>
      ∃ c3, CanvasCore.undo c2 = Some c3 ∧ layer_grids c3 = layer_grids canvas128
  | None => False
  end.
Proof.
  assert (bool_decide (is_Some (stroke_on canvas128 0 dot_stroke Statics_init)) = true)
    as Hdef by (vm_compute; reflexivity).
  destruct (stroke_on canvas128 0 dot_stroke Statics_init) as [[c2 st2]|] eqn:Hrun;
    [|discriminate Hdef].
  apply (undo_restores_pre_stroke canvas128 0 dot_stroke Statics_init c2 st2);
    [|exact Hrun].
  apply (bool_decide_eq_true_1 _). vm_compute. reflexivity.
Defined.

(** C3, as stated, fails: after the white dot is painted, the pixel
    (10, 10) is white; after [undo] then [redo] it is the default opaque
    black of the pre-stroke state. *)
Lemma redo_does_not_restore_stroke :
  (s ← stroke_on canvas128 0 dot_stroke Statics_init; pixel_at s.1 0 10 10)
  = Some white
  ∧ (s ← stroke_on canvas128 0 dot_stroke Statics_init;
     c3 ← CanvasCore.undo s.1; c4 ← CanvasCore.redo c3; pixel_at c4 0 10 10)
    = Some Pixel_default.
Proof. split; vm_compute; reflexivity. Qed.

(** C3, amended.  The history records pre-stroke snapshots only: after
    [begin_stroke], kernel calls and [undo], a following [redo] is defined
    and leaves every layer with its pre-stroke pixel grid. *)
Theorem redo_after_undo_keeps_pre_stroke
    (c : CanvasCore.t) (now : Z) (ks : list kernel_call) (st : Statics)
    (c2 : CanvasCore.t) (st2 : Statics)
    (Hwf : CanvasCore.wf c)
    (Hrun : stroke_on c now ks st = Some (c2, st2)) :
  ∃ c3 c4, CanvasCore.undo c2 = Some c3 ∧ CanvasCore.redo c3 = Some c4
    ∧ layer_grids c4 = layer_grids c.
Proof.
  destruct (undo_after_stroke c now ks st c2 st2 Hwf Hrun) as (c3 & Hu & Hg & Hr).
  exists c3, c3. split; [done|]. split; [|done].
  unfold CanvasCore.redo. by rewrite Hr.
Qed.

(** The theorem at the white dot painted on the 128 x 128 canvas. *)
Lemma redo_after_undo_keeps_pre_stroke_witness :
  match stroke_on canvas128 0 dot_stroke Statics_init with
  | Some (c2, _) =>
      ∃ c3 c4, CanvasCore.undo c2 = Some c3 ∧ CanvasCore.redo c3 = Some c4
        ∧ layer_grids c4 = layer_grids canvas128
  | None => False
  end.
Proof.
  assert (bool_decide (is_Some (stroke_on canvas128 0 dot_stroke Statics_init)) = true)
    as Hdef by (vm_compute; reflexivity).
  destruct (stroke_on canvas128 0 dot_stroke Statics_init) as [[c2 st2]|] eqn:Hrun;
    [|discriminate Hdef].
  apply (redo_after_undo_keeps_pre_stroke canvas128 0 dot_stroke Statics_init c2 st2);
    [|exact Hrun].
  apply (bool_decide_eq_true_1 _). vm_compute. reflexivity.
Defined.


Lemma history_snapshots_wf us snapshots :
  UndoStack.wf us → from_history us snapshots → Forall TileGrid.wf snapshots.
Proof.
  intros (_ & _ & _ & Hst) [->|(state & Hin & ->)]; [done|].
  by eapply (proj1 (Forall_forall _ _) Hst).
Qed.

(** C10.  Frame of [undo] and [redo]: the layer list keeps its length,
    order and metadata; a layer at an index below both the layer count and
    the snapshot count receives the snapshot grid of that index; every other
    layer keeps its pixel grid.  [undo] is always defined on a well-formed
    canvas, [redo] whenever the history is not empty. *)
Theorem undo_redo_frame (c : CanvasCore.t) (Hwf : CanvasCore.wf c) :
  (∃ cu su, CanvasCore.undo c = Some cu
     ∧ from_history (CanvasCore.undoStack_ c) su
     ∧ restored su (CanvasCore.layers_ c) (CanvasCore.layers_ cu))
  ∧ (∀ cr, CanvasCore.redo c = Some cr →
       ∃ sr, from_history (CanvasCore.undoStack_ c) sr
         ∧ restored sr (CanvasCore.layers_ c) (CanvasCore.layers_ cr))
  ∧ (UndoStack.states_ (CanvasCore.undoStack_ c) ≠ [] →
       is_Some (CanvasCore.redo c)).
Proof.
  destruct Hwf as [Hl Hu].
  assert (∀ ls, restored [] ls ls) as Hnop.
  { intros ls. split; [done|]. intros i l Hi. exists l.
    split_and!; [done|apply same_metadata_refl| |done].
    simpl. rewrite Nat.min_0_r. lia. }
  split_and!.
  - unfold CanvasCore.undo.
    destruct (UndoStack.canUndo (CanvasCore.undoStack_ c)) eqn:Hcan.
    + destruct (popState_wf _ Hu Hcan) as (state & Hstate & Hpop).
      rewrite Hpop. simpl.
      assert (from_history (CanvasCore.undoStack_ c) (UndoStack.layerSnapshots state))
        as Hfrom by (right; exists state; split; [by eapply list_elem_of_lookup_2|done]).
      destruct (restore_spec (UndoStack.layerSnapshots state) (CanvasCore.layers_ c)
                  (history_snapshots_wf _ _ Hu Hfrom)) as (ls' & Hr & Hres).
      rewrite Hr. simpl. by eexists _, _.
    + exists c, []. split_and!; [done|by left|apply Hnop].
  - intros cr. unfold CanvasCore.redo.
    destruct (UndoStack.canRedo (CanvasCore.undoStack_ c)) eqn:Hcan.
    + unfold UndoStack.redoState. rewrite Hcan. simpl.
      destruct (UndoStack.states_ (CanvasCore.undoStack_ c)
                  !! Z.to_nat (UndoStack.currentIndex_ (CanvasCore.undoStack_ c)))
        as [state|] eqn:Hstate; [|done]. simpl.
      assert (from_history (CanvasCore.undoStack_ c) (UndoStack.layerSnapshots state))
        as Hfrom by (right; exists state; split; [by eapply list_elem_of_lookup_2|done]).
      pose proof (history_snapshots_wf _ _ Hu Hfrom) as Hsw.
      rewrite mapM_copy_wf by done. simpl.
      destruct (restore_spec (UndoStack.layerSnapshots state) (CanvasCore.layers_ c) Hsw)
        as (ls' & Hr & Hres).
      rewrite Hr. simpl. intros [= <-]. by eexists.
    + intros [= <-]. exists []. split; [by left|apply Hnop].
  - intros Hne. unfold CanvasCore.redo.
    destruct (UndoStack.canRedo (CanvasCore.undoStack_ c)) eqn:Hcan; [|done].
    destruct (redoState_wf _ Hu Hne Hcan) as (state & Hstate & Hredo).
    rewrite Hredo. simpl.
    assert (from_history (CanvasCore.undoStack_ c) (UndoStack.layerSnapshots state))
      as Hfrom by (right; exists state; split; [by eapply list_elem_of_lookup_2|done]).
    destruct (restore_spec (UndoStack.layerSnapshots state) (CanvasCore.layers_ c)
                (history_snapshots_wf _ _ Hu Hfrom)) as (ls' & Hr & Hres).
    rewrite Hr. done.
Qed.


(** The theorem at a canvas with one recorded stroke and a layer added after
    the snapshot was taken. *)
Lemma undo_redo_frame_witness :
  (∃ cu su, CanvasCore.undo layered_canvas = Some cu
     ∧ from_history (CanvasCore.undoStack_ layered_canvas) su
     ∧ restored su (CanvasCore.layers_ layered_canvas) (CanvasCore.layers_ cu))
  ∧ (∀ cr, CanvasCore.redo layered_canvas = Some cr →
       ∃ sr, from_history (CanvasCore.undoStack_ layered_canvas) sr
         ∧ restored sr (CanvasCore.layers_ layered_canvas) (CanvasCore.layers_ cr))
  ∧ (UndoStack.states_ (CanvasCore.undoStack_ layered_canvas) ≠ [] →
       is_Some (CanvasCore.redo layered_canvas)).
Proof.
  apply (undo_redo_frame layered_canvas).
  apply (bool_decide_eq_true_1 _). vm_compute. reflexivity.
Defined.

(** ** The undo and redo tests *)
Lemma canUndo_spec us :
  UndoStack.canUndo us = true ↔ UndoStack.currentIndex_ us > 0.
Proof. unfold UndoStack.canUndo. lia. Qed.

Lemma canRedo_spec us :
  UndoStack.wf us →
  UndoStack.canRedo us = true
  ↔ UndoStack.size us = 0 ∨ UndoStack.currentIndex_ us < UndoStack.size us - 1.
Proof.
  intros (Hidx & Hsz & Hmax & _). unfold UndoStack.canRedo, to_size_t.
  destruct (decide (UndoStack.size us = 0)) as [->|Hne].
  - change ((0 - 1) mod 2 ^ 64) with (2 ^ 64 - 1). lia.
  - unfold UndoStack.size in *. rewrite Z.mod_small by lia. lia.
Qed.


(** C2.  [canRedo] compares against [states_.size() - 1] computed on
    [size_t]: on the empty history (index 0, size 0) it answers true, and on
    a history with one state that has been undone (index 0, size 1) it
    answers false although the state at the index is available. *)
Theorem canRedo_off_by_one :
  (UndoStack.currentIndex_ (UndoStack.new 50) = 0
   ∧ UndoStack.size (UndoStack.new 50) = 0
   ∧ UndoStack.canRedo (UndoStack.new 50) = true)
  ∧ ((λ us, (UndoStack.currentIndex_ us, UndoStack.size us, UndoStack.canRedo us))
       <$> one_undone) = Some (0, 1, false).
Proof. split; [split_and!|]; vm_compute; reflexivity. Qed.

(** ** Tile arithmetic *)
Lemma add_channel_wraps c d :
  0 ≤ c < 65536 → 0 ≤ d < 65536 → Tile.add_channel c d = (c + d) mod 65536.
Proof.
  intros Hc Hd. unfold Tile.add_channel, std_min, to_uint16.
  pose proof (Z.mod_pos_bound (c + d) 65536). case_match; lia.
Qed.

Lemma sub_channel_wraps c d :
  0 ≤ c < 65536 → 0 ≤ d < 65536 → Tile.sub_channel c d = (c - d) mod 65536.
Proof.
  intros Hc Hd. unfold Tile.sub_channel, std_max, to_uint16.
  pose proof (Z.mod_pos_bound (c - d) 65536). case_match; lia.
Qed.


(** C4.  The in-place operators do not saturate: 40000 + 40000 gives 14464
    and 10000 - 20000 gives 55536 in every channel, and scaling 40000 by 2
    converts an out-of-range float to [uint16_t], which has no defined
    result. *)
Theorem tile_arithmetic_wraps :
  (tl ← Tile.add_assign (flat_tile 40000) (flat_tile 40000); Tile.at_const tl 0 0)
  = Some (gray 14464)
  ∧ (tl ← Tile.sub_assign (flat_tile 10000) (flat_tile 20000); Tile.at_const tl 0 0)
    = Some (gray 55536)
  ∧ Tile.mul_assign (flat_tile 40000) F32.two = None.
Proof. split_and!; vm_compute; reflexivity. Qed.

(** ** Freshly constructed grids *)
Lemma Tile_at_const_new x0 y0 x y :
  Tile.at_const (Tile.new x0 y0) x y = Some Pixel_default.
Proof.
  unfold Tile.at_const. destruct (Tile.out_of_range x y) eqn:Hr; [done|].
  unfold Tile.out_of_range, TILE_SIZE in Hr.
  unfold Tile.new. cbn [Tile.pixels_]. apply lookup_replicate_2.
  unfold TILE_SIZE. lia.
Qed.

Lemma getPixel_const_new width height x y :
  TileGrid.getPixel_const (TileGrid.new width height) x y = Some Pixel_default.
Proof.
  unfold TileGrid.getPixel_const, TileGrid.getTile_const.
  destruct (TileGrid.tile_out_of_range _ _ _) eqn:Hr.
  - simpl. apply Tile_at_const_new.
  - unfold TileGrid.tile_out_of_range, TileGrid.new in Hr.
    cbn [TileGrid.tileCountX_ TileGrid.tileCountY_] in Hr.
    unfold TileGrid.new. cbn [TileGrid.tiles_ TileGrid.tileCountX_].
    pose proof (grid_enum_lookup_Z
                  (λ ty tx, Tile.new (tx * TILE_SIZE) (ty * TILE_SIZE))
                  (Z.quot (height + TILE_SIZE - 1) TILE_SIZE)
                  (Z.quot (width + TILE_SIZE - 1) TILE_SIZE)
                  (Z.quot y TILE_SIZE) (Z.quot x TILE_SIZE)) as Hl.
    unfold grid_enum in Hl. rewrite Hl by lia.
    simpl. apply Tile_at_const_new.
Qed.


(** C9.  [resize] to a size whose grid constructor does not throw (every
    size without a negative component is one) returns, and replaces every
    layer by a freshly constructed one that shares only the name: opacity
    1, blend mode Normal, visible, no clip mask, no adjustments, and a grid
    of the new size whose pixels all read as the default pixel. *)
Theorem resize_resets_layers (c : CanvasCore.t) (st : Statics) (width height : Z)
    (Hctor : reserve_throws width height = false) :
  run_op (OpResize width height) (c, st)
  = Some (CanvasCore.resize width height c, st)
  ∧ Forall2 (fresh_layer width height)
            (CanvasCore.layers_ c)
            (CanvasCore.layers_ (CanvasCore.resize width height c)).
Proof.
  split.
  { unfold run_op. cbn [fst snd]. by rewrite Hctor, andb_false_r. }
  unfold CanvasCore.resize. cbn [CanvasCore.layers_].
  apply Forall2_fmap_r, Forall_Forall2_diag, Forall_forall. intros l _.
  unfold fresh_layer, Layer.new.
  cbn [Layer.name_ Layer.opacity_ Layer.blendMode_ Layer.visible_ Layer.clipMask_
       Layer.adjustments_ Layer.pixels_].
  split_and!; try done. apply getPixel_const_new.
Qed.

(** The theorem at the 128 x 128 canvas, resized to 300 x 200. *)
Lemma resize_resets_layers_witness :
  reserve_throws 300 200 = false
  ∧ run_op (OpResize 300 200) (canvas128, Statics_init)
    = Some (CanvasCore.resize 300 200 canvas128, Statics_init)
  ∧ Forall2 (fresh_layer 300 200)
            (CanvasCore.layers_ canvas128)
            (CanvasCore.layers_ (CanvasCore.resize 300 200 canvas128)).
Proof.
  split; [reflexivity|].
  apply (resize_resets_layers canvas128 Statics_init 300 200). reflexivity.
Defined.

Lemma tile_in_range_lookup gr tileX tileY :
  TileGrid.wf gr → TileGrid.tile_out_of_range gr tileX tileY = false →
  ∃ tl, TileGrid.tiles_ gr !! Z.to_nat (tileY * TileGrid.tileCountX_ gr + tileX)
        = Some tl ∧ Tile.wf tl.
Proof.
  intros (_ & _ & Hlen & Hall) Hr. unfold TileGrid.tile_out_of_range in Hr.
  destruct (lookup_lt_is_Some_2 (TileGrid.tiles_ gr)
              (Z.to_nat (tileY * TileGrid.tileCountX_ gr + tileX))) as [tl Htl].
  { rewrite Hlen. nia. }
  exists tl. split; [done|]. by eapply Forall_lookup_1.
Qed.

Lemma stored_in_range (tl : Tile.t) x y :
  Tile.wf tl → Tile.out_of_range x y = false →
  is_Some (Tile.pixels_ tl !! Z.to_nat (y * TILE_SIZE + x)).
Proof.
  intros Hwf Hr. apply lookup_lt_is_Some_2. rewrite Hwf.
  unfold Tile.out_of_range, TILE_SIZE in *. lia.
Qed.

Lemma set_tiles_id gr i tl :
  TileGrid.tiles_ gr !! i = Some tl →
  TileGrid.set_tiles (<[i := tl]> (TileGrid.tiles_ gr)) gr = gr.
Proof.
  intros Hl. unfold TileGrid.set_tiles. rewrite list_insert_id by done.
  by destruct gr.
Qed.

(** C8, amended.  For a local index outside the tile, the const accessor
    reads the default pixel, and the mutable accessor hands out the
    process-wide dummy pixel: a read gives the dummy's current value and a
    write changes neither the tile's pixels nor its dirty flag.  For a grid,
    the bounds are those of the tile array: when the tile of [(x, y)] is
    outside the tile counts, or a remainder is negative, the const accessor
    reads the default pixel, and a write through the mutable accessor leaves
    the grid as it was; the value read through the mutable accessor is the
    default pixel as long as the statics are untouched. *)
Theorem out_of_range_access_is_absorbed
    (tl : Tile.t) (d p : Pixel) (lx ly : Z)
    (gr : TileGrid.t) (st : Statics) (x y : Z)
    (Hlocal : Tile.out_of_range lx ly = true)
    (Hwf : TileGrid.wf gr)
    (Hst : Tile.wf (dummy_tile st))
    (Hgrid : grid_out_of_range gr x y = true) :
  (Tile.at_const tl lx ly = Some Pixel_default
   ∧ Tile.at_mut tl lx ly = (tl, Tile.Dummy)
   ∧ Tile.load tl d Tile.Dummy = Some d
   ∧ Tile.store tl d Tile.Dummy p = Some (tl, p))
  ∧ (TileGrid.getPixel_const gr x y = Some Pixel_default
     ∧ ∃ st1 rf q st2,
         TileGrid.getPixel_mut gr st x y = Some (gr, st1, rf)
         ∧ TileGrid.load gr st1 rf = Some q
         ∧ (st = Statics_init → q = Pixel_default)
         ∧ TileGrid.store gr st1 rf p = Some (gr, st2)).
Proof.
  split.
  { unfold Tile.at_const, Tile.at_mut. rewrite Hlocal. done. }
  unfold grid_out_of_range in Hgrid.
  unfold TileGrid.getPixel_const, TileGrid.getPixel_mut, TileGrid.getTile_const,
    TileGrid.getTile_mut.
  set (tileX := Z.quot x TILE_SIZE) in *. set (tileY := Z.quot y TILE_SIZE) in *.
  set (localX := Z.rem x TILE_SIZE) in *. set (localY := Z.rem y TILE_SIZE) in *.
  destruct (TileGrid.tile_out_of_range gr tileX tileY) eqn:Hr.
  - (* the tile coordinates are out of range: the dummy tile *)
    split; [apply Tile_at_const_new|].
    cbn [TileGrid.deref mbind option_bind].
    unfold Tile.at_mut.
    destruct (Tile.out_of_range localX localY) eqn:Hl;
      cbn [TileGrid.update].
    + eexists _, _, _, _. split; [done|]. split; [done|].
      split; [by intros ->|]. done.
    + destruct (stored_in_range _ _ _ Hst Hl) as [q Hq].
      eexists _, _, q, _. split; [done|].
      unfold TileGrid.load, TileGrid.store.
      cbn [fst snd TileGrid.deref dummy_tile dummy_pixel mbind option_bind
           Tile.load Tile.store Tile.setDirty Tile.pixels_].
      rewrite Hq. split; [done|]. split; [|done].
      intros ->. unfold Statics_init in Hq. cbn [dummy_tile] in Hq.
      unfold Tile.new0, Tile.new in Hq. cbn [Tile.pixels_] in Hq.
      apply lookup_replicate in Hq as [-> _]. done.
  - (* the tile is in range, the local index is not *)
    simpl in Hgrid.
    destruct (tile_in_range_lookup gr tileX tileY Hwf Hr) as (tl0 & Htl0 & _).
    rewrite Htl0. cbn [TileGrid.deref mbind option_bind].
    rewrite Htl0. cbn [mbind option_bind].
    unfold Tile.at_const, Tile.at_mut. rewrite Hgrid.
    split; [done|]. cbn [TileGrid.update]. rewrite set_tiles_id by done.
    eexists _, _, _, _. split; [done|].
    unfold TileGrid.load, TileGrid.store.
    cbn [fst snd TileGrid.deref mbind option_bind Tile.load Tile.store
         TileGrid.update].
    rewrite Htl0. cbn [mbind option_bind TileGrid.update].
    rewrite set_tiles_id by done.
    split; [done|]. split; [by intros ->|done].
Qed.

(** The theorem at the local index (-1, 300) and at the pixel (-5, 700) of
    a 100 x 100 grid. *)
Lemma out_of_range_access_is_absorbed_witness :
  (Tile.at_const Tile.new0 (-1) 300 = Some Pixel_default
   ∧ Tile.at_mut Tile.new0 (-1) 300 = (Tile.new0, Tile.Dummy)
   ∧ Tile.load Tile.new0 Pixel_default Tile.Dummy = Some Pixel_default
   ∧ Tile.store Tile.new0 Pixel_default Tile.Dummy white = Some (Tile.new0, white))
  ∧ (TileGrid.getPixel_const grid100 (-5) 700 = Some Pixel_default
     ∧ ∃ st1 rf q st2,
         TileGrid.getPixel_mut grid100 Statics_init (-5) 700 = Some (grid100, st1, rf)
         ∧ TileGrid.load grid100 st1 rf = Some q
         ∧ (Statics_init = Statics_init → q = Pixel_default)
         ∧ TileGrid.store grid100 st1 rf white = Some (grid100, st2)).
Proof.
  apply out_of_range_access_is_absorbed.
  - reflexivity.
  - apply (bool_decide_eq_true_1 _). vm_compute. reflexivity.
  - apply (bool_decide_eq_true_1 _). vm_compute. reflexivity.
  - reflexivity.
Defined.


(** C8, as stated, fails.  On a 100 x 100 grid the pixel (200, 50) is
    outside the image but inside the only tile: a write there is stored in
    the grid's own tile, and after [fill] a read there is not the default
    pixel.  And a write at (-1, 50) lands in the shared dummy pixel, which
    the next read through the mutable accessor returns instead of the
    default. *)
Lemma out_of_range_access_reaches_pixels :
  (TileGrid.width_ grid100 <= 200
   ∧ ((s ← write_at grid100 Statics_init 200 50 white;
       TileGrid.getPixel_const s.1 200 50) = Some white)
   ∧ TileGrid.getPixel_const (TileGrid.fill white grid100) 200 50 = Some white)
  ∧ (s ← write_at grid100 Statics_init (-1) 50 white; read_at s.1 s.2 (-1) 50)
    = Some white.
Proof. split_and!; try (vm_compute; reflexivity). unfold grid100. simpl. lia. Qed.


Lemma in_image_tile gr x y :
  TileGrid.wf gr → in_image gr x y →
  Z.quot x TILE_SIZE = x / 256 ∧ Z.quot y TILE_SIZE = y / 256
  ∧ Z.rem x TILE_SIZE = x mod 256 ∧ Z.rem y TILE_SIZE = y mod 256
  ∧ 0 ≤ x / 256 < TileGrid.tileCountX_ gr
  ∧ 0 ≤ y / 256 < TileGrid.tileCountY_ gr.
Proof.
  intros (Hx & Hy & _) [Hix Hiy]. unfold TILE_SIZE in *.
  rewrite Hx, Hy.
  rewrite !Z.quot_div_nonneg, !Z.rem_mod_nonneg by lia.
  split_and!; try done; Z.div_mod_to_equations; lia.
Qed.

Lemma in_image_out_of_range gr x y :
  TileGrid.wf gr → in_image gr x y →
  TileGrid.tile_out_of_range gr (Z.quot x TILE_SIZE) (Z.quot y TILE_SIZE) = false
  ∧ Tile.out_of_range (Z.rem x TILE_SIZE) (Z.rem y TILE_SIZE) = false.
Proof.
  intros Hwf Hin.
  destruct (in_image_tile gr x y Hwf Hin) as (-> & -> & -> & -> & Hx & Hy).
  unfold TileGrid.tile_out_of_range, Tile.out_of_range, TILE_SIZE.
  pose proof (Z.mod_pos_bound x 256). pose proof (Z.mod_pos_bound y 256).
  split; lia.
Qed.


Lemma getPixel_const_image gr x y :
  TileGrid.wf gr → in_image gr x y →
  TileGrid.getPixel_const gr x y
  = (tl ← TileGrid.tiles_ gr !! tile_index gr x y;
     Tile.pixels_ tl !! pixel_index x y).
Proof.
  intros Hwf Hin.
  destruct (in_image_out_of_range gr x y Hwf Hin) as [Ht Hl].
  unfold TileGrid.getPixel_const, TileGrid.getTile_const, Tile.at_const.
  rewrite Ht. fold (tile_index gr x y).
  destruct (TileGrid.tiles_ gr !! tile_index gr x y) as [tl|]; [|done].
  simpl. rewrite Hl. done.
Qed.

Lemma getPixel_const_defined gr x y :
  TileGrid.wf gr → in_image gr x y → is_Some (TileGrid.getPixel_const gr x y).
Proof.
  intros Hwf Hin. rewrite getPixel_const_image by done.
  destruct (in_image_out_of_range gr x y Hwf Hin) as [Ht Hl].
  destruct (tile_in_range_lookup gr _ _ Hwf Ht) as (tl & Htl & Htw).
  unfold tile_index. rewrite Htl. simpl. by apply stored_in_range.
Qed.



(** ** Loop invariants *)

Lemma for_each_invariant {A S} (I : list A → S → Prop) (body : A → S → option S) :
  ∀ l done s,
    I done s →
    (∀ done' i s, (∃ rest, done ++ l = done' ++ i :: rest) → I done' s →
                  ∃ s', body i s = Some s' ∧ I (done' ++ [i]) s') →
    ∃ s', for_each l body s = Some s' ∧ I (done ++ l) s'.
Proof.
  induction l as [|i l IH]; intros done s HI Hstep.
  - exists s. by rewrite app_nil_r.
  - destruct (Hstep done i s) as (s1 & Hb & HI1); [by exists l|done|].
    destruct (IH (done ++ [i]) s1 HI1) as (s' & Hl & HI').
    { intros done' j s2 [rest Hrest] HI2. apply Hstep; [|done].
      exists rest. by rewrite <- Hrest, <- app_assoc. }
    exists s'. simpl. rewrite Hb. simpl. split; [done|].
    by rewrite <- app_assoc in HI'.
Qed.

Lemma for_range_invariant {S} (I : Z → S → Prop) lo hi
    (body : Z → S → option S) s :
  lo ≤ hi → I lo s →
  (∀ i s, lo ≤ i < hi → I i s → ∃ s', body i s = Some s' ∧ I (i + 1) s') →
  ∃ s', for_range lo hi body s = Some s' ∧ I hi s'.
Proof.
  intros Hle HI Hstep. unfold for_range.
  destruct (for_each_invariant
              (λ done s, I (lo + Z.of_nat (length done)) s) body
              (seqZ lo (hi - lo)) [] s) as (s' & Hs' & HI').
  - simpl. by rewrite Z.add_0_r.
  - intros done' i s0 [rest Hrest] HI0. simpl in Hrest.
    assert (seqZ lo (hi - lo) !! length done' = Some i) as Hi.
    { rewrite Hrest. by rewrite list_lookup_middle. }
    apply lookup_seqZ in Hi as [-> Hlt].
    destruct (Hstep (lo + Z.of_nat (length done')) s0) as (s1 & Hb & HI1);
      [lia|done|].
    exists s1. split; [done|]. rewrite length_app. simpl.
    by replace (lo + Z.of_nat (length done' + 1))
      with (lo + Z.of_nat (length done') + 1) by lia.
  - exists s'. split; [done|]. simpl in HI'. rewrite length_seqZ in HI'.
    by replace (lo + Z.of_nat (Z.to_nat (hi - lo))) with hi in HI' by lia.
Qed.

(** ** Matrix conversion *)

Lemma toMat_spec gr :
  TileGrid.wf gr →
  ∃ m, TileGrid.toMat gr = Some m
    ∧ Mat.rows m = TileGrid.height_ gr
    ∧ Mat.cols m = TileGrid.width_ gr
    ∧ ∀ x y p, in_image gr x y → TileGrid.getPixel_const gr x y = Some p →
        Mat.at_ m y x = Some (to_vec p).
Proof.
  intros Hwf.
  set (px := λ x y, default Pixel_default (TileGrid.getPixel_const gr x y)).
  set (rws := (λ y, (λ x, to_vec (px x y)) <$> seqZ 0 (TileGrid.width_ gr))
                <$> seqZ 0 (TileGrid.height_ gr)).
  exists (Mat.mk (TileGrid.height_ gr) (TileGrid.width_ gr) rws).
  split_and!; try done.
  - unfold TileGrid.toMat.
    assert (mapM (λ y, mapM (λ x, p ← TileGrid.getPixel_const gr x y;
                                  Some (Mat.vec (b p) (g p) (r p) (a p)))
                         (seqZ 0 (TileGrid.width_ gr)))
                 (seqZ 0 (TileGrid.height_ gr)) = Some rws) as ->; [|done].
    apply mapM_Some_2, Forall2_fmap_r, Forall_Forall2_diag, Forall_forall.
    intros y Hy%elem_of_seqZ.
    apply mapM_Some_2, Forall2_fmap_r, Forall_Forall2_diag, Forall_forall.
    intros x Hx%elem_of_seqZ.
    destruct (getPixel_const_defined gr x y Hwf) as [p Hp];
      [split; lia|].
    unfold compose, px. rewrite Hp. done.
  - intros x y p [Hx Hy] Hp. unfold Mat.at_. cbn [Mat.data].
    replace (y <? 0) with false by lia. replace (x <? 0) with false by lia.
    cbn [orb]. unfold rws.
    rewrite list_lookup_fmap, lookup_seqZ_lt by lia. cbn [fmap option_fmap option_map
      mbind option_bind].
    rewrite list_lookup_fmap, lookup_seqZ_lt by lia. cbn [fmap option_fmap option_map].
    unfold px. rewrite !Z.add_0_l, !Z2Nat.id by lia. by rewrite Hp.
Qed.




Lemma tile_count_pos w : 0 < w → 0 < Z.quot (w + TILE_SIZE - 1) TILE_SIZE.
Proof.
  intros Hw. unfold TILE_SIZE.
  rewrite Z.quot_div_nonneg by lia.
  apply Z.div_str_pos. lia.
Qed.







(** The rounding of the float operations *)

Lemma digits2_pos_lower p : 2 ^ (Z.pos (digits2_pos p) - 1) ≤ Z.pos p.
Proof.
  induction p as [p IH|p IH|]; simpl digits2_pos; [| |done].
  - rewrite Pos2Z.inj_succ.
    replace (Z.succ (Z.pos (digits2_pos p)) - 1)
      with (Z.succ (Z.pos (digits2_pos p) - 1)) by lia.
    rewrite Z.pow_succ_r by lia. lia.
  - rewrite Pos2Z.inj_succ.
    replace (Z.succ (Z.pos (digits2_pos p)) - 1)
      with (Z.succ (Z.pos (digits2_pos p) - 1)) by lia.
    rewrite Z.pow_succ_r by lia. lia.
Qed.

Lemma Zdigits2_upper m k : 0 ≤ m < 2 ^ k → 0 ≤ k → 0 ≤ Zdigits2 m ≤ k.
Proof.
  intros Hm Hk. destruct m as [|p|p]; simpl; [lia| |lia].
  pose proof (digits2_pos_lower p) as Hl.
  split; [lia|].
  destruct (decide (Z.pos (digits2_pos p) ≤ k)) as [|Hgt]; [done|].
  assert (2 ^ k ≤ 2 ^ (Z.pos (digits2_pos p) - 1))
    by (apply Z.pow_le_mono_r; lia).
  lia.
Qed.

Lemma iter_pos_invariant {A} (f : A → A) (P : A → Prop) :
  (∀ x, P x → P (f x)) → ∀ n x, P x → P (SpecFloat.iter_pos f n x).
Proof.
  intros Hf. induction n as [n IH|n IH|]; intros x Hx; simpl; auto.
Qed.

Lemma shr_1_bound M mrs :
  0 ≤ shr_m mrs ≤ M → 0 ≤ shr_m (shr_1 mrs) ≤ M.
Proof.
  destruct mrs as [m rb sb]. simpl.
  destruct m as [|[p|p|]|[p|p|]]; simpl; lia.
Qed.

Lemma shr_fexp_bound prec emax m e l mrs e' :
  0 ≤ m → shr_fexp prec emax m e l = (mrs, e') →
  0 ≤ shr_m mrs ≤ m ∧ e' ≤ Z.max e (fexp prec emax (Zdigits2 m + e)).
Proof.
  intros Hm. unfold shr_fexp, shr.
  assert (shr_m (shr_record_of_loc m l) = m) as Hrec
    by (by destruct l as [|[]]).
  destruct (fexp prec emax (Zdigits2 m + e) - e) as [|p|p] eqn:Hn;
    intros [= <- <-].
  - rewrite Hrec. lia.
  - split; [|lia].
    apply (iter_pos_invariant shr_1 (λ r, 0 ≤ shr_m r ≤ m)).
    + intros x. apply shr_1_bound.
    + rewrite Hrec. lia.
  - rewrite Hrec. lia.
Qed.

Lemma round_nearest_even_bound m l :
  0 ≤ m → 0 ≤ round_nearest_even m l ≤ m + 1.
Proof.
  intros Hm. unfold round_nearest_even.
  destruct l as [|[]]; try lia. destruct (Z.even m); lia.
Qed.

(** The product of two small floats is a finite non-negative float or
    zero: it neither overflows nor is a NaN. *)
Lemma mul_small f1 f2 :
  small_float f1 = true → small_float f2 = true →
  match F32.mul f1 f2 with
  | S754_zero false | S754_finite false _ _ => True
  | _ => False
  end.
Proof.
  destruct f1 as [[]|[]| |[] m1 e1]; try done;
    destruct f2 as [[]|[]| |[] m2 e2]; try done; intros H1 H2; simpl in *.
  apply andb_prop in H1 as [Hm1 He1]. apply andb_prop in H2 as [Hm2 He2].
  unfold F32.mul, SFmul, xorb, binary_round_aux.
  destruct (shr_fexp F32.prec F32.emax (Z.pos (m1 * m2)) (e1 + e2) loc_Exact)
    as [mrs1 x1] eqn:Hs1.
  destruct (shr_fexp F32.prec F32.emax
              (round_nearest_even (shr_m mrs1) (loc_of_shr_record mrs1)) x1 loc_Exact)
    as [mrs2 x2] eqn:Hs2.
  assert (0 ≤ Z.pos (m1 * m2) < 2 ^ 48) as Hprod.
  { rewrite Pos2Z.inj_mul. change (2 ^ 48) with (2 ^ 24 * 2 ^ 24). nia. }
  apply shr_fexp_bound in Hs1 as [Hb1 Hx1]; [|lia].
  pose proof (round_nearest_even_bound (shr_m mrs1) (loc_of_shr_record mrs1)) as Hr.
  apply shr_fexp_bound in Hs2 as [Hb2 Hx2]; [|lia].
  pose proof (Zdigits2_upper (Z.pos (m1 * m2)) 48 Hprod) as Hd1.
  assert (0 ≤ round_nearest_even (shr_m mrs1) (loc_of_shr_record mrs1) < 2 ^ 49)
    as Hr49 by (change (2 ^ 49) with (2 * 2 ^ 48); lia).
  pose proof (Zdigits2_upper _ 49 Hr49) as Hd2.
  unfold fexp, emin, F32.prec, F32.emax in *.
  destruct (shr_m mrs2) as [|p|p]; [done| |lia].
  replace (x2 <=? 128 - 24) with true by lia. done.
Qed.



Lemma check_from_spec p x0 n :
  (check_from p x0 n).1 = x0 + Z.pos n
  ∧ ((check_from p x0 n).2 = true → ∀ x, x0 ≤ x < x0 + Z.pos n → p x = true).
Proof.
  unfold check_from. induction n as [|n IH] using Pos.peano_ind.
  - simpl. split; [done|]. intros Hp x Hx.
    assert (x = x0) as -> by lia. done.
  - rewrite Pos.iter_succ. destruct IH as [IH1 IH2].
    destruct (Pos.iter _ (x0, true) n) as [x1 b1]. simpl in *. subst x1.
    split; [lia|]. intros [-> Hlast]%andb_prop x Hx.
    destruct (decide (x = x0 + Z.pos n)) as [->|Hne]; [done|].
    apply IH2; [done|lia].
Qed.

Lemma check_channels p :
  (check_from p 0 65536).2 = true → ∀ x, 0 ≤ x < 65536 → p x = true.
Proof.
  intros Hall x Hx. apply (proj2 (check_from_spec p 0 65536) Hall). lia.
Qed.

(** Adding zero, multiplying by one and dividing by one leave a unit float
    as it is. *)
Lemma unit_float_small f : unit_float f = true → small_float f = true.
Proof.
  destruct f as [[]|[]| |[] m e]; try done. unfold unit_float, small_float.
  intros [[[_ Hm]%andb_prop _]%andb_prop He]%andb_prop.
  by rewrite Hm, He.
Qed.

Lemma add_zero_unit f : unit_float f = true → F32.add f F32.zero = f.
Proof. by destruct f as [[]|[]| |[] m e]. Qed.

Lemma Z_div_eucl_exact a b : 0 < b → Z.div_eucl (a * b) b = (a, 0).
Proof.
  intros Hb. pose proof (Z.div_mul a b) as Hd. pose proof (Z.mod_mul a b) as Hm.
  unfold Z.div, Z.modulo in Hd, Hm.
  destruct (Z.div_eucl (a * b) b) as [q rm]. f_equal; [apply Hd|apply Hm]; lia.
Qed.

Lemma mul_one_unit f : unit_float f = true → F32.mul f F32.one = f.
Proof.
  destruct f as [[]|[]| |[] m e]; try done. unfold unit_float.
  intros [[[Hd%Pos.eqb_eq Hm]%andb_prop Hlo]%andb_prop Hhi]%andb_prop.
  change F32.one with (S754_finite false 8388608 (-23)).
  unfold F32.mul, SFmul, xorb. rewrite Pos.mul_comm.
  change (8388608 * m)%positive
    with (m~0~0~0~0~0~0~0~0~0~0~0~0~0~0~0~0~0~0~0~0~0~0~0)%positive.
  unfold binary_round_aux, shr_fexp, Zdigits2.
  assert (digits2_pos (m~0~0~0~0~0~0~0~0~0~0~0~0~0~0~0~0~0~0~0~0~0~0~0) = 47%positive)
    as -> by (cbn [digits2_pos]; rewrite Hd; reflexivity).
  assert (fexp F32.prec F32.emax (Z.pos 47 + (e + -23)) - (e + -23) = 23) as ->
    by (unfold fexp, emin, F32.prec, F32.emax; lia).
  cbn [shr shr_record_of_loc SpecFloat.iter_pos shr_1 shr_m shr_r shr_s
       loc_of_shr_record round_nearest_even fst snd orb].
  rewrite Hd.
  assert (fexp F32.prec F32.emax (Z.pos 24 + (e + -23 + 23)) - (e + -23 + 23) = 0)
    as -> by (unfold fexp, emin, F32.prec, F32.emax; lia).
  cbn [shr shr_m].
  replace (e + -23 + 23 <=? F32.emax - F32.prec) with true
    by (unfold F32.prec, F32.emax; lia).
  f_equal. lia.
Qed.

Lemma div_one_unit f : unit_float f = true → F32.div f F32.one = f.
Proof.
  destruct f as [[]|[]| |[] m e]; try done. unfold unit_float.
  intros [[[Hd%Pos.eqb_eq Hm]%andb_prop Hlo]%andb_prop Hhi]%andb_prop.
  change F32.one with (S754_finite false 8388608 (-23)).
  unfold F32.div, SFdiv, xorb, SFdiv_core_binary, Zdigits2.
  rewrite Hd. change (digits2_pos 8388608) with 24%positive.
  assert (Z.min (fexp F32.prec F32.emax (Z.pos 24 + e - (Z.pos 24 + -23))) (e - -23)
          = e - 1) as ->
    by (unfold fexp, emin, F32.prec, F32.emax; lia).
  replace (e - -23 - (e - 1)) with 24 by lia.
  change (Z.shiftl (Z.pos m) 24)
    with (Z.pos (m~0~0~0~0~0~0~0~0~0~0~0~0~0~0~0~0~0~0~0~0~0~0~0~0)).
  replace (Z.pos (m~0~0~0~0~0~0~0~0~0~0~0~0~0~0~0~0~0~0~0~0~0~0~0~0))
    with (Z.pos m~0 * Z.pos 8388608) by lia.
  rewrite Z_div_eucl_exact by done.
  change (new_location (Z.pos 8388608) 0) with loc_Exact.
  unfold binary_round_aux, shr_fexp, Zdigits2. cbn [digits2_pos]. rewrite Hd.
  assert (fexp F32.prec F32.emax (Z.pos (Pos.succ 24) + (e - 1)) - (e - 1) = 1) as ->
    by (unfold fexp, emin, F32.prec, F32.emax; lia).
  cbn [shr shr_record_of_loc SpecFloat.iter_pos shr_1 shr_m shr_r shr_s
       loc_of_shr_record round_nearest_even fst snd orb].
  rewrite Hd.
  assert (fexp F32.prec F32.emax (Z.pos 24 + (e - 1 + 1)) - (e - 1 + 1) = 0)
    as -> by (unfold fexp, emin, F32.prec, F32.emax; lia).
  cbn [shr shr_m].
  replace (e - 1 + 1 <=? F32.emax - F32.prec) with true
    by (unfold F32.prec, F32.emax; lia).
  f_equal. lia.
Qed.

(** All 65536 channel values, by evaluation. *)
Lemma all_channels_ok : (check_from channel_ok 0 65536).2 = true.
Proof. vm_compute. reflexivity. Qed.

Lemma channel_ok_spec x :
  0 ≤ x < 65536 →
  unit_float (unit_of x) = true
  ∧ F32.to_uint16 (F32.mul (unit_of x) F32.c65535) = Some x.
Proof.
  intros Hx.
  pose proof (check_channels _ all_channels_ok x Hx) as H.
  unfold channel_ok in H. by rewrite andb_true_iff, bool_decide_eq_true in H.
Qed.

Lemma mul_zero_small f :
  match f with
  | S754_zero false | S754_finite false _ _ => True
  | _ => False
  end → F32.mul f F32.zero = F32.zero.
Proof. by destruct f as [[]|[]| |[] m e]. Qed.

Lemma small_float_finite f :
  small_float f = true →
  match f with
  | S754_zero false | S754_finite false _ _ => True
  | _ => False
  end.
Proof. by destruct f as [[]|[]| |[] m e]. Qed.

(** C6.  Normal blend of an opaque source at opacity 1 replaces the
    destination by the source, exactly, for all channel values. *)
Theorem normal_blend_replaces (D S : Pixel)
    (HD : Pixel_ok D) (HS : Pixel_ok S) (Ha : a S = 65535) :
  CanvasCore.blendPixels D S Normal F32.one = Some S.
Proof.
  destruct HD as (HDr & HDg & HDb & HDa). destruct HS as (HSr & HSg & HSb & _).
  destruct (channel_ok_spec _ HDr) as [Hdr%unit_float_small _].
  destruct (channel_ok_spec _ HDg) as [Hdg%unit_float_small _].
  destruct (channel_ok_spec _ HDb) as [Hdb%unit_float_small _].
  destruct (channel_ok_spec _ HDa) as [Hda%unit_float_small _].
  destruct (channel_ok_spec _ HSr) as [Hur Hsr].
  destruct (channel_ok_spec _ HSg) as [Hug Hsg].
  destruct (channel_ok_spec _ HSb) as [Hub Hsb].
  unfold unit_of in *.
  assert (F32.mul (F32.div (F32.of_int 65535) F32.c65535) F32.one = F32.one)
    as Hsa by (vm_compute; reflexivity).
  assert (F32.sub F32.one F32.one = F32.zero) as H11 by (vm_compute; reflexivity).
  assert (F32.add F32.one F32.zero = F32.one) as H10 by (vm_compute; reflexivity).
  assert (F32.leb F32.one F32.zero = false) as Hle by (vm_compute; reflexivity).
  assert (F32.ltb F32.zero F32.one = true) as Hlt by (vm_compute; reflexivity).
  assert (F32.to_uint16 (F32.mul F32.one F32.c65535) = Some 65535)
    as Halpha by (vm_compute; reflexivity).
  unfold CanvasCore.blendPixels, CanvasCore.blend_channel.
  cbn [CanvasCore.blend_fn]. rewrite Ha, Hsa, Hle, H11.
  rewrite (mul_zero_small _ (small_float_finite _ Hda)), H10, Hlt.
  rewrite (mul_zero_small _ (mul_small _ _ Hdr Hda)),
    (mul_zero_small _ (mul_small _ _ Hdg Hda)),
    (mul_zero_small _ (mul_small _ _ Hdb Hda)).
  rewrite !mul_one_unit, !add_zero_unit, !div_one_unit by done.
  rewrite Hsr, Hsg, Hsb, Halpha. simpl.
  destruct S. simpl in Ha. by subst.
Qed.

(** The theorem at one pair of pixels. *)
Lemma normal_blend_replaces_witness :
  CanvasCore.blendPixels (mkPixel 1 2 3 4) (mkPixel 100 200 300 65535) Normal F32.one
  = Some (mkPixel 100 200 300 65535).
Proof.
  apply normal_blend_replaces; [unfold Pixel_ok; simpl; lia..|reflexivity].
Defined.


(** * Further properties *)

(** ** Histories *)

(** Boolean comparisons decided by linear arithmetic. *)
Ltac bool_lia :=
  lazymatch goal with
  | |- true = _ => symmetry
  | |- false = _ => symmetry
  | _ => idtac
  end;
  rewrite ?Z.geb_leb, ?Z.gtb_ltb;
  first [apply Z.leb_le; lia | apply Z.ltb_lt; lia
        |apply Z.leb_gt; lia | apply Z.ltb_ge; lia].

Lemma pushState_states us snapshots description now :
  UndoStack.wf us → Forall TileGrid.wf snapshots →
  UndoStack.pushState us snapshots description now
  = Some (UndoStack.mk
            (drop (Z.to_nat (UndoStack.currentIndex_ us + 1 - UndoStack.maxStates_ us))
                  (take (Z.to_nat (UndoStack.currentIndex_ us)) (UndoStack.states_ us)
                   ++ [UndoStack.mkState snapshots description now]))
            (Z.min (UndoStack.currentIndex_ us + 1) (UndoStack.maxStates_ us))
            (UndoStack.maxStates_ us)).
Proof.
  intros (Hidx & Hsz & Hmax & Hst) Hsn.
  unfold UndoStack.pushState. rewrite mapM_copy_wf by done. simpl.
  set (states1 := if UndoStack.currentIndex_ us <? UndoStack.size us
                  then take (Z.to_nat (UndoStack.currentIndex_ us)) (UndoStack.states_ us)
                  else UndoStack.states_ us).
  unfold UndoStack.size in *.
  assert (states1 = take (Z.to_nat (UndoStack.currentIndex_ us)) (UndoStack.states_ us))
    as Hs1.
  { subst states1. case_match; [done|]. rewrite take_ge; [done|lia]. }
  rewrite Hs1. clear Hs1 states1.
  set (states1 := take (Z.to_nat (UndoStack.currentIndex_ us)) (UndoStack.states_ us)).
  assert (length states1 = Z.to_nat (UndoStack.currentIndex_ us)) as Hl1.
  { unfold states1. rewrite length_take. lia. }
  clearbody states1.
  rewrite to_size_t_small by lia.
  unfold UndoStack.trimStates, UndoStack.size; simpl.
  rewrite length_app; simpl.
  destruct (Z.leb_spec (Z.of_nat (length states1 + 1)) (UndoStack.maxStates_ us));
    simpl.
  - replace (Z.to_nat (UndoStack.currentIndex_ us + 1 - UndoStack.maxStates_ us))
      with 0%nat by lia.
    rewrite drop_0, Z.min_l by lia. done.
  - rewrite !to_size_t_small by lia.
    replace (UndoStack.currentIndex_ us + 1
             - (Z.of_nat (length states1 + 1) - UndoStack.maxStates_ us))
      with (UndoStack.maxStates_ us) by lia.
    unfold std_max. replace (0 <? UndoStack.maxStates_ us) with true by lia.
    rewrite Z.min_r by lia. do 3 f_equal; lia.
Qed.

(** X8.  [pushState] on a well-formed history succeeds and makes undo
    possible; the undo description is then the pushed description, and
    [popState] hands back exactly the pushed snapshots, keeps the states
    and moves the index one step down. *)
Theorem push_then_pop_returns_snapshots
    (us : UndoStack.t) (snapshots : list TileGrid.t) (description : string) (now : Z)
    (Hwf : UndoStack.wf us) (Hsnap : Forall TileGrid.wf snapshots) :
  ∃ us1 us2,
    UndoStack.pushState us snapshots description now = Some us1
    ∧ UndoStack.canUndo us1 = true
    ∧ UndoStack.getUndoDescription us1 = Some description
    ∧ UndoStack.popState us1 = Some (us2, snapshots)
    ∧ UndoStack.states_ us2 = UndoStack.states_ us1
    ∧ UndoStack.currentIndex_ us2 = UndoStack.currentIndex_ us1 - 1.
Proof.
  destruct (pushState_wf us snapshots description now Hwf Hsnap)
    as (us1 & Hpush & Hwf1 & _ & Hone & Hsize & Hlast).
  assert (UndoStack.canUndo us1 = true) as Hcan by (unfold UndoStack.canUndo; lia).
  destruct (popState_wf us1 Hwf1 Hcan) as (state & Hstate & Hpop).
  rewrite Hlast in Hstate. injection Hstate as <-.
  eexists us1, _. split_and!; try done.
  unfold UndoStack.getUndoDescription. rewrite Hcan. simpl.
  destruct Hwf1 as (Hidx & Hsz & Hmax & _).
  rewrite to_size_t_small by lia. by rewrite Hlast.
Qed.

(** The theorem at one push of a one-tile grid on the empty history. *)
Lemma push_then_pop_returns_snapshots_witness :
  ∃ us1 us2,
    UndoStack.pushState (UndoStack.new 50) [TileGrid.new 1 1] "A" 0 = Some us1
    ∧ UndoStack.getUndoDescription us1 = Some "A"
    ∧ UndoStack.popState us1 = Some (us2, [TileGrid.new 1 1]).
Proof.
  destruct (push_then_pop_returns_snapshots (UndoStack.new 50) [TileGrid.new 1 1] "A" 0)
    as (us1 & us2 & Hpush & _ & Hdescr & Hpop & _).
  - apply (bool_decide_eq_true_1 _). vm_compute. reflexivity.
  - apply (bool_decide_eq_true_1 _). vm_compute. reflexivity.
  - exists us1, us2. split; [exact Hpush|]. split; [exact Hdescr|exact Hpop].
Defined.

Lemma push_all_states N : ∀ l us,
  UndoStack.wf us → UndoStack.maxStates_ us = N →
  UndoStack.currentIndex_ us = UndoStack.size us →
  Forall (λ e, Forall TileGrid.wf e.1.1) l →
  ∃ us', push_all us l = Some us'
    ∧ UndoStack.wf us'
    ∧ UndoStack.maxStates_ us' = N
    ∧ UndoStack.currentIndex_ us' = UndoStack.size us'
    ∧ UndoStack.states_ us'
      = drop (Z.to_nat (UndoStack.size us + Z.of_nat (length l) - N))
             (UndoStack.states_ us ++ (state_of <$> l)).
Proof.
  induction l as [|e l IH]; intros us Hwf HN Hidx Hl.
  - exists us. split_and!; try done. simpl. rewrite app_nil_r.
    destruct Hwf as (_ & Hsz & _). simpl.
    match goal with |- context [drop ?n] => replace n with 0%nat by lia end. done.
  - apply Forall_cons in Hl as [He Hl].
    pose proof (pushState_states us e.1.1 e.1.2 e.2 Hwf He) as Hpush.
    destruct (pushState_wf us e.1.1 e.1.2 e.2 Hwf He)
      as (us1 & Hpush1 & Hwf1 & Hmax1 & _ & Hsize1 & _).
    rewrite Hpush in Hpush1. injection Hpush1 as Hus1.
    destruct (IH us1 Hwf1 ltac:(congruence) Hsize1 Hl)
      as (us' & Hall & Hwf' & Hmax' & Hidx' & Hstates').
    exists us'. split_and!; try done.
    { unfold push_all in *. simpl. rewrite Hpush. simpl. by rewrite Hus1. }
    rewrite Hstates'. clear Hstates' Hall.
    destruct Hwf as (Hi & Hsz & Hmax & _).
    assert (UndoStack.size us1
            = Z.min (UndoStack.size us + 1) N) as Hs1.
    { rewrite <- Hsize1, <- Hus1. simpl. by rewrite Hidx, HN. }
    rewrite Hs1. rewrite <- Hus1. cbn [UndoStack.states_].
    rewrite Hidx, HN. unfold UndoStack.size in *.
    rewrite take_ge by lia.
    cbn [fmap list_fmap length]. fold (state_of e).
    set (A := UndoStack.states_ us) in *.
    set (B := state_of <$> l).
    destruct (Z.leb_spec (Z.of_nat (length A) + 1) N).
    + replace (Z.to_nat (Z.of_nat (length A) + 1 - N)) with 0%nat by lia.
      rewrite drop_0, <- app_assoc. simpl. f_equal. lia.
    + assert (Z.of_nat (length A) = N) as HA by lia.
      replace (Z.to_nat (Z.of_nat (length A) + 1 - N)) with 1%nat by lia.
      replace (A ++ state_of e :: B) with ((A ++ [state_of e]) ++ B)
        by (by rewrite <- app_assoc).
      rewrite <- (drop_app_le (A ++ [state_of e]) B 1)
        by (rewrite length_app; simpl; lia).
      rewrite drop_drop. f_equal. lia.
Qed.

(** X9.  [pushState] on a well-formed history first drops the states from
    the current index on (the redo tail), appends the new state, then drops
    states from the front until at most [maxStates_] are left; afterwards
    the index equals the number of states, and the ceiling is unchanged. *)
Theorem pushState_drops_redo_tail_and_oldest
    (us : UndoStack.t) (snapshots : list TileGrid.t) (description : string) (now : Z)
    (Hwf : UndoStack.wf us) (Hsnap : Forall TileGrid.wf snapshots) :
  ∃ us1,
    UndoStack.pushState us snapshots description now = Some us1
    ∧ UndoStack.states_ us1
      = drop (Z.to_nat (UndoStack.currentIndex_ us + 1 - UndoStack.maxStates_ us))
             (take (Z.to_nat (UndoStack.currentIndex_ us)) (UndoStack.states_ us)
              ++ [UndoStack.mkState snapshots description now])
    ∧ UndoStack.size us1
      = Z.min (UndoStack.currentIndex_ us + 1) (UndoStack.maxStates_ us)
    ∧ UndoStack.currentIndex_ us1 = UndoStack.size us1
    ∧ UndoStack.maxStates_ us1 = UndoStack.maxStates_ us.
Proof.
  rewrite (pushState_states us snapshots description now Hwf Hsnap).
  eexists. split; [done|]. cbn [UndoStack.states_ UndoStack.currentIndex_
    UndoStack.maxStates_]. split_and!; try done.
  - destruct Hwf as (Hidx & Hsz & Hmax & _).
    unfold UndoStack.size in *. cbn [UndoStack.states_].
    rewrite length_drop, length_app, length_take. simpl. lia.
  - destruct Hwf as (Hidx & Hsz & Hmax & _).
    unfold UndoStack.size in *. cbn [UndoStack.states_].
    rewrite length_drop, length_app, length_take. simpl. lia.
Qed.

(** The theorem at a push on a full history with ceiling 1: the old state
    is dropped. *)
Lemma pushState_drops_redo_tail_and_oldest_witness :
  ∃ us1, UndoStack.pushState full_history [] "B" 1 = Some us1
    ∧ UndoStack.states_ us1 = [UndoStack.mkState [] "B" 1]
    ∧ UndoStack.size us1 = 1.
Proof.
  destruct (pushState_drops_redo_tail_and_oldest full_history [] "B" 1)
    as (us1 & Hpush & Hstates & Hsize & _).
  - apply (bool_decide_eq_true_1 _). vm_compute. reflexivity.
  - constructor.
  - exists us1. split; [exact Hpush|]. split; [exact Hstates|exact Hsize].
Defined.

Lemma UndoStack_wf_new N : 1 ≤ N < 2 ^ 63 → UndoStack.wf (UndoStack.new N).
Proof.
  intros HN. unfold UndoStack.wf, UndoStack.new, UndoStack.size. simpl.
  split_and!; try lia. constructor.
Qed.

(** X10.  Pushing a sequence of states on a new history with ceiling [N]
    succeeds and leaves exactly the last [N] of them (all of them when
    there are fewer), in order, with the index at the end. *)
Theorem history_keeps_newest_states
    (N : Z) (l : list (list TileGrid.t * string * Z))
    (HN : 1 ≤ N < 2 ^ 63)
    (Hl : Forall (λ e, Forall TileGrid.wf e.1.1) l) :
  ∃ us, push_all (UndoStack.new N) l = Some us
    ∧ UndoStack.states_ us = drop (length l - Z.to_nat N) (state_of <$> l)
    ∧ UndoStack.size us = Z.min (Z.of_nat (length l)) N
    ∧ UndoStack.currentIndex_ us = UndoStack.size us.
Proof.
  destruct (push_all_states N l (UndoStack.new N) (UndoStack_wf_new N HN) eq_refl
              eq_refl Hl) as (us & Hp & Hwf & Hmax & Hidx & Hst).
  exists us. split; [done|].
  assert (UndoStack.states_ us = drop (length l - Z.to_nat N) (state_of <$> l)) as Hs.
  { rewrite Hst. unfold UndoStack.size. simpl. f_equal. lia. }
  split_and!; try done.
  unfold UndoStack.size. rewrite Hs, length_drop, length_fmap. lia.
Qed.

(** The theorem at three pushes on a history with ceiling 2. *)
Lemma history_keeps_newest_states_witness :
  ∃ us, push_all (UndoStack.new 2) three_pushes = Some us
    ∧ UndoStack.states_ us
      = [UndoStack.mkState [] "B" 1; UndoStack.mkState [] "C" 2].
Proof.
  destruct (history_keeps_newest_states 2 three_pushes) as (us & Hpush & Hstates & _).
  - lia.
  - repeat constructor.
  - exists us. split; [exact Hpush|exact Hstates].
Defined.

Lemma restore_idem snapshots : ∀ ls ls',
  Forall TileGrid.wf snapshots →
  CanvasCore.restore ls snapshots = Some ls' →
  CanvasCore.restore ls' snapshots = Some ls'.
Proof.
  induction snapshots as [|snap snapshots IH]; intros ls ls' Hwf Hr.
  - destruct ls; simpl in Hr; by simplify_eq.
  - destruct ls as [|layer ls]; simpl in Hr; [by simplify_eq|].
    apply Forall_cons in Hwf as [Hs Hwf].
    unfold TileGrid.assign in *. rewrite TileGrid_copy_wf in * by done.
    simpl in Hr.
    destruct (CanvasCore.restore ls snapshots) as [rest|] eqn:Hrest; [|done].
    simpl in Hr. simplify_eq. simpl.
    rewrite TileGrid_copy_wf by done. simpl.
    rewrite (IH ls rest Hwf Hrest). simpl. by destruct layer.
Qed.

(** X16.  On a well-formed canvas that can undo, [undo] succeeds and a
    [redo] right after it succeeds and leaves the layers exactly as [undo]
    left them. *)
Theorem redo_after_undo_changes_no_layer
    (c : CanvasCore.t) (Hwf : CanvasCore.wf c) (Hcan : CanvasCore.canUndo c = true) :
  ∃ c1 c2, CanvasCore.undo c = Some c1 ∧ CanvasCore.redo c1 = Some c2
    ∧ CanvasCore.layers_ c2 = CanvasCore.layers_ c1.
Proof.
  destruct Hwf as [Hl Hu]. unfold CanvasCore.canUndo in Hcan.
  destruct (popState_wf _ Hu Hcan) as (state & Hstate & Hpop).
  assert (Forall TileGrid.wf (UndoStack.layerSnapshots state)) as Hsw.
  { destruct Hu as (_ & _ & _ & Hst). by eapply (Forall_lookup_1 _ _ _ _ Hst). }
  destruct (restore_spec _ (CanvasCore.layers_ c) Hsw) as (ls1 & Hr1 & _).
  unfold CanvasCore.undo. rewrite Hcan, Hpop. simpl. rewrite Hr1. simpl.
  set (us1 := UndoStack.mk _ _ _).
  set (c1 := CanvasCore.set_layers ls1 (CanvasCore.set_undoStack us1 c)).
  enough (∃ c2, CanvasCore.redo c1 = Some c2
                ∧ CanvasCore.layers_ c2 = CanvasCore.layers_ c1)
    as (c2 & ? & ?) by (by exists c1, c2).
  unfold CanvasCore.redo. cbn [c1 CanvasCore.set_layers CanvasCore.set_undoStack
    CanvasCore.undoStack_ CanvasCore.layers_].
  destruct (UndoStack.canRedo us1) eqn:Hredo; [|by eexists].
  assert (UndoStack.wf us1) as Hu1.
  { destruct Hu as (Hidx & Hsz & Hmax & Hst). unfold UndoStack.canUndo in Hcan.
    unfold UndoStack.wf, UndoStack.size in *. simpl. split_and!; try done; lia. }
  assert (UndoStack.states_ us1 ≠ []) as Hne.
  { simpl. intros Hnil. by rewrite Hnil in Hstate. }
  destruct (redoState_wf us1 Hu1 Hne Hredo) as (state' & Hstate' & Hredo').
  simpl in Hstate'. rewrite Hstate in Hstate'. injection Hstate' as <-.
  rewrite Hredo'. simpl.
  rewrite (restore_idem _ _ _ Hsw Hr1). simpl. by eexists.
Qed.

(** The theorem at the canvas with the white dot and a second layer. *)
Lemma redo_after_undo_changes_no_layer_witness :
  ∃ c1 c2, CanvasCore.undo layered_canvas = Some c1
    ∧ CanvasCore.redo c1 = Some c2
    ∧ CanvasCore.layers_ c2 = CanvasCore.layers_ c1.
Proof.
  apply (redo_after_undo_changes_no_layer layered_canvas).
  - apply (bool_decide_eq_true_1 _). vm_compute. reflexivity.
  - vm_compute. reflexivity.
Defined.

(** ** Conditional loop invariants *)

Lemma for_each_preserves {A S} (I : S → Prop) (body : A → S → option S) :
  (∀ i s s', body i s = Some s' → I s → I s') →
  ∀ l s s', for_each l body s = Some s' → I s → I s'.
Proof.
  intros Hstep. induction l as [|i l IH]; intros s s' Hl HI; simpl in Hl.
  - by simplify_eq.
  - destruct (body i s) as [s1|] eqn:Hb; [|done]. simpl in Hl.
    eapply IH; [done|]. by eapply Hstep.
Qed.

Lemma for_range_preserves {S} (I : S → Prop) lo hi (body : Z → S → option S) :
  (∀ i s s', lo ≤ i < hi → body i s = Some s' → I s → I s') →
  ∀ s s', for_range lo hi body s = Some s' → I s → I s'.
Proof.
  intros Hstep s s' Hl HI. unfold for_range in Hl.
  assert (Forall (λ i, lo ≤ i < hi) (seqZ lo (hi - lo))) as Hall.
  { apply Forall_forall. intros i Hi%elem_of_seqZ. lia. }
  revert s Hl HI.
  induction (seqZ lo (hi - lo)) as [|i l IH]; intros s Hl HI; simpl in Hl.
  - by simplify_eq.
  - apply Forall_cons in Hall as [Hi Hall].
    destruct (body i s) as [s1|] eqn:Hb; [|done]. simpl in Hl.
    eapply IH; [done|done|]. by eapply Hstep.
Qed.

(** ** Grids stay well-formed under access through references *)

Lemma update_wf gr st tr tl tl0 :
  TileGrid.wf gr → TileGrid.deref gr st tr = Some tl0 →
  length (Tile.pixels_ tl) = length (Tile.pixels_ tl0) →
  TileGrid.wf (TileGrid.update gr st tr tl).1.
Proof.
  intros (Hx & Hy & Hlen & Hall) Hd Hl. destruct tr as [i|]; simpl in *; [|done].
  unfold TileGrid.wf. cbn [TileGrid.set_tiles TileGrid.tiles_ TileGrid.width_
    TileGrid.height_ TileGrid.tileCountX_ TileGrid.tileCountY_].
  split_and!; try done.
  - by rewrite length_insert.
  - apply Forall_insert; [done|]. unfold Tile.wf. rewrite Hl.
    by eapply (Forall_lookup_1 _ _ _ _ Hall).
Qed.

Lemma getPixel_mut_wf gr st x y gr1 st1 rf :
  TileGrid.wf gr → TileGrid.getPixel_mut gr st x y = Some (gr1, st1, rf) →
  TileGrid.wf gr1
  ∧ TileGrid.width_ gr1 = TileGrid.width_ gr
  ∧ TileGrid.height_ gr1 = TileGrid.height_ gr.
Proof.
  intros Hwf H. unfold TileGrid.getPixel_mut in H.
  set (tr := TileGrid.getTile_mut _ _ _) in *.
  destruct (TileGrid.deref gr st tr) as [tl|] eqn:Hd; [|done]. simpl in H.
  destruct (Tile.at_mut tl _ _) as [tl' pr] eqn:Hat.
  destruct (TileGrid.update gr st tr tl') as [gr' st'] eqn:Hu.
  simplify_eq.
  assert (length (Tile.pixels_ tl') = length (Tile.pixels_ tl)) as Hl.
  { unfold Tile.at_mut in Hat. case_match; by simplify_eq. }
  pose proof (update_wf gr st tr tl' tl Hwf Hd Hl) as Hw. rewrite Hu in Hw.
  split; [done|]. destruct tr; simpl in Hu; by simplify_eq.
Qed.

Lemma store_wf gr st rf p gr1 st1 :
  TileGrid.wf gr → TileGrid.store gr st rf p = Some (gr1, st1) →
  TileGrid.wf gr1
  ∧ TileGrid.width_ gr1 = TileGrid.width_ gr
  ∧ TileGrid.height_ gr1 = TileGrid.height_ gr.
Proof.
  intros Hwf H. unfold TileGrid.store in H.
  destruct (TileGrid.deref gr st rf.1) as [tl|] eqn:Hd; [|done]. simpl in H.
  destruct (Tile.store tl (dummy_pixel st) rf.2 p) as [[tl' d']|] eqn:Hs; [|done].
  simpl in H.
  destruct (TileGrid.update gr st rf.1 tl') as [gr' st'] eqn:Hu.
  simplify_eq.
  assert (length (Tile.pixels_ tl') = length (Tile.pixels_ tl)) as Hl.
  { unfold Tile.store in Hs. destruct rf.2; [|by simplify_eq].
    destruct (Tile.pixels_ tl !! i); [|done]. simpl in Hs. simplify_eq.
    simpl. by rewrite length_insert. }
  pose proof (update_wf gr st rf.1 tl' tl Hwf Hd Hl) as Hw. rewrite Hu in Hw.
  split; [done|]. destruct rf.1; simpl in Hu; by simplify_eq.
Qed.

Lemma stamp_wf width height size opacity paint point gr (s s' : TileGrid.t * Statics) :
  CanvasCore.stamp width height size opacity paint point s = Some s' →
  grid_like gr s.1 → grid_like gr s'.1.
Proof.
  unfold CanvasCore.stamp. intros H.
  destruct (F32.to_int _) as [radius|]; [|done]. simpl in H.
  revert s s' H.
  apply (for_range_preserves (λ s : TileGrid.t * Statics, grid_like gr s.1)).
  intros dy s s' _.
  apply (for_range_preserves (λ s : TileGrid.t * Statics, grid_like gr s.1)).
  clear s s'. intros dx s s' _ H (Hw & Hwd & Hht).
  case_match; [|by simplify_eq]. case_match; [|by simplify_eq].
  destruct (TileGrid.getPixel_mut s.1 s.2 _ _) as [[[gr1 st1] rf]|] eqn:Hg; [|done].
  simpl in H.
  destruct (TileGrid.load gr1 st1 rf) as [dest|]; [|done]. simpl in H.
  destruct (paint _ dest) as [dest'|]; [|done]. simpl in H.
  apply getPixel_mut_wf in Hg as (Hw1 & Hwd1 & Hht1); [|done].
  destruct s' as [gr2 st2].
  apply store_wf in H as (Hw2 & Hwd2 & Hht2); [|done].
  unfold grid_like. simpl. split_and!; [done|congruence..].
Qed.

Lemma stroke_spec c st layerIndex points size opacity paint c' st' :
  CanvasCore.stroke c st layerIndex points size opacity paint = Some (c', st') →
  (CanvasCore.layer_index_ok c layerIndex = false ∧ c' = c ∧ st' = st)
  ∨ (CanvasCore.layer_index_ok c layerIndex = true
     ∧ ∃ layer px,
         CanvasCore.layers_ c !! Z.to_nat layerIndex = Some layer
         ∧ for_each points
             (CanvasCore.stamp (CanvasCore.width_ c) (CanvasCore.height_ c) size
                               opacity paint) (Layer.pixels_ layer, st)
           = Some (px, st')
         ∧ c' = CanvasCore.set_layers
                  (<[Z.to_nat layerIndex := Layer.set_pixels px layer]>
                     (CanvasCore.layers_ c)) c).
Proof.
  unfold CanvasCore.stroke, CanvasCore.layer_index_ok. intros H.
  destruct ((layerIndex <? 0) || (layerIndex >=? Z.of_nat (length (CanvasCore.layers_ c))))
    eqn:Hr.
  - left. simplify_eq. split; [|done]. lia.
  - right. split; [lia|].
    destruct (CanvasCore.layers_ c !! Z.to_nat layerIndex) as [layer|]; [|done].
    simpl in H.
    destruct (for_each points _ _) as [[px st1]|] eqn:Hf; [|done].
    simpl in H. simplify_eq. by exists layer, px.
Qed.

Lemma for_each_stamp_wf width height size opacity paint points gr s s' :
  for_each points (CanvasCore.stamp width height size opacity paint) s = Some s' →
  grid_like gr s.1 → grid_like gr s'.1.
Proof.
  apply (for_each_preserves (λ s : TileGrid.t * Statics, grid_like gr s.1)).
  intros point s1 s2. apply stamp_wf.
Qed.

Lemma grid_like_refl gr : TileGrid.wf gr → grid_like gr gr.
Proof. by intros ?. Qed.

Lemma stroke_wf c st layerIndex points size opacity paint c' st' :
  CanvasCore.wf c →
  CanvasCore.stroke c st layerIndex points size opacity paint = Some (c', st') →
  CanvasCore.wf c'.
Proof.
  intros [Hl Hu] H.
  apply stroke_spec in H as [(_ & -> & _)|(_ & layer & px & Hlayer & Hf & ->)]; [done|].
  split; [|done]. simpl. apply Forall_insert; [done|].
  assert (TileGrid.wf (Layer.pixels_ layer)) as Hw
    by (by eapply (Forall_lookup_1 _ _ _ _ Hl)).
  apply (for_each_stamp_wf _ _ _ _ _ _ (Layer.pixels_ layer)) in Hf as (Hw' & _);
    [|by apply grid_like_refl].
  by destruct layer.
Qed.

Lemma run_kernel_wf k s s' :
  CanvasCore.wf s.1 → run_kernel k s = Some s' → CanvasCore.wf s'.1.
Proof.
  destruct s' as [c' st']. intros Hwf. destruct k; simpl; by apply stroke_wf.
Qed.

Lemma restore_wf snapshots : ∀ ls ls',
  Forall (λ layer, TileGrid.wf (Layer.pixels_ layer)) ls →
  Forall TileGrid.wf snapshots →
  CanvasCore.restore ls snapshots = Some ls' →
  Forall (λ layer, TileGrid.wf (Layer.pixels_ layer)) ls'.
Proof.
  induction snapshots as [|snap snapshots IH]; intros ls ls' Hl Hs Hr.
  - destruct ls; simpl in Hr; by simplify_eq.
  - destruct ls as [|layer ls]; simpl in Hr; [by simplify_eq|].
    apply Forall_cons in Hs as [Hs1 Hs]. apply Forall_cons in Hl as [Hl1 Hl].
    unfold TileGrid.assign in Hr. rewrite TileGrid_copy_wf in Hr by done.
    simpl in Hr.
    destruct (CanvasCore.restore ls snapshots) as [rest|] eqn:Hrest; [|done].
    simpl in Hr. simplify_eq. constructor; [by destruct layer|].
    by eapply IH.
Qed.

Lemma undo_wf c c' : CanvasCore.wf c → CanvasCore.undo c = Some c' → CanvasCore.wf c'.
Proof.
  intros [Hl Hu] H. unfold CanvasCore.undo in H.
  destruct (UndoStack.canUndo (CanvasCore.undoStack_ c)) eqn:Hcan; [|by simplify_eq].
  destruct (popState_wf _ Hu Hcan) as (state & Hstate & Hpop).
  rewrite Hpop in H. simpl in H.
  destruct (CanvasCore.restore _ _) as [ls|] eqn:Hr; [|done]. simpl in H.
  simplify_eq.
  pose proof Hu as (Hidx & Hsz & Hmax & Hst).
  assert (Forall TileGrid.wf (UndoStack.layerSnapshots state)) as Hsw
    by (by eapply (Forall_lookup_1 _ _ _ _ Hst)).
  split; simpl.
  - by eapply restore_wf.
  - unfold UndoStack.canUndo in Hcan.
    unfold UndoStack.wf, UndoStack.size in *. simpl. split_and!; try done; lia.
Qed.

Lemma redo_wf c c' : CanvasCore.wf c → CanvasCore.redo c = Some c' → CanvasCore.wf c'.
Proof.
  intros [Hl Hu] H. unfold CanvasCore.redo in H.
  destruct (UndoStack.canRedo (CanvasCore.undoStack_ c)) eqn:Hcan; [|by simplify_eq].
  destruct (decide (UndoStack.states_ (CanvasCore.undoStack_ c) = [])) as [Hnil|Hne].
  { unfold UndoStack.redoState in H. rewrite Hcan, Hnil in H. done. }
  destruct (redoState_wf _ Hu Hne Hcan) as (state & Hstate & Hredo).
  rewrite Hredo in H. simpl in H.
  destruct (CanvasCore.restore _ _) as [ls|] eqn:Hr; [|done]. simpl in H.
  simplify_eq.
  pose proof Hu as (Hidx & Hsz & Hmax & Hst).
  assert (Forall TileGrid.wf (UndoStack.layerSnapshots state)) as Hsw
    by (by eapply (Forall_lookup_1 _ _ _ _ Hst)).
  split; simpl.
  - by eapply restore_wf.
  - apply lookup_lt_Some in Hstate.
    unfold UndoStack.wf, UndoStack.size in *. simpl. split_and!; try done; lia.
Qed.

Lemma CanvasCore_wf_layers ls c :
  CanvasCore.wf c → Forall (λ layer, TileGrid.wf (Layer.pixels_ layer)) ls →
  CanvasCore.wf (CanvasCore.set_layers ls c).
Proof. by intros [_ Hu] Hl. Qed.

Lemma Layer_new_wf name width height :
  TileGrid.wf (Layer.pixels_ (Layer.new name width height)).
Proof. apply TileGrid_wf_new. Qed.

Lemma moveLayer_wf fromIndex toIndex c c' :
  CanvasCore.wf c → CanvasCore.moveLayer fromIndex toIndex c = Some c' →
  CanvasCore.wf c'.
Proof.
  intros Hwf H. unfold CanvasCore.moveLayer in H.
  case_match; [|by simplify_eq].
  destruct (CanvasCore.layers_ c !! Z.to_nat fromIndex) as [layer|] eqn:Hl; [|done].
  simpl in H. simplify_eq. apply CanvasCore_wf_layers; [done|].
  destruct Hwf as [Hall _].
  apply Forall_app. split; [by apply Forall_take, Forall_delete|].
  constructor; [by eapply (Forall_lookup_1 _ _ _ _ Hall)|].
  by apply Forall_drop, Forall_delete.
Qed.

Lemma CanvasCore_wf_new width height : CanvasCore.wf (CanvasCore.new width height).
Proof.
  split; simpl.
  - constructor; [apply Layer_new_wf|constructor].
  - by apply UndoStack_wf_new.
Qed.

Lemma run_op_wf op s s' :
  CanvasCore.wf s.1 → run_op op s = Some s' → CanvasCore.wf s'.1.
Proof.
  intros Hwf H. destruct op; simpl in H.
  - case_match; simplify_eq. simpl. destruct Hwf as [_ Hu]. split; [|done].
    simpl. apply Forall_fmap, Forall_forall. intros l _. apply Layer_new_wf.
  - case_match; simplify_eq. simpl. apply CanvasCore_wf_layers; [done|].
    destruct Hwf as [Hl _]. apply Forall_app. split; [done|].
    constructor; [apply Layer_new_wf|constructor].
  - simplify_eq. simpl. unfold CanvasCore.removeLayer. case_match; [|done].
    apply CanvasCore_wf_layers; [done|]. destruct Hwf as [Hl _].
    by apply Forall_delete.
  - destruct (CanvasCore.moveLayer _ _ _) as [c|] eqn:Hm; [|done].
    simpl in H. simplify_eq. by eapply moveLayer_wf.
  - destruct (beginStroke_wf now s.1 Hwf) as (us & Hp & Hb).
    rewrite Hb in H. simpl in H. simplify_eq. simpl.
    destruct Hwf as [Hl Hu]. split; [done|]. simpl.
    destruct (pushState_wf _ _ "Brush Stroke" now Hu (layer_grids_wf s.1 (conj Hl Hu)))
      as (us' & Hp' & Hwf' & _).
    congruence.
  - by simplify_eq.
  - destruct (CanvasCore.undo s.1) as [c|] eqn:Hu; [|done].
    simpl in H. simplify_eq. by eapply undo_wf.
  - destruct (CanvasCore.redo s.1) as [c|] eqn:Hr; [|done].
    simpl in H. simplify_eq. by eapply redo_wf.
  - by eapply run_kernel_wf.
  - by simplify_eq.
  - by simplify_eq.
  - simplify_eq. simpl. unfold CanvasCore.applyFilter. case_match; [done|].
    apply CanvasCore_wf_layers; [done|]. destruct Hwf as [Hl _].
    apply Forall_alter; [done|]. intros l _ Hw. by destruct l.
Qed.

(** X15.  Every canvas reached from a constructed canvas by a sequence of
    calls of the public mutators (resize, layer management, strokes, undo
    and redo, selection, applyFilter) is well-formed: every layer grid has
    the tile counts of its dimensions, a dense tile array and full tiles,
    and the history keeps its index and size within bounds. *)
Theorem reachable_canvases_are_well_formed
    (width height : Z) (ops : list canvas_op) (st st' : Statics) (c : CanvasCore.t)
    (Hctor : reserve_throws width height = false)
    (Hrun : run_ops ops (CanvasCore.new width height, st) = Some (c, st')) :
  CanvasCore.wf c.
Proof.
  apply (for_each_preserves (λ s : CanvasCore.t * Statics, CanvasCore.wf s.1)
           run_op (λ op s s' H Hwf, run_op_wf op s s' Hwf H) ops
           (CanvasCore.new width height, st) (c, st') Hrun).
  apply CanvasCore_wf_new.
Qed.

(** The theorem at the session on a 128 x 128 canvas. *)
Lemma reachable_canvases_are_well_formed_witness :
  match run_ops session (CanvasCore.new 128 128, Statics_init) with
  | Some (c, _) => CanvasCore.wf c
  | None => False
  end.
Proof.
  assert (bool_decide (is_Some (run_ops session (CanvasCore.new 128 128, Statics_init)))
          = true) as Hdef by (vm_compute; reflexivity).
  destruct (run_ops session (CanvasCore.new 128 128, Statics_init))
    as [[c st']|] eqn:Hrun; [|discriminate Hdef].
  apply (reachable_canvases_are_well_formed 128 128 session Statics_init st' c);
    [reflexivity|exact Hrun].
Defined.

(** ** Layer properties *)

Lemma compare_one_antisym m e :
  SFcompare (S754_finite false m e) (S754_finite false 8388608 (-23))
  = option_map CompOpp
      (SFcompare (S754_finite false 8388608 (-23)) (S754_finite false m e)).
Proof.
  unfold SFcompare. rewrite (Z.compare_antisym (-23) e).
  destruct (-23 ?= e); cbn [CompOpp option_map]; try done.
  by rewrite (Pos.compare_cont_antisym _ _ Eq).
Qed.

(** X11.  [Layer::setOpacity] with an argument other than NaN stores a
    value between 0 and 1, and stores the argument itself when that lies
    between 0 and 1. *)
Theorem setOpacity_clamps (opacity : spec_float) (l : Layer.t)
    (Hnan : is_nan opacity = false) :
  F32.leb F32.zero (Layer.opacity_ (Layer.setOpacity opacity l)) = true
  ∧ F32.leb (Layer.opacity_ (Layer.setOpacity opacity l)) F32.one = true
  ∧ (F32.leb F32.zero opacity = true → F32.leb opacity F32.one = true →
     Layer.opacity_ (Layer.setOpacity opacity l) = opacity).
Proof.
  unfold Layer.setOpacity. cbn [Layer.opacity_].
  change F32.one with (S754_finite false 8388608 (-23)).
  unfold F32.ltb, F32.leb, F32.zero, SFltb, SFleb.
  destruct opacity as [s|s| |s m e].
  - destruct s; cbv; auto.
  - destruct s; cbv; split_and!; congruence.
  - done.
  - destruct s.
    + change (SFcompare (S754_finite true m e) (S754_zero false)) with (Some Lt).
      cbv iota. split_and!; [done|done|].
      change (SFcompare (S754_zero false) (S754_finite true m e)) with (Some Gt).
      cbv iota. congruence.
    + rewrite compare_one_antisym.
      change (SFcompare (S754_finite false m e) (S754_zero false)) with (Some Gt).
      change (SFcompare (S754_zero false) (S754_finite false m e)) with (Some Lt).
      cbv iota.
      destruct (SFcompare (S754_finite false 8388608 (-23)) (S754_finite false m e))
        as [[]|] eqn:Hc; cbn [option_map CompOpp]; cbv iota.
      * split_and!; [done| |done]. rewrite compare_one_antisym, Hc. done.
      * change (SFcompare (S754_zero false) (S754_finite false 8388608 (-23)))
          with (Some Lt).
        split_and!; [done| |congruence].
        change (S754_finite false 8388608 (-23)) with F32.one.
        by vm_compute.
      * split_and!; [done| |done]. rewrite compare_one_antisym, Hc. done.
      * split_and!; [done| |done]. rewrite compare_one_antisym, Hc. done.
Qed.

(** The theorem at opacity 2, which is clamped. *)
Lemma setOpacity_clamps_witness :
  F32.leb (Layer.opacity_ (Layer.setOpacity F32.two (Layer.new "L" 1 1))) F32.one
  = true.
Proof.
  destruct (setOpacity_clamps F32.two (Layer.new "L" 1 1)) as (_ & Hle & _).
  - reflexivity.
  - exact Hle.
Defined.

Lemma delete_app_last {A} (l : list A) (x : A) : delete (length l) (l ++ [x]) = l.
Proof. induction l as [|y l IH]; simpl; [done|]. by rewrite IH. Qed.

(** ** Layer list of the canvas *)

(** X12.  [moveLayer] with both indices in range puts the layer that was at
    [fromIndex] at [toIndex]; the other layers keep their relative order,
    no layer is lost or duplicated, and size, selection and history are
    untouched. *)
Theorem moveLayer_moves_one_layer
    (c : CanvasCore.t) (fromIndex toIndex : Z)
    (Hfrom : 0 ≤ fromIndex < Z.of_nat (length (CanvasCore.layers_ c)))
    (Hto : 0 ≤ toIndex < Z.of_nat (length (CanvasCore.layers_ c))) :
  ∃ c', CanvasCore.moveLayer fromIndex toIndex c = Some c'
    ∧ CanvasCore.layers_ c' !! Z.to_nat toIndex
      = CanvasCore.layers_ c !! Z.to_nat fromIndex
    ∧ delete (Z.to_nat toIndex) (CanvasCore.layers_ c')
      = delete (Z.to_nat fromIndex) (CanvasCore.layers_ c)
    ∧ CanvasCore.layers_ c' ≡ₚ CanvasCore.layers_ c
    ∧ CanvasCore.undoStack_ c' = CanvasCore.undoStack_ c
    ∧ CanvasCore.width_ c' = CanvasCore.width_ c
    ∧ CanvasCore.height_ c' = CanvasCore.height_ c
    ∧ CanvasCore.selection_ c' = CanvasCore.selection_ c.
Proof.
  unfold CanvasCore.moveLayer, CanvasCore.layer_index_ok.
  replace (fromIndex >=? 0) with true by bool_lia.
  replace (fromIndex <? Z.of_nat (length (CanvasCore.layers_ c))) with true by bool_lia.
  replace (toIndex >=? 0) with true by bool_lia.
  replace (toIndex <? Z.of_nat (length (CanvasCore.layers_ c))) with true by bool_lia.
  cbn [andb].
  destruct (lookup_lt_is_Some_2 (CanvasCore.layers_ c) (Z.to_nat fromIndex))
    as [layer Hl]; [lia|].
  rewrite Hl. cbn [mbind option_bind].
  set (ls := delete (Z.to_nat fromIndex) (CanvasCore.layers_ c)).
  assert (length ls = (length (CanvasCore.layers_ c) - 1)%nat) as Hlen.
  { unfold ls. rewrite length_delete; [done|by eexists]. }
  assert (length (take (Z.to_nat toIndex) ls) = Z.to_nat toIndex) as Htake
    by (rewrite length_take; lia).
  eexists. split; [done|]. cbn [CanvasCore.set_layers CanvasCore.layers_
    CanvasCore.undoStack_ CanvasCore.width_ CanvasCore.height_ CanvasCore.selection_].
  split_and!; try done.
  - rewrite lookup_app_r by lia. rewrite Htake, Nat.sub_diag. done.
  - rewrite <- Htake at 1. rewrite delete_middle. apply take_drop.
  - rewrite <- Permutation_middle, take_drop. unfold ls.
    symmetry. by apply delete_Permutation.
Qed.

(** The theorem at the two-layer canvas, bottom layer moved to the top. *)
Lemma moveLayer_moves_one_layer_witness :
  ∃ c', CanvasCore.moveLayer 0 1 two_layers = Some c'
    ∧ CanvasCore.layers_ c' !! 1%nat = CanvasCore.layers_ two_layers !! 0%nat
    ∧ CanvasCore.layers_ c' ≡ₚ CanvasCore.layers_ two_layers.
Proof.
  destruct (moveLayer_moves_one_layer two_layers 0 1) as (c' & Hmove & Hat & _ & Hperm & _).
  - simpl. lia.
  - simpl. lia.
  - exists c'. split; [exact Hmove|]. split; [exact Hat|exact Hperm].
Defined.

(** X13.  [addLayer] appends a fresh layer of the canvas size: [getLayer]
    finds it at the old layer count and the old layers at their old
    indices, and [removeLayer] at that index gives back the canvas as it
    was.  With an index out of range [getLayer] returns null and
    [removeLayer] changes nothing. *)
Theorem removeLayer_undoes_addLayer (c : CanvasCore.t) (name : string) (index : Z)
    (Hctor : reserve_throws (CanvasCore.width_ c) (CanvasCore.height_ c) = false) :
  CanvasCore.getLayer (Z.of_nat (length (CanvasCore.layers_ c)))
    (CanvasCore.addLayer name c)
  = Some (Layer.new name (CanvasCore.width_ c) (CanvasCore.height_ c))
  ∧ CanvasCore.removeLayer (Z.of_nat (length (CanvasCore.layers_ c)))
      (CanvasCore.addLayer name c) = c
  ∧ (∀ j, (j < length (CanvasCore.layers_ c))%nat →
       CanvasCore.getLayer (Z.of_nat j) (CanvasCore.addLayer name c)
       = CanvasCore.layers_ c !! j)
  ∧ (index < 0 ∨ Z.of_nat (length (CanvasCore.layers_ c)) ≤ index →
     CanvasCore.getLayer index c = None ∧ CanvasCore.removeLayer index c = c).
Proof.
  unfold CanvasCore.getLayer, CanvasCore.removeLayer, CanvasCore.layer_index_ok,
    CanvasCore.addLayer.
  cbn [CanvasCore.set_layers CanvasCore.layers_ CanvasCore.width_ CanvasCore.height_
       CanvasCore.selection_ CanvasCore.undoStack_].
  rewrite length_app. cbn [length].
  pose proof (Nat2Z.is_nonneg (length (CanvasCore.layers_ c))).
  split_and!.
  - replace (Z.of_nat (length (CanvasCore.layers_ c)) >=? 0) with true by bool_lia.
    replace (Z.of_nat (length (CanvasCore.layers_ c))
             <? Z.of_nat (length (CanvasCore.layers_ c) + 1)) with true by bool_lia.
    cbn [andb]. rewrite Nat2Z.id, lookup_app_r by lia.
    by rewrite Nat.sub_diag.
  - replace (Z.of_nat (length (CanvasCore.layers_ c)) >=? 0) with true by bool_lia.
    replace (Z.of_nat (length (CanvasCore.layers_ c))
             <? Z.of_nat (length (CanvasCore.layers_ c) + 1)) with true by bool_lia.
    cbn [andb]. rewrite Nat2Z.id, delete_app_last. by destruct c.
  - intros j Hj. pose proof (Nat2Z.is_nonneg j).
    replace (Z.of_nat j >=? 0) with true by bool_lia.
    replace (Z.of_nat j <? Z.of_nat (length (CanvasCore.layers_ c) + 1))
      with true by bool_lia.
    cbn [andb]. rewrite Nat2Z.id. by apply lookup_app_l.
  - intros Hr. destruct (index >=? 0) eqn:H0; [|done].
    replace (index <? Z.of_nat (length (CanvasCore.layers_ c))) with false by bool_lia.
    done.
Qed.

(** The theorem at a layer added to the 1 x 1 canvas. *)
Lemma removeLayer_undoes_addLayer_witness :
  CanvasCore.removeLayer 1 two_layers = CanvasCore.new 1 1
  ∧ CanvasCore.getLayer 5 (CanvasCore.new 1 1) = None.
Proof.
  destruct (removeLayer_undoes_addLayer (CanvasCore.new 1 1) "Top" 5)
    as (_ & Hremove & _ & Hout).
  - reflexivity.
  - split; [exact Hremove|]. apply Hout. right. simpl. lia.
Defined.

(** X14.  [applyFilter] never touches a pixel or the history: with an index
    in range it appends the pair of filter type and parameters to the
    adjustment list of that layer and leaves the other layers as they are;
    with an index out of range it does nothing. *)
Theorem applyFilter_only_records_an_adjustment
    (c : CanvasCore.t) (layerIndex : Z) (filterType : string)
    (params : gmap string spec_float) :
  let c' := CanvasCore.applyFilter layerIndex filterType params c in
  layer_grids c' = layer_grids c
  ∧ CanvasCore.undoStack_ c' = CanvasCore.undoStack_ c
  ∧ (∀ l, 0 ≤ layerIndex →
       CanvasCore.layers_ c !! Z.to_nat layerIndex = Some l →
       CanvasCore.layers_ c' !! Z.to_nat layerIndex
       = Some (Layer.set_adjustments
                 (Layer.adjustments_ l ++ [(filterType, params)]) l))
  ∧ (∀ j, j ≠ Z.to_nat layerIndex →
       CanvasCore.layers_ c' !! j = CanvasCore.layers_ c !! j)
  ∧ (layerIndex < 0 ∨ Z.of_nat (length (CanvasCore.layers_ c)) ≤ layerIndex →
     c' = c).
Proof.
  intros c'. unfold c', CanvasCore.applyFilter.
  destruct ((layerIndex <? 0) || (layerIndex >=? Z.of_nat (length (CanvasCore.layers_ c))))
    eqn:Hr.
  - split_and!; try done.
    intros l H0 Hl. apply lookup_lt_Some in Hl. lia.
  - cbn [CanvasCore.set_layers CanvasCore.layers_ CanvasCore.undoStack_].
    split_and!; try done.
    + unfold layer_grids. cbn [CanvasCore.set_layers CanvasCore.layers_].
      apply list_eq. intros j. rewrite !list_lookup_fmap.
      destruct (decide (j = Z.to_nat layerIndex)) as [->|Hne].
      * rewrite list_lookup_alter_eq.
        by destruct (CanvasCore.layers_ c !! Z.to_nat layerIndex).
      * by rewrite list_lookup_alter_ne.
    + intros l _ Hl. by rewrite list_lookup_alter_eq, Hl.
    + intros j Hne. by rewrite list_lookup_alter_ne.
    + lia.
Qed.

(** X17.  [resize] does not clear the history: after [beginStroke] and a
    [resize], [undo] succeeds and gives every layer the grid it had before
    the resize, with its old dimensions, while the canvas keeps the new
    width and height. *)
Theorem undo_after_resize_brings_back_old_grids
    (c : CanvasCore.t) (now width height : Z)
    (Hwf : CanvasCore.wf c)
    (Hctor : reserve_throws width height = false) :
  ∃ c1 c3, CanvasCore.beginStroke now c = Some c1
    ∧ CanvasCore.undo (CanvasCore.resize width height c1) = Some c3
    ∧ layer_grids c3 = layer_grids c
    ∧ CanvasCore.width_ c3 = width
    ∧ CanvasCore.height_ c3 = height.
Proof.
  destruct (beginStroke_wf now c Hwf) as (us & Hpush & Hbegin).
  exists (CanvasCore.set_undoStack us c).
  destruct Hwf as [Hl Hu].
  destruct (pushState_wf _ _ "Brush Stroke" now Hu (layer_grids_wf c (conj Hl Hu)))
    as (us' & Hp & Hwf' & _ & Hone & Hsize & Hlast).
  assert (us' = us) as -> by congruence.
  assert (UndoStack.canUndo us = true) as Hcan
    by (unfold UndoStack.canUndo; lia).
  destruct (popState_wf us Hwf' Hcan) as (state & Hstate & Hpop).
  rewrite Hlast in Hstate. injection Hstate as <-. simpl in Hpop.
  unfold CanvasCore.undo, CanvasCore.resize.
  cbn [CanvasCore.undoStack_ CanvasCore.set_undoStack CanvasCore.layers_
       CanvasCore.width_ CanvasCore.height_ CanvasCore.selection_].
  rewrite Hcan, Hpop. cbn [mbind option_bind].
  destruct (restore_spec (layer_grids c)
              ((λ layer, Layer.new (Layer.name_ layer) width height)
                 <$> CanvasCore.layers_ c)
              (layer_grids_wf c (conj Hl Hu))) as (ls' & Hr & Hres).
  rewrite Hr. cbn [mbind option_bind]. eexists. split; [done|]. split; [done|].
  split; [|done].
  unfold layer_grids at 1. cbn [CanvasCore.set_layers CanvasCore.layers_].
  eapply restored_all; [|exact Hres].
  unfold layer_grids. by rewrite !length_fmap.
Qed.

(** The theorem at the 128 x 128 canvas resized to 3 x 3. *)
Lemma undo_after_resize_brings_back_old_grids_witness :
  ∃ c1 c3, CanvasCore.beginStroke 0 canvas128 = Some c1
    ∧ CanvasCore.undo (CanvasCore.resize 3 3 c1) = Some c3
    ∧ layer_grids c3 = layer_grids canvas128
    ∧ CanvasCore.width_ c3 = 3.
Proof.
  destruct (undo_after_resize_brings_back_old_grids canvas128 0 3 3)
    as (c1 & c3 & Hbegin & Hundo & Hgrids & Hwidth & _).
  - apply (bool_decide_eq_true_1 _). vm_compute. reflexivity.
  - reflexivity.
  - exists c1, c3. split; [exact Hbegin|]. split; [exact Hundo|].
    split; [exact Hgrids|exact Hwidth].
Defined.

(** ** Stroke kernels *)

(** X19.  A brush or eraser call that returns leaves the canvas size, the
    selection, the history, the number of layers, every layer other than
    the one it paints on and the metadata of all layers unchanged; with a
    layer index out of range it changes nothing at all. *)
Theorem kernel_touches_only_its_layer
    (k : kernel_call) (c c' : CanvasCore.t) (st st' : Statics)
    (Hrun : run_kernel k (c, st) = Some (c', st')) :
  CanvasCore.width_ c' = CanvasCore.width_ c
  ∧ CanvasCore.height_ c' = CanvasCore.height_ c
  ∧ CanvasCore.selection_ c' = CanvasCore.selection_ c
  ∧ CanvasCore.undoStack_ c' = CanvasCore.undoStack_ c
  ∧ length (CanvasCore.layers_ c') = length (CanvasCore.layers_ c)
  ∧ (∀ j, j ≠ Z.to_nat (kernel_layer k) →
       CanvasCore.layers_ c' !! j = CanvasCore.layers_ c !! j)
  ∧ (∀ j l, CanvasCore.layers_ c !! j = Some l →
       ∃ l', CanvasCore.layers_ c' !! j = Some l' ∧ same_metadata l l')
  ∧ (kernel_layer k < 0 ∨ Z.of_nat (length (CanvasCore.layers_ c)) ≤ kernel_layer k →
     c' = c ∧ st' = st).
Proof.
  assert (∃ points size opacity paint,
            CanvasCore.stroke c st (kernel_layer k) points size opacity paint
            = Some (c', st')) as (points & size & opacity & paint & H).
  { destruct k; simpl in *; by eexists _, _, _, _. }
  clear Hrun.
  apply stroke_spec in H as [(Hr & -> & ->)|(Hr & layer & px & Hlayer & Hf & ->)].
  - split_and!; try done. intros j l Hl. exists l. split; [done|].
    apply same_metadata_refl.
  - cbn [CanvasCore.set_layers CanvasCore.layers_ CanvasCore.width_
         CanvasCore.height_ CanvasCore.selection_ CanvasCore.undoStack_].
    split_and!; try done.
    + by rewrite length_insert.
    + intros j Hne. by rewrite list_lookup_insert_ne.
    + intros j l Hl.
      destruct (decide (j = Z.to_nat (kernel_layer k))) as [->|Hne].
      * rewrite list_lookup_insert_eq by (by eapply lookup_lt_Some).
        eexists. split; [done|]. assert (l = layer) as -> by congruence.
        apply same_metadata_set_pixels.
      * rewrite list_lookup_insert_ne by done. exists l. split; [done|].
        apply same_metadata_refl.
    + unfold CanvasCore.layer_index_ok in Hr. lia.
Qed.

(** The theorem at the white dot painted on the 128 x 128 canvas. *)
Lemma kernel_touches_only_its_layer_witness :
  match run_kernel white_dot (canvas128, Statics_init) with
  | Some (c', _) =>
      CanvasCore.undoStack_ c' = CanvasCore.undoStack_ canvas128
      ∧ length (CanvasCore.layers_ c') = length (CanvasCore.layers_ canvas128)
  | None => False
  end.
Proof.
  assert (bool_decide (is_Some (run_kernel white_dot (canvas128, Statics_init))) = true)
    as Hdef by (vm_compute; reflexivity).
  destruct (run_kernel white_dot (canvas128, Statics_init)) as [[c' st']|] eqn:Hrun;
    [|discriminate Hdef].
  destruct (kernel_touches_only_its_layer white_dot canvas128 c' Statics_init st' Hrun)
    as (_ & _ & _ & Hundo & Hlen & _).
  split; [exact Hundo|exact Hlen].
Defined.

Lemma mul_nan_r f : F32.mul f S754_nan = S754_nan.
Proof. by destruct f as [[]|[]| |[] m e]. Qed.

Lemma mix_channel_nan d c : mix_channel d c S754_nan = None.
Proof.
  unfold mix_channel.
  assert (F32.sub (F32.of_int 1) S754_nan = S754_nan) as -> by done.
  by rewrite !mul_nan_r.
Qed.

Lemma fade_channel_nan d : CanvasCore.fade_channel d S754_nan = None.
Proof.
  unfold CanvasCore.fade_channel.
  assert (F32.sub (F32.of_int 1) S754_nan = S754_nan) as -> by done.
  by rewrite !mul_nan_r.
Qed.

Lemma stamp_alpha_zero_radius opacity :
  CanvasCore.stamp_alpha (distance 0 0) 0 opacity = S754_nan.
Proof.
  unfold CanvasCore.stamp_alpha.
  assert (F32.sub F32.one (F32.div (distance 0 0) (F32.of_int 0)) = S754_nan) as ->
    by (vm_compute; reflexivity).
  done.
Qed.

(** X22.  A brush or eraser call whose size gives the radius 0, that is
    [static_cast<int>(size / 2.0f) = 0] as for size 1, has no defined
    result as soon as its first point lies on the canvas of an existing
    layer: the falloff is computed as 0 / 0, and the conversion of the
    resulting NaN to [uint16_t] is undefined. *)
Theorem zero_radius_stroke_is_undefined
    (k : kernel_call) (c : CanvasCore.t) (st : Statics) (layerIndex x y : Z)
    (points : list (Z * Z)) (size opacity : spec_float)
    (Hk : is_call k layerIndex ((x, y) :: points) size opacity)
    (Hidx : 0 ≤ layerIndex < Z.of_nat (length (CanvasCore.layers_ c)))
    (Hsize : F32.to_int (F32.div size F32.two) = Some 0)
    (Hx : 0 ≤ x < CanvasCore.width_ c) (Hy : 0 ≤ y < CanvasCore.height_ c) :
  run_kernel k (c, st) = None.
Proof.
  assert (∃ paint, run_kernel k (c, st)
                   = CanvasCore.stroke c st layerIndex ((x, y) :: points) size opacity
                       paint
                   ∧ ∀ dest, paint S754_nan dest = None) as (paint & -> & Hpaint).
  { destruct k as [i pts sz op color|i pts sz op]; simpl in Hk;
      destruct Hk as (-> & -> & -> & ->); simpl.
    - eexists. split; [done|]. intros dest.
      unfold CanvasCore.brush_pixel, mix_pixel. by rewrite (mix_channel_nan (r dest)).
    - eexists. split; [done|]. intros dest.
      unfold CanvasCore.erase_pixel. by rewrite fade_channel_nan. }
  unfold CanvasCore.stroke.
  replace (layerIndex <? 0) with false by bool_lia.
  replace (layerIndex >=? Z.of_nat (length (CanvasCore.layers_ c))) with false by bool_lia.
  cbn [orb].
  destruct (lookup_lt_is_Some_2 (CanvasCore.layers_ c) (Z.to_nat layerIndex))
    as [layer Hl]; [lia|].
  rewrite Hl. cbn [mbind option_bind for_each].
  assert (CanvasCore.stamp (CanvasCore.width_ c) (CanvasCore.height_ c) size opacity
            paint (x, y) (Layer.pixels_ layer, st) = None) as ->; [|done].
  unfold CanvasCore.stamp. rewrite Hsize. cbn [mbind option_bind fst snd].
  unfold for_range. change (seqZ (- 0) (0 + 1 - - 0)) with [0]. cbn [for_each].
  cbn [mbind option_bind].
  rewrite !Z.add_0_r.
  replace (x >=? 0) with true by bool_lia. replace (x <? CanvasCore.width_ c) with true by bool_lia.
  replace (y >=? 0) with true by bool_lia. replace (y <? CanvasCore.height_ c) with true by bool_lia.
  cbn [andb].
  assert (F32.leb (distance 0 0) (F32.of_int 0) = true) as ->
    by (vm_compute; reflexivity).
  rewrite stamp_alpha_zero_radius.
  destruct (TileGrid.getPixel_mut _ _ x y) as [[[gr1 st1] rf]|]; [|done].
  cbn [mbind option_bind].
  destruct (TileGrid.load gr1 st1 rf) as [dest|]; [|done].
  cbn [mbind option_bind]. by rewrite Hpaint.
Qed.

(** The theorem at a stamp of size 1 on the 128 x 128 canvas. *)
Lemma zero_radius_stroke_is_undefined_witness :
  run_kernel white_speck (canvas128, Statics_init) = None.
Proof.
  apply (zero_radius_stroke_is_undefined white_speck canvas128 Statics_init 0 10 10 []
           F32.one F32.one).
  - repeat split.
  - simpl. lia.
  - vm_compute. reflexivity.
  - simpl. lia.
  - simpl. lia.
Defined.

(** ** Pixel access at the coordinates of allocated tiles *)

Lemma addressable_bounds gr x y :
  addressable gr x y →
  0 ≤ Z.quot x TILE_SIZE < TileGrid.tileCountX_ gr
  ∧ 0 ≤ Z.quot y TILE_SIZE < TileGrid.tileCountY_ gr
  ∧ 0 ≤ Z.rem x TILE_SIZE < TILE_SIZE
  ∧ 0 ≤ Z.rem y TILE_SIZE < TILE_SIZE.
Proof.
  unfold addressable, grid_out_of_range, TileGrid.tile_out_of_range, Tile.out_of_range.
  lia.
Qed.

Lemma addressable_split gr x y :
  addressable gr x y →
  TileGrid.tile_out_of_range gr (Z.quot x TILE_SIZE) (Z.quot y TILE_SIZE) = false
  ∧ Tile.out_of_range (Z.rem x TILE_SIZE) (Z.rem y TILE_SIZE) = false.
Proof. unfold addressable, grid_out_of_range. intros H. by apply orb_false_elim in H. Qed.

Lemma index_inj_addr gr x y x' y' :
  addressable gr x y → addressable gr x' y' →
  tile_index gr x y = tile_index gr x' y' →
  pixel_index x y = pixel_index x' y' →
  x = x' ∧ y = y'.
Proof.
  intros Ha Ha' Ht Hp. unfold tile_index, pixel_index in *.
  apply addressable_bounds in Ha as (Hx & Hy & Hrx & Hry).
  apply addressable_bounds in Ha' as (Hx' & Hy' & Hrx' & Hry').
  unfold TILE_SIZE in *.
  pose proof (Z.quot_rem' x 256). pose proof (Z.quot_rem' y 256).
  pose proof (Z.quot_rem' x' 256). pose proof (Z.quot_rem' y' 256).
  assert (Z.rem y 256 = Z.rem y' 256 ∧ Z.rem x 256 = Z.rem x' 256) as [Hym Hxm] by lia.
  assert (Z.quot y 256 * TileGrid.tileCountX_ gr + Z.quot x 256
          = Z.quot y' 256 * TileGrid.tileCountX_ gr + Z.quot x' 256) as Ht' by nia.
  assert (Z.quot y 256 = Z.quot y' 256) as Hyd by nia.
  assert (Z.quot x 256 = Z.quot x' 256) as Hxd by nia.
  lia.
Qed.

Lemma in_image_addressable gr x y :
  TileGrid.wf gr → in_image gr x y → addressable gr x y.
Proof.
  intros Hwf Hin. destruct (in_image_out_of_range gr x y Hwf Hin) as [Ht Hl].
  unfold addressable, grid_out_of_range. by rewrite Ht, Hl.
Qed.

Lemma getPixel_const_addr gr x y :
  addressable gr x y →
  TileGrid.getPixel_const gr x y
  = (tl ← TileGrid.tiles_ gr !! tile_index gr x y;
     Tile.pixels_ tl !! pixel_index x y).
Proof.
  intros [Ht Hl]%addressable_split.
  unfold TileGrid.getPixel_const, TileGrid.getTile_const, Tile.at_const.
  rewrite Ht. fold (tile_index gr x y).
  destruct (TileGrid.tiles_ gr !! tile_index gr x y) as [tl|]; [|done].
  simpl. by rewrite Hl.
Qed.

Lemma getPixel_const_oor gr x y :
  TileGrid.wf gr → grid_out_of_range gr x y = true →
  TileGrid.getPixel_const gr x y = Some Pixel_default.
Proof.
  intros Hwf Hr. unfold grid_out_of_range in Hr.
  unfold TileGrid.getPixel_const, TileGrid.getTile_const.
  destruct (TileGrid.tile_out_of_range gr _ _) eqn:Ht.
  - simpl. apply Tile_at_const_new.
  - destruct (tile_in_range_lookup gr _ _ Hwf Ht) as (tl & -> & _). simpl.
    simpl in Hr. unfold Tile.at_const. by rewrite Hr.
Qed.

Lemma addressable_lookup gr x y :
  TileGrid.wf gr → addressable gr x y →
  ∃ tl q, TileGrid.tiles_ gr !! tile_index gr x y = Some tl
    ∧ Tile.wf tl
    ∧ Tile.pixels_ tl !! pixel_index x y = Some q
    ∧ TileGrid.getPixel_const gr x y = Some q.
Proof.
  intros Hwf Ha. pose proof Ha as [Ht Hl]%addressable_split.
  destruct (tile_in_range_lookup gr _ _ Hwf Ht) as (tl & Htl & Htw).
  destruct (stored_in_range tl _ _ Htw Hl) as [q Hq].
  exists tl, q. split_and!; try done.
  rewrite getPixel_const_addr by done. unfold tile_index. rewrite Htl. done.
Qed.

Lemma alter_insert_lookup {A} (f : A → A) (l : list A) i x :
  l !! i = Some x → alter f i l = <[i := f x]> l.
Proof.
  intros Hl. apply list_eq. intros j.
  destruct (decide (j = i)) as [->|Hne].
  - rewrite list_lookup_alter_eq, Hl, list_lookup_insert_eq by (by eapply lookup_lt_Some).
    done.
  - by rewrite list_lookup_alter_ne, list_lookup_insert_ne.
Qed.

Lemma grid_with_wf gr x y p : TileGrid.wf gr → TileGrid.wf (grid_with gr x y p).
Proof.
  intros (Hx & Hy & Hlen & Hall). unfold TileGrid.wf, grid_with.
  cbn [TileGrid.set_tiles TileGrid.tiles_ TileGrid.width_ TileGrid.height_
       TileGrid.tileCountX_ TileGrid.tileCountY_].
  split_and!; try done.
  - by rewrite length_alter.
  - apply Forall_alter; [done|]. intros tl _ Htl. unfold Tile.wf, tile_with.
    cbn [Tile.set_pixels Tile.pixels_]. by rewrite length_insert.
Qed.

Lemma grid_out_of_range_grid_with gr x y p x' y' :
  grid_out_of_range (grid_with gr x y p) x' y' = grid_out_of_range gr x' y'.
Proof. done. Qed.

Lemma tile_index_grid_with gr x y p x' y' :
  tile_index (grid_with gr x y p) x' y' = tile_index gr x' y'.
Proof. done. Qed.

Lemma getPixel_const_grid_with gr x y p x' y' :
  TileGrid.wf gr → addressable gr x y →
  TileGrid.getPixel_const (grid_with gr x y p) x' y'
  = if decide ((x', y') = (x, y)) then Some p else TileGrid.getPixel_const gr x' y'.
Proof.
  intros Hwf Ha.
  destruct (addressable_lookup gr x y Hwf Ha) as (tl & q & Htl & Htw & Hq & _).
  destruct (grid_out_of_range gr x' y') eqn:Hr.
  - rewrite (getPixel_const_oor gr x' y') by done.
    rewrite getPixel_const_oor; [|by apply grid_with_wf|done].
    case_decide as Heq; [|done]. injection Heq as -> ->.
    unfold addressable in Ha. congruence.
  - rewrite (getPixel_const_addr gr x' y') by done.
    rewrite getPixel_const_addr by done.
    rewrite tile_index_grid_with. unfold grid_with.
    cbn [TileGrid.set_tiles TileGrid.tiles_].
    destruct (decide (tile_index gr x' y' = tile_index gr x y)) as [Heq|Hneq].
    + rewrite Heq, list_lookup_alter_eq, Htl. cbn [fmap option_fmap option_map
        mbind option_bind tile_with Tile.set_pixels Tile.pixels_].
      destruct (decide (pixel_index x' y' = pixel_index x y)) as [Hpe|Hpne].
      * destruct (index_inj_addr gr x' y' x y Hr Ha Heq Hpe) as [-> ->].
        rewrite decide_True by done.
        apply list_lookup_insert_eq. by eapply lookup_lt_Some.
      * rewrite list_lookup_insert_ne by done.
        rewrite decide_False; [done|]. intros [= -> ->]. done.
    + rewrite list_lookup_alter_ne by done.
      rewrite decide_False; [done|]. intros [= -> ->]. done.
Qed.

(** What the mutable accessor returns, and what an assignment through the
    returned reference does. *)
Lemma getPixel_mut_addr gr st x y :
  TileGrid.wf gr → addressable gr x y →
  ∃ tl q,
    TileGrid.tiles_ gr !! tile_index gr x y = Some tl
    ∧ Tile.pixels_ tl !! pixel_index x y = Some q
    ∧ TileGrid.getPixel_const gr x y = Some q
    ∧ TileGrid.getPixel_mut gr st x y
      = Some (TileGrid.set_tiles
                (<[tile_index gr x y := Tile.setDirty true tl]> (TileGrid.tiles_ gr)) gr,
              st, (TileGrid.Own (tile_index gr x y), Tile.Stored (pixel_index x y)))
    ∧ TileGrid.load
        (TileGrid.set_tiles
           (<[tile_index gr x y := Tile.setDirty true tl]> (TileGrid.tiles_ gr)) gr)
        st (TileGrid.Own (tile_index gr x y), Tile.Stored (pixel_index x y))
      = Some q
    ∧ ∀ p, TileGrid.store
             (TileGrid.set_tiles
                (<[tile_index gr x y := Tile.setDirty true tl]> (TileGrid.tiles_ gr)) gr)
             st (TileGrid.Own (tile_index gr x y), Tile.Stored (pixel_index x y)) p
           = Some (grid_with gr x y p, st).
Proof.
  intros Hwf Ha.
  destruct (addressable_lookup gr x y Hwf Ha) as (tl & q & Htl & Htw & Hq & Hc).
  pose proof Ha as [Ht Hl]%addressable_split.
  exists tl, q. split_and!; try done.
  - unfold TileGrid.getPixel_mut, TileGrid.getTile_mut, Tile.at_mut.
    rewrite Ht, Hl. fold (tile_index gr x y). fold (pixel_index x y).
    cbn [TileGrid.deref]. rewrite Htl. done.
  - unfold TileGrid.load.
    cbn [fst snd TileGrid.deref TileGrid.set_tiles TileGrid.tiles_].
    rewrite list_lookup_insert_eq by (by eapply lookup_lt_Some).
    done.
  - intros p. unfold TileGrid.store.
    cbn [fst snd TileGrid.deref TileGrid.set_tiles TileGrid.tiles_].
    rewrite list_lookup_insert_eq by (by eapply lookup_lt_Some).
    cbn [mbind option_bind Tile.store Tile.setDirty Tile.pixels_].
    rewrite Hq. cbn [mbind option_bind TileGrid.update TileGrid.set_tiles
                     TileGrid.tiles_ TileGrid.width_ TileGrid.height_
                     TileGrid.tileCountX_ TileGrid.tileCountY_ dummy_tile].
    rewrite list_insert_insert_eq. unfold grid_with, TileGrid.set_tiles.
    rewrite (alter_insert_lookup _ _ _ tl) by done. by destruct st.
Qed.

Lemma getPixel_mut_oor gr st x y gr1 st1 rf :
  TileGrid.wf gr → grid_out_of_range gr x y = true →
  TileGrid.getPixel_mut gr st x y = Some (gr1, st1, rf) →
  gr1 = gr
  ∧ ∀ p gr2 st2, TileGrid.store gr1 st1 rf p = Some (gr2, st2) → gr2 = gr.
Proof.
  intros Hwf Hr H. unfold grid_out_of_range in Hr.
  unfold TileGrid.getPixel_mut, TileGrid.getTile_mut in H.
  destruct (TileGrid.tile_out_of_range gr _ _) eqn:Ht.
  - cbn [TileGrid.deref mbind option_bind] in H.
    destruct (Tile.at_mut _ _ _) as [tl' pr]. cbn [TileGrid.update] in H.
    simplify_eq. split; [done|]. intros p gr2 st2 Hs.
    unfold TileGrid.store in Hs.
    cbn [fst snd TileGrid.deref mbind option_bind dummy_tile] in Hs.
    destruct (Tile.store _ _ _ _) as [[tl2 d2]|]; [|done].
    cbn [mbind option_bind TileGrid.update] in Hs. by simplify_eq.
  - simpl in Hr.
    destruct (tile_in_range_lookup gr _ _ Hwf Ht) as (tl & Htl & _).
    cbn [TileGrid.deref] in H. rewrite Htl in H. cbn [mbind option_bind] in H.
    unfold Tile.at_mut in H. rewrite Hr in H. cbn [TileGrid.update] in H.
    rewrite set_tiles_id in H by done. simplify_eq. split; [done|].
    intros p gr2 st2 Hs. unfold TileGrid.store in Hs.
    cbn [fst snd TileGrid.deref] in Hs. rewrite Htl in Hs.
    cbn [mbind option_bind Tile.store TileGrid.update] in Hs.
    rewrite set_tiles_id in Hs by done. by simplify_eq.
Qed.

(** One read-modify-write through the mutable accessor, as the kernels do
    it. *)
Lemma access_step gr st x y gr1 st1 rf dest p gr2 st2 :
  TileGrid.wf gr →
  TileGrid.getPixel_mut gr st x y = Some (gr1, st1, rf) →
  TileGrid.load gr1 st1 rf = Some dest →
  TileGrid.store gr1 st1 rf p = Some (gr2, st2) →
  (addressable gr x y ∧ TileGrid.getPixel_const gr x y = Some dest
   ∧ gr2 = grid_with gr x y p ∧ st2 = st)
  ∨ (grid_out_of_range gr x y = true ∧ gr2 = gr).
Proof.
  intros Hwf Hg Hl Hs. destruct (grid_out_of_range gr x y) eqn:Hr.
  - right. split; [done|].
    destruct (getPixel_mut_oor gr st x y gr1 st1 rf Hwf Hr Hg) as [_ H].
    by eapply H.
  - left. destruct (getPixel_mut_addr gr st x y Hwf Hr)
      as (tl & q & Htl & Hq & Hc & Hg' & Hl' & Hs').
    rewrite Hg' in Hg. injection Hg as <- <- <-.
    rewrite Hl' in Hl. rewrite Hs' in Hs. by simplify_eq.
Qed.

(** X2.  In a well-formed grid, a pixel assigned through the mutable
    [getPixel] at coordinates of an allocated tile is read back by both
    accessors, every other pixel reads as before, the grid keeps its
    dimensions and stays well-formed, and the statics are untouched. *)
Theorem grid_write_then_read
    (gr : TileGrid.t) (st : Statics) (x y : Z) (p : Pixel)
    (Hwf : TileGrid.wf gr) (Ha : addressable gr x y) :
  ∃ gr', write_at gr st x y p = Some (gr', st)
    ∧ TileGrid.wf gr'
    ∧ TileGrid.width_ gr' = TileGrid.width_ gr
    ∧ TileGrid.height_ gr' = TileGrid.height_ gr
    ∧ TileGrid.getPixel_const gr' x y = Some p
    ∧ read_at gr' st x y = Some p
    ∧ ∀ x' y', (x', y') ≠ (x, y) →
        TileGrid.getPixel_const gr' x' y' = TileGrid.getPixel_const gr x' y'.
Proof.
  destruct (getPixel_mut_addr gr st x y Hwf Ha) as (tl & q & Htl & Hq & Hc & Hg & Hl & Hs).
  exists (grid_with gr x y p).
  assert (TileGrid.wf (grid_with gr x y p)) as Hwf' by (by apply grid_with_wf).
  split_and!; try done.
  - unfold write_at. rewrite Hg. cbn [mbind option_bind]. apply Hs.
  - rewrite getPixel_const_grid_with by done. by rewrite decide_True.
  - assert (addressable (grid_with gr x y p) x y) as Ha' by done.
    destruct (getPixel_mut_addr (grid_with gr x y p) st x y Hwf' Ha')
      as (tl' & q' & _ & _ & Hc' & Hg' & Hl' & _).
    unfold read_at. rewrite Hg'. cbn [mbind option_bind]. rewrite Hl'.
    rewrite getPixel_const_grid_with, decide_True in Hc' by done. done.
  - intros x' y' Hne. rewrite getPixel_const_grid_with by done.
    by rewrite decide_False.
Qed.

(** The theorem at a white pixel written to (10, 20) of the 100 x 100
    grid. *)
Lemma grid_write_then_read_witness :
  ∃ gr', write_at grid100 Statics_init 10 20 white = Some (gr', Statics_init)
    ∧ TileGrid.getPixel_const gr' 10 20 = Some white
    ∧ read_at gr' Statics_init 10 20 = Some white.
Proof.
  destruct (grid_write_then_read grid100 Statics_init 10 20 white)
    as (gr' & Hwrite & _ & _ & _ & Hconst & Hread & _).
  - apply (bool_decide_eq_true_1 _). vm_compute. reflexivity.
  - reflexivity.
  - exists gr'. split; [exact Hwrite|]. split; [exact Hconst|exact Hread].
Defined.

(** ** Dirty flags *)

Lemma getPixel_const_ext gr gr' :
  TileGrid.tileCountX_ gr' = TileGrid.tileCountX_ gr →
  TileGrid.tileCountY_ gr' = TileGrid.tileCountY_ gr →
  Tile.pixels_ <$> TileGrid.tiles_ gr' = Tile.pixels_ <$> TileGrid.tiles_ gr →
  ∀ x y, TileGrid.getPixel_const gr' x y = TileGrid.getPixel_const gr x y.
Proof.
  intros Hx Hy Hpx x y.
  unfold TileGrid.getPixel_const, TileGrid.getTile_const, TileGrid.tile_out_of_range.
  rewrite Hx, Hy. case_match; [done|].
  pose proof (f_equal (λ l, l !! Z.to_nat (Z.quot y TILE_SIZE * TileGrid.tileCountX_ gr
                                          + Z.quot x TILE_SIZE)) Hpx) as Hl.
  simpl in Hl. rewrite !list_lookup_fmap in Hl.
  destruct (TileGrid.tiles_ gr' !! _) as [tl'|], (TileGrid.tiles_ gr !! _) as [tl|];
    simpl in *; try done.
  unfold Tile.at_const. injection Hl as ->. done.
Qed.

Lemma getDirtyTiles_nil gr :
  TileGrid.getDirtyTiles gr = [] ↔ Forall (λ tl, Tile.dirty_ tl = false) (TileGrid.tiles_ gr).
Proof.
  unfold TileGrid.getDirtyTiles. induction (TileGrid.tiles_ gr) as [|tl l IH].
  - split; [constructor|done].
  - rewrite filter_cons. destruct (decide (Tile.dirty_ tl = true)) as [Hd|Hd].
    + split; [done|]. intros [Hf _]%Forall_cons. congruence.
    + rewrite IH. split.
      * intros H. constructor; [by destruct (Tile.dirty_ tl)|done].
      * by intros [_ H]%Forall_cons.
Qed.

Lemma filter_insert_clean (l : list Tile.t) i tl :
  Forall (λ tl, Tile.dirty_ tl = false) l → (i < length l)%nat →
  Tile.dirty_ tl = true →
  filter (λ tl, Tile.dirty_ tl = true) (<[i := tl]> l) = [tl].
Proof.
  intros Hall Hi Hd.
  rewrite insert_take_drop by done.
  rewrite filter_app, filter_cons, decide_True by done.
  assert (∀ l', Forall (λ tl, Tile.dirty_ tl = false) l' →
                filter (λ tl, Tile.dirty_ tl = true) l' = []) as Hnil.
  { intros l' Hl'. induction Hl' as [|t l' Ht _ IH]; [done|].
    rewrite filter_cons, decide_False by congruence. done. }
  rewrite (Hnil (take i l)) by (by apply Forall_take).
  rewrite (Hnil (drop (S i) l)) by (by apply Forall_drop).
  done.
Qed.

(** X3.  In a well-formed grid with no dirty tile, one call of the mutable
    [getPixel] at coordinates of an allocated tile makes [getDirtyTiles]
    return exactly the tile of that pixel, although no pixel value has
    changed; [clearDirtyFlags] then empties the list again. *)
Theorem mutable_access_marks_its_tile_dirty
    (gr : TileGrid.t) (st : Statics) (x y : Z)
    (Hwf : TileGrid.wf gr) (Ha : addressable gr x y)
    (Hclean : TileGrid.getDirtyTiles gr = []) :
  ∃ gr1 rf tl, TileGrid.getPixel_mut gr st x y = Some (gr1, st, rf)
    ∧ TileGrid.tiles_ gr !! tile_index gr x y = Some tl
    ∧ TileGrid.getDirtyTiles gr1 = [Tile.setDirty true tl]
    ∧ (∀ x' y', TileGrid.getPixel_const gr1 x' y' = TileGrid.getPixel_const gr x' y')
    ∧ TileGrid.getDirtyTiles (TileGrid.clearDirtyFlags gr1) = [].
Proof.
  destruct (getPixel_mut_addr gr st x y Hwf Ha) as (tl & q & Htl & Hq & Hc & Hg & Hl & Hs).
  eexists _, _, tl. split; [exact Hg|]. split; [done|].
  split_and!.
  - unfold TileGrid.getDirtyTiles. cbn [TileGrid.set_tiles TileGrid.tiles_].
    apply filter_insert_clean; [by apply getDirtyTiles_nil|by eapply lookup_lt_Some|done].
  - apply getPixel_const_ext; try done.
    cbn [TileGrid.set_tiles TileGrid.tiles_].
    rewrite list_fmap_insert. cbn [Tile.setDirty Tile.pixels_].
    apply list_insert_id. by rewrite list_lookup_fmap, Htl.
  - apply getDirtyTiles_nil. unfold TileGrid.clearDirtyFlags.
    cbn [TileGrid.set_tiles TileGrid.tiles_].
    apply Forall_fmap, Forall_forall. by intros t _.
Qed.

(** The theorem at the pixel (10, 20) of the new 100 x 100 grid. *)
Lemma mutable_access_marks_its_tile_dirty_witness :
  ∃ gr1 rf tl,
    TileGrid.getPixel_mut grid100 Statics_init 10 20 = Some (gr1, Statics_init, rf)
    ∧ TileGrid.getDirtyTiles gr1 = [Tile.setDirty true tl]
    ∧ TileGrid.getDirtyTiles (TileGrid.clearDirtyFlags gr1) = [].
Proof.
  destruct (mutable_access_marks_its_tile_dirty grid100 Statics_init 10 20)
    as (gr1 & rf & tl & Hget & _ & Hdirty & _ & Hclear).
  - apply (bool_decide_eq_true_1 _). vm_compute. reflexivity.
  - reflexivity.
  - vm_compute. reflexivity.
  - exists gr1, rf, tl. split; [exact Hget|]. split; [exact Hdirty|exact Hclear].
Defined.

(** ** fill and clear *)

Lemma TileGrid_fill_wf gr color :
  TileGrid.wf gr → TileGrid.wf (TileGrid.fill color gr).
Proof.
  intros (Hx & Hy & Hlen & Hall). unfold TileGrid.wf, TileGrid.fill.
  cbn [TileGrid.set_tiles TileGrid.tiles_ TileGrid.width_ TileGrid.height_
       TileGrid.tileCountX_ TileGrid.tileCountY_].
  split_and!; try done.
  - by rewrite length_fmap.
  - apply Forall_fmap. eapply Forall_impl; [exact Hall|].
    intros tl Htl. unfold compose, Tile.wf, Tile.fill in *. cbn [Tile.pixels_].
    by rewrite length_replicate.
Qed.

Lemma getPixel_const_fill gr color x y :
  TileGrid.wf gr → addressable gr x y →
  TileGrid.getPixel_const (TileGrid.fill color gr) x y = Some color.
Proof.
  intros Hwf Ha.
  destruct (addressable_lookup gr x y Hwf Ha) as (tl & q & Htl & Htw & Hq & _).
  assert (addressable (TileGrid.fill color gr) x y) as Ha' by done.
  rewrite getPixel_const_addr by done.
  change (tile_index (TileGrid.fill color gr) x y) with (tile_index gr x y).
  unfold TileGrid.fill. cbn [TileGrid.set_tiles TileGrid.tiles_].
  rewrite list_lookup_fmap, Htl. cbn [fmap option_fmap option_map mbind option_bind
    Tile.fill Tile.pixels_].
  apply lookup_replicate_2. by eapply lookup_lt_Some.
Qed.

(** X4.  [fill] on a well-formed grid sets every pixel of every allocated
    tile, also those beyond the image width and height, to the colour,
    flags every tile dirty and keeps the grid well-formed; coordinates
    outside the allocated tiles still read as the default pixel.  [clear]
    is [fill] with the default pixel. *)
Theorem fill_sets_every_allocated_pixel
    (gr : TileGrid.t) (color : Pixel) (Hwf : TileGrid.wf gr) :
  TileGrid.wf (TileGrid.fill color gr)
  ∧ (∀ x y, addressable gr x y →
       TileGrid.getPixel_const (TileGrid.fill color gr) x y = Some color)
  ∧ (∀ x y, grid_out_of_range gr x y = true →
       TileGrid.getPixel_const (TileGrid.fill color gr) x y = Some Pixel_default)
  ∧ TileGrid.getDirtyTiles (TileGrid.fill color gr)
    = TileGrid.tiles_ (TileGrid.fill color gr)
  ∧ TileGrid.clear gr = TileGrid.fill Pixel_default gr.
Proof.
  pose proof (TileGrid_fill_wf gr color Hwf) as Hwf'.
  split_and!; try done.
  - intros x y Ha. by apply getPixel_const_fill.
  - intros x y Hr. by apply getPixel_const_oor.
  - unfold TileGrid.getDirtyTiles, TileGrid.fill.
    cbn [TileGrid.set_tiles TileGrid.tiles_].
    induction (TileGrid.tiles_ gr) as [|tl l IH]; [done|].
    rewrite fmap_cons, filter_cons, decide_True by done. by rewrite IH.
Qed.

(** The theorem at the 100 x 100 grid filled with white: the pixel
    (255, 255) lies outside the image and inside the tile. *)
Lemma fill_sets_every_allocated_pixel_witness :
  TileGrid.getPixel_const (TileGrid.fill white grid100) 255 255 = Some white
  ∧ TileGrid.getPixel_const (TileGrid.fill white grid100) 256 0 = Some Pixel_default.
Proof.
  destruct (fill_sets_every_allocated_pixel grid100 white) as (_ & Hin & Hout & _).
  - apply (bool_decide_eq_true_1 _). vm_compute. reflexivity.
  - split; [apply Hin|apply Hout]; reflexivity.
Defined.

(** ** Construction of grids *)

(** X1.  For a width and a height that are not negative, the constructed
    grid is well-formed, has ceil(width / 256) by ceil(height / 256) tiles,
    stored row by row, the tile [(tx, ty)] being a clean default tile at
    position [(256 tx, 256 ty)]; every pixel of the image lies in an
    allocated tile, and no tile is dirty. *)
Theorem new_grid_geometry (width height : Z) (Hw : 0 ≤ width) (Hh : 0 ≤ height) :
  let gr := TileGrid.new width height in
  TileGrid.wf gr
  ∧ TileGrid.tileCountX_ gr = (width + 255) / 256
  ∧ TileGrid.tileCountY_ gr = (height + 255) / 256
  ∧ Z.of_nat (length (TileGrid.tiles_ gr))
    = ((width + 255) / 256) * ((height + 255) / 256)
  ∧ (∀ tx ty, 0 ≤ tx < (width + 255) / 256 → 0 ≤ ty < (height + 255) / 256 →
       TileGrid.getTile_const gr tx ty = Some (Tile.new (tx * 256) (ty * 256)))
  ∧ (∀ x y, 0 ≤ x < width → 0 ≤ y < height → addressable gr x y)
  ∧ TileGrid.getDirtyTiles gr = [].
Proof.
  intros gr.
  assert (TileGrid.wf gr) as Hwf by apply TileGrid_wf_new.
  assert (TileGrid.tileCountX_ gr = (width + 255) / 256) as Hcx.
  { unfold gr, TileGrid.new, TILE_SIZE. cbn [TileGrid.tileCountX_].
    rewrite Z.quot_div_nonneg by lia. f_equal. lia. }
  assert (TileGrid.tileCountY_ gr = (height + 255) / 256) as Hcy.
  { unfold gr, TileGrid.new, TILE_SIZE. cbn [TileGrid.tileCountY_].
    rewrite Z.quot_div_nonneg by lia. f_equal. lia. }
  assert (0 ≤ (width + 255) / 256) by (apply Z.div_pos; lia).
  assert (0 ≤ (height + 255) / 256) by (apply Z.div_pos; lia).
  split_and!; try done.
  - destruct Hwf as (_ & _ & Hlen & _). rewrite Hlen, Hcx, Hcy.
    rewrite Nat2Z.inj_mul, !Z2Nat.id by lia. lia.
  - intros tx ty Htx Hty. rewrite getTile_const_in_range by lia.
    unfold gr, TileGrid.new. cbn [TileGrid.tiles_ TileGrid.tileCountX_].
    pose proof (grid_enum_lookup_Z
                  (λ ty tx, Tile.new (tx * TILE_SIZE) (ty * TILE_SIZE))
                  (Z.quot (height + TILE_SIZE - 1) TILE_SIZE)
                  (Z.quot (width + TILE_SIZE - 1) TILE_SIZE) ty tx) as Hl.
    unfold grid_enum in Hl. rewrite Hl; [done| |].
    + unfold TILE_SIZE. rewrite Z.quot_div_nonneg by lia.
      by replace (height + 256 - 1) with (height + 255) by lia.
    + unfold TILE_SIZE. rewrite Z.quot_div_nonneg by lia.
      by replace (width + 256 - 1) with (width + 255) by lia.
  - intros x y Hx Hy. apply in_image_addressable; [done|]. by split.
  - apply getDirtyTiles_nil. unfold gr, TileGrid.new. cbn [TileGrid.tiles_].
    apply Forall_forall. intros tl Htl.
    apply list_elem_of_lookup in Htl as [i Hi].
    apply (grid_enum_lookup_inv_Z
             (λ ty tx, Tile.new (tx * TILE_SIZE) (ty * TILE_SIZE)))
      in Hi as (ty & tx & _ & _ & _ & ->).
    done.
Qed.

(** The theorem at a 300 x 200 grid: two tiles in one row. *)
Lemma new_grid_geometry_witness :
  TileGrid.tileCountX_ (TileGrid.new 300 200) = 2
  ∧ TileGrid.tileCountY_ (TileGrid.new 300 200) = 1
  ∧ TileGrid.getTile_const (TileGrid.new 300 200) 1 0 = Some (Tile.new 256 0)
  ∧ TileGrid.getDirtyTiles (TileGrid.new 300 200) = [].
Proof.
  destruct (new_grid_geometry 300 200) as (_ & Hx & Hy & _ & Htile & _ & Hclean);
    [lia|lia|].
  split; [exact Hx|]. split; [exact Hy|]. split; [|exact Hclean].
  apply (Htile 1 0); (split; [lia|reflexivity]).
Defined.

(** ** In-place arithmetic *)

Lemma zip_pixels_Some f ps : ∀ qs,
  (length ps ≤ length qs)%nat → Tile.zip_pixels f ps qs = Some (zip_with f ps qs).
Proof.
  induction ps as [|p ps IH]; intros qs Hl; [done|].
  destruct qs as [|q qs]; simpl in Hl; [lia|].
  simpl. rewrite IH by lia. done.
Qed.

Lemma add_channel_range c d :
  0 ≤ c < 65536 → 0 ≤ d < 65536 → 0 ≤ Tile.add_channel c d < 65536.
Proof.
  intros Hc Hd. rewrite add_channel_wraps by done. apply Z.mod_pos_bound. lia.
Qed.

Lemma sub_add_channel c d :
  0 ≤ c < 65536 → 0 ≤ d < 65536 → Tile.sub_channel (Tile.add_channel c d) d = c.
Proof.
  intros Hc Hd. rewrite sub_channel_wraps by (by try apply add_channel_range).
  rewrite add_channel_wraps by done.
  rewrite Zminus_mod_idemp_l. replace (c + d - d) with c by lia.
  by apply Z.mod_small.
Qed.

(** X5.  For full tiles whose channels are 16-bit values, [tile += other]
    followed by [tile -= other] succeeds and restores every pixel of
    [tile], also where the sum exceeds 65535, because both operators wrap
    around instead of saturating; the tile is left dirty. *)
Theorem tile_add_then_sub_restores
    (tl other : Tile.t)
    (Hwf : Tile.wf tl) (Hwf' : Tile.wf other)
    (Hok : Forall Pixel_ok (Tile.pixels_ tl))
    (Hok' : Forall Pixel_ok (Tile.pixels_ other)) :
  ∃ t1 t2, Tile.add_assign tl other = Some t1
    ∧ Tile.sub_assign t1 other = Some t2
    ∧ Tile.pixels_ t2 = Tile.pixels_ tl
    ∧ Tile.dirty_ t2 = true.
Proof.
  unfold Tile.add_assign, Tile.sub_assign.
  rewrite zip_pixels_Some by (unfold Tile.wf in *; lia).
  cbn [mbind option_bind]. eexists _, _. split; [done|].
  cbn [Tile.setDirty Tile.set_pixels Tile.pixels_ Tile.dirty_].
  rewrite zip_pixels_Some
    by (rewrite length_zip_with; unfold Tile.wf in *; lia).
  cbn [mbind option_bind]. split; [done|].
  cbn [Tile.setDirty Tile.set_pixels Tile.pixels_ Tile.dirty_].
  split; [|done].
  unfold Tile.wf in *. rewrite <- Hwf' in Hwf. clear Hwf'.
  revert Hwf Hok Hok'. generalize (Tile.pixels_ other).
  induction (Tile.pixels_ tl) as [|p ps IH]; intros qs Hlen Hps Hqs; [done|].
  destruct qs as [|q qs]; [done|]. simpl in Hlen.
  apply Forall_cons in Hps as [(Hr & Hg & Hb & Ha) Hps].
  apply Forall_cons in Hqs as [(Hr' & Hg' & Hb' & Ha') Hqs].
  simpl. rewrite IH by (done || lia). f_equal.
  unfold Tile.sub_pixel, Tile.add_pixel. cbn [r g b a].
  rewrite !sub_add_channel by done. by destruct p.
Qed.

(** The theorem at 65000 + 1000, which wraps around to 464. *)
Lemma tile_add_then_sub_restores_witness :
  ∃ t1 t2, Tile.add_assign (flat_tile 65000) (flat_tile 1000) = Some t1
    ∧ Tile.sub_assign t1 (flat_tile 1000) = Some t2
    ∧ Tile.pixels_ t2 = Tile.pixels_ (flat_tile 65000).
Proof.
  destruct (tile_add_then_sub_restores (flat_tile 65000) (flat_tile 1000))
    as (t1 & t2 & Hadd & Hsub & Hpx & _).
  - apply (bool_decide_eq_true_1 _). vm_compute. reflexivity.
  - apply (bool_decide_eq_true_1 _). vm_compute. reflexivity.
  - apply Forall_replicate. unfold Pixel_ok. simpl. lia.
  - apply Forall_replicate. unfold Pixel_ok. simpl. lia.
  - exists t1, t2. split; [exact Hadd|]. split; [exact Hsub|exact Hpx].
Defined.

(** X6.  On full tiles [+=] and [-=] always succeed, and they are exact
    wherever the result fits: a pixel whose channel sums are at most 65535
    gets those sums, and a pixel whose channel differences are not
    negative gets those differences. *)
Theorem tile_arithmetic_is_exact_in_range
    (tl other : Tile.t) (Hwf : Tile.wf tl) (Hwf' : Tile.wf other) :
  ∃ t1 t2, Tile.add_assign tl other = Some t1
    ∧ Tile.sub_assign tl other = Some t2
    ∧ ∀ i p q, Tile.pixels_ tl !! i = Some p → Tile.pixels_ other !! i = Some q →
        Pixel_ok p → Pixel_ok q →
        (sum_fits p q →
         Tile.pixels_ t1 !! i
         = Some (mkPixel (r p + r q) (g p + g q) (b p + b q) (a p + a q)))
        ∧ (diff_fits p q →
           Tile.pixels_ t2 !! i
           = Some (mkPixel (r p - r q) (g p - g q) (b p - b q) (a p - a q))).
Proof.
  unfold Tile.add_assign, Tile.sub_assign.
  rewrite !zip_pixels_Some by (unfold Tile.wf in *; lia).
  cbn [mbind option_bind]. eexists _, _. split; [done|]. split; [done|].
  cbn [Tile.setDirty Tile.set_pixels Tile.pixels_].
  intros i p q Hp Hq (Hr & Hg & Hb & Ha) (Hr' & Hg' & Hb' & Ha').
  rewrite !lookup_zip_with, Hp, Hq. cbn [mbind option_bind].
  split.
  - intros (Fr & Fg & Fb & Fa). f_equal. unfold Tile.add_pixel.
    rewrite !add_channel_wraps by done. rewrite !Z.mod_small by lia. done.
  - intros (Fr & Fg & Fb & Fa). f_equal. unfold Tile.sub_pixel.
    rewrite !sub_channel_wraps by done. rewrite !Z.mod_small by lia. done.
Qed.

(** The theorem at 100 + 20 and 100 - 20. *)
Lemma tile_arithmetic_is_exact_in_range_witness :
  ∃ t1 t2, Tile.add_assign (flat_tile 100) (flat_tile 20) = Some t1
    ∧ Tile.sub_assign (flat_tile 100) (flat_tile 20) = Some t2
    ∧ Tile.pixels_ t1 !! 0%nat = Some (gray 120)
    ∧ Tile.pixels_ t2 !! 0%nat = Some (gray 80).
Proof.
  destruct (tile_arithmetic_is_exact_in_range (flat_tile 100) (flat_tile 20))
    as (t1 & t2 & Hadd & Hsub & Hexact).
  - apply (bool_decide_eq_true_1 _). vm_compute. reflexivity.
  - apply (bool_decide_eq_true_1 _). vm_compute. reflexivity.
  - exists t1, t2. split; [exact Hadd|]. split; [exact Hsub|].
    destruct (Hexact 0%nat (gray 100) (gray 20)) as [Hsum Hdiff].
    + reflexivity.
    + reflexivity.
    + unfold Pixel_ok. simpl. lia.
    + unfold Pixel_ok. simpl. lia.
    + split; [apply Hsum|apply Hdiff].
      * unfold sum_fits. simpl. lia.
      * unfold diff_fits. simpl. lia.
Defined.

(** ** Matrix conversion of a tile *)

Lemma insert_take_drop_step {A} (src tgt : list A) n p :
  src !! n = Some p → length tgt = length src →
  <[n := p]> (take n src ++ drop n tgt) = take (S n) src ++ drop (S n) tgt.
Proof.
  intros Hp Hlen. pose proof (lookup_lt_Some _ _ _ Hp) as Hn.
  assert (length (take n src) = n) as Ht by (rewrite length_take; lia).
  rewrite insert_app_r_alt by lia. rewrite Ht, Nat.sub_diag.
  destruct (lookup_lt_is_Some_2 tgt n) as [q Hq]; [lia|].
  rewrite (drop_S tgt q n Hq). cbn [insert list_insert].
  rewrite (take_S_r src n p Hp), <- app_assoc. done.
Qed.

Lemma Tile_toMat_spec tl :
  Tile.wf tl →
  ∃ m, Tile_toMat tl = Some m
    ∧ Mat.rows m = TILE_SIZE ∧ Mat.cols m = TILE_SIZE
    ∧ ∀ x y p, 0 ≤ x < TILE_SIZE → 0 ≤ y < TILE_SIZE →
        Tile.pixels_ tl !! Z.to_nat (y * TILE_SIZE + x) = Some p →
        Mat.at_ m y x = Some (to_vec p).
Proof.
  intros Hwf.
  set (px := λ x y, default Pixel_default (Tile.at_const tl x y)).
  set (rws := (λ y, (λ x, to_vec (px x y)) <$> seqZ 0 TILE_SIZE) <$> seqZ 0 TILE_SIZE).
  exists (Mat.mk TILE_SIZE TILE_SIZE rws).
  split_and!; try done.
  - unfold Tile_toMat.
    assert (mapM (λ y, mapM (λ x, p ← Tile.at_const tl x y;
                                  Some (Mat.vec (b p) (g p) (r p) (a p)))
                         (seqZ 0 TILE_SIZE))
                 (seqZ 0 TILE_SIZE) = Some rws) as ->; [|done].
    apply mapM_Some_2, Forall2_fmap_r, Forall_Forall2_diag, Forall_forall.
    intros y Hy%elem_of_seqZ.
    apply mapM_Some_2, Forall2_fmap_r, Forall_Forall2_diag, Forall_forall.
    intros x Hx%elem_of_seqZ.
    assert (Tile.out_of_range x y = false) as Hr
      by (unfold Tile.out_of_range; lia).
    destruct (stored_in_range tl x y Hwf Hr) as [p Hp].
    unfold compose, px, Tile.at_const. rewrite Hr, Hp. done.
  - intros x y p Hx Hy Hp. unfold Mat.at_. cbn [Mat.data].
    replace (y <? 0) with false by lia. replace (x <? 0) with false by lia.
    cbn [orb]. unfold rws.
    rewrite list_lookup_fmap, lookup_seqZ_lt by lia. cbn [fmap option_fmap option_map
      mbind option_bind].
    rewrite list_lookup_fmap, lookup_seqZ_lt by lia. cbn [fmap option_fmap option_map].
    unfold px, Tile.at_const.
    rewrite !Z.add_0_l, !Z2Nat.id by lia.
    replace (Tile.out_of_range x y) with false by (unfold Tile.out_of_range; lia).
    by rewrite Hp.
Qed.

(** X7.  [Tile::toMat] of a full tile succeeds and gives a 256 x 256
    matrix; [Tile::fromMat] of that matrix into any full tile succeeds and
    leaves that tile with exactly the pixels of the first one, its own
    position and the dirty flag set, the static dummy pixel untouched. *)
Theorem tile_matrix_round_trip
    (tl target : Tile.t) (d : Pixel) (Hwf : Tile.wf tl) (Hwt : Tile.wf target) :
  ∃ m, Tile_toMat tl = Some m
    ∧ Mat.rows m = 256 ∧ Mat.cols m = 256
    ∧ Tile_fromMat target d m
      = Some (Tile.mk (Tile.pixels_ tl) (Tile.x_ target) (Tile.y_ target) true, d).
Proof.
  destruct (Tile_toMat_spec tl Hwf) as (m & Hm & Hrows & Hcols & Hat).
  exists m. split_and!; try done.
  unfold Tile_fromMat. rewrite Hrows, Hcols, Z.eqb_refl. cbn [negb orb].
  set (src := Tile.pixels_ tl). set (tgt := Tile.pixels_ target).
  assert (Z.of_nat (length src) = 65536) as Hls
    by (unfold src; rewrite Hwf; unfold TILE_SIZE; lia).
  assert (Z.of_nat (length tgt) = 65536) as Hlt
    by (unfold tgt; rewrite Hwt; unfold TILE_SIZE; lia).
  set (I := λ (n : Z) (s : Tile.t * Pixel),
         Tile.pixels_ s.1 = take (Z.to_nat n) src ++ drop (Z.to_nat n) tgt
         ∧ Tile.x_ s.1 = Tile.x_ target ∧ Tile.y_ s.1 = Tile.y_ target
         ∧ s.2 = d).
  destruct (for_range_invariant (λ y, I (y * TILE_SIZE)) 0 TILE_SIZE
              (λ y, for_range 0 TILE_SIZE (λ x (s : Tile.t * Pixel),
                 px ← Mat.at_ m y x;
                 let '(tl1, rf) := Tile.at_mut s.1 x y in
                 Tile.store tl1 s.2 rf
                   (mkPixel (Mat.c2 px) (Mat.c1 px) (Mat.c0 px) (Mat.c3 px))))
              (target, d)) as ([t d'] & Hloop & Hp & Hx & Hy & Hd).
  - done.
  - unfold I. cbn [fst snd]. by rewrite take_0, drop_0.
  - intros y s Hy HI.
    destruct (for_range_invariant (λ x, I (y * TILE_SIZE + x)) 0 TILE_SIZE
                (λ x (s : Tile.t * Pixel),
                   px ← Mat.at_ m y x;
                   let '(tl1, rf) := Tile.at_mut s.1 x y in
                   Tile.store tl1 s.2 rf
                     (mkPixel (Mat.c2 px) (Mat.c1 px) (Mat.c0 px) (Mat.c3 px)))
                s) as (s' & Hrow & HI').
    + done.
    + by rewrite Z.add_0_r.
    + intros x [t0 d0] Hx (Hp0 & Hx0 & Hy0 & Hd0). cbn [fst snd] in *. subst d0.
      set (n := Z.to_nat (y * TILE_SIZE + x)) in *.
      assert (Z.of_nat n < 65536) as Hn by (unfold n, TILE_SIZE in *; lia).
      destruct (lookup_lt_is_Some_2 src n) as [p Hsrc]; [lia|].
      rewrite (Hat x y p) by done. cbn [mbind option_bind to_vec Mat.c0 Mat.c1
        Mat.c2 Mat.c3].
      unfold Tile.at_mut.
      replace (Tile.out_of_range x y) with false
        by (unfold Tile.out_of_range, TILE_SIZE in *; lia).
      fold n. cbn [Tile.store Tile.setDirty Tile.pixels_].
      destruct (lookup_lt_is_Some_2 (Tile.pixels_ t0) n) as [q Hq].
      { rewrite Hp0, length_app, length_take, length_drop. lia. }
      rewrite Hq. cbn [mbind option_bind]. eexists. split; [done|].
      unfold I. cbn [fst snd Tile.set_pixels Tile.pixels_ Tile.x_ Tile.y_].
      split_and!; try done.
      rewrite Hp0. replace (Z.to_nat (y * TILE_SIZE + (x + 1))) with (S n)
        by (unfold n, TILE_SIZE in *; lia).
      replace (mkPixel (r p) (g p) (b p) (a p)) with p by (by destruct p).
      apply insert_take_drop_step; [done|lia].
    + exists s'. split; [done|].
      replace ((y + 1) * TILE_SIZE) with (y * TILE_SIZE + TILE_SIZE) by lia. done.
  - rewrite Hloop. cbn [mbind option_bind fst snd] in *. subst d'.
    f_equal. f_equal. destruct t as [ps tx ty dr]. cbn in *. subst.
    f_equal. unfold TILE_SIZE.
    rewrite take_ge, drop_ge by lia. by rewrite app_nil_r.
Qed.

(** The theorem at a gray tile loaded into the dark tile. *)
Lemma tile_matrix_round_trip_witness :
  ∃ m, Tile_toMat (flat_tile 7) = Some m
    ∧ Tile_fromMat dark_tile Pixel_default m
      = Some (Tile.mk (Tile.pixels_ (flat_tile 7)) 0 0 true, Pixel_default).
Proof.
  destruct (tile_matrix_round_trip (flat_tile 7) dark_tile Pixel_default)
    as (m & Hto & _ & _ & Hfrom).
  - apply (bool_decide_eq_true_1 _). vm_compute. reflexivity.
  - apply (bool_decide_eq_true_1 _). vm_compute. reflexivity.
  - exists m. split; [exact Hto|exact Hfrom].
Defined.

(** ** What a stamp can change *)

Lemma for_each_preserves_in {A S} (I : S → Prop) (body : A → S → option S) l :
  (∀ i s s', i ∈ l → body i s = Some s' → I s → I s') →
  ∀ s s', for_each l body s = Some s' → I s → I s'.
Proof.
  induction l as [|i l IH]; intros Hstep s s' Hl HI; simpl in Hl.
  - by simplify_eq.
  - destruct (body i s) as [s1|] eqn:Hb; [|done]. simpl in Hl.
    eapply IH; [|done|].
    + intros j s2 s3 Hj. apply Hstep. by right.
    + eapply Hstep; [by left|done..].
Qed.

Section StampProofs.
Context (J : TileGrid.t → Prop).
Context (width height : Z) (size opacity : spec_float).
Context (paint : spec_float → Pixel → option Pixel).
Context (points : list (Z * Z)).

Hypothesis J_step : ∀ gr point x y dest p alpha radius,
  point ∈ points →
  stamp_radius size = Some radius → TileGrid.wf gr → J gr →
  0 ≤ x < width → 0 ≤ y < height → in_stamp radius point x y →
  addressable gr x y → TileGrid.getPixel_const gr x y = Some dest →
  paint alpha dest = Some p → J (grid_with gr x y p).

Lemma stamp_preserves point (s s' : TileGrid.t * Statics) :
  point ∈ points →
  CanvasCore.stamp width height size opacity paint point s = Some s' →
  TileGrid.wf s.1 ∧ J s.1 → TileGrid.wf s'.1 ∧ J s'.1.
Proof.
  unfold CanvasCore.stamp. intros Hpt H.
  destruct (F32.to_int _) as [radius|] eqn:Hrad; [|done]. simpl in H.
  revert s s' H.
  apply (for_range_preserves (λ s : TileGrid.t * Statics, TileGrid.wf s.1 ∧ J s.1)).
  intros dy s s' Hdy.
  apply (for_range_preserves (λ s : TileGrid.t * Statics, TileGrid.wf s.1 ∧ J s.1)).
  clear s s'. intros dx [gr st] s' Hdx H [Hw HJ]. cbn [fst snd] in *.
  destruct ((point.1 + dx >=? 0) && (point.1 + dx <? width)
            && (point.2 + dy >=? 0) && (point.2 + dy <? height)) eqn:Hin;
    [|by simplify_eq].
  case_match; [|by simplify_eq].
  destruct (TileGrid.getPixel_mut gr st _ _) as [[[gr1 st1] rf]|] eqn:Hg; [|done].
  cbn [mbind option_bind] in H.
  destruct (TileGrid.load gr1 st1 rf) as [dest|] eqn:Hl; [|done].
  cbn [mbind option_bind] in H.
  destruct (paint _ dest) as [dest'|] eqn:Hp; [|done].
  cbn [mbind option_bind] in H. destruct s' as [gr2 st2].
  destruct (access_step gr st _ _ gr1 st1 rf dest dest' gr2 st2 Hw Hg Hl H)
    as [(Ha & Hc & -> & ->)|(Hr & ->)]; cbn [fst snd]; [|done].
  split; [by apply grid_with_wf|].
  eapply (J_step gr point); try done; try lia.
  unfold in_stamp. lia.
Qed.

Lemma for_each_stamp_preserves (s s' : TileGrid.t * Statics) :
  for_each points (CanvasCore.stamp width height size opacity paint) s = Some s' →
  TileGrid.wf s.1 ∧ J s.1 → TileGrid.wf s'.1 ∧ J s'.1.
Proof.
  apply (for_each_preserves_in (λ s : TileGrid.t * Statics, TileGrid.wf s.1 ∧ J s.1)).
  intros point s1 s2. apply stamp_preserves.
Qed.
End StampProofs.

(** X20.  A brush or eraser call on a well-formed canvas changes pixels
    only on its own layer, only at coordinates of the canvas, and only
    within the square of side 2 * radius + 1 around one of its points:
    every other pixel of every layer reads after the call as before. *)
Theorem stroke_changes_only_stamped_canvas_pixels
    (k : kernel_call) (c c' : CanvasCore.t) (st st' : Statics)
    (layerIndex : Z) (points : list (Z * Z)) (size opacity : spec_float)
    (radius : Z) (layer : nat) (x y : Z)
    (Hwf : CanvasCore.wf c)
    (Hk : is_call k layerIndex points size opacity)
    (Hradius : stamp_radius size = Some radius)
    (Hrun : run_kernel k (c, st) = Some (c', st'))
    (Hout : layer ≠ Z.to_nat layerIndex
            ∨ ¬ (0 ≤ x < CanvasCore.width_ c ∧ 0 ≤ y < CanvasCore.height_ c)
            ∨ Forall (λ point, ¬ in_stamp radius point x y) points) :
  pixel_at c' layer x y = pixel_at c layer x y.
Proof.
  assert (∃ paint, CanvasCore.stroke c st layerIndex points size opacity paint
                   = Some (c', st')) as (paint & H).
  { destruct k as [i pts sz op color|i pts sz op]; simpl in Hk;
      destruct Hk as (-> & -> & -> & ->); simpl in Hrun; by eexists. }
  clear Hrun Hk.
  apply stroke_spec in H as [(Hr & -> & ->)|(Hr & l & px & Hlayer & Hf & ->)]; [done|].
  unfold pixel_at. cbn [CanvasCore.set_layers CanvasCore.layers_].
  destruct (decide (layer = Z.to_nat layerIndex)) as [->|Hne];
    [|by rewrite list_lookup_insert_ne].
  rewrite list_lookup_insert_eq by (by eapply lookup_lt_Some).
  rewrite Hlayer. cbn [mbind option_bind Layer.set_pixels Layer.pixels_].
  destruct Hout as [Hout|Hout]; [done|].
  assert (TileGrid.wf (Layer.pixels_ l)) as Hw.
  { destruct Hwf as [Hl _]. by eapply (Forall_lookup_1 _ _ _ _ Hl). }
  set (J := λ gr, TileGrid.getPixel_const gr x y
                  = TileGrid.getPixel_const (Layer.pixels_ l) x y).
  apply (for_each_stamp_preserves J _ _ _ _ _ points) in Hf as [_ HJ]; [done| |done].
  intros gr point x0 y0 dest p alpha radius0 Hpt Hrad Hgw HJ Hx0 Hy0 Hst Ha Hc Hp.
  unfold J in *. rewrite getPixel_const_grid_with by done.
  rewrite decide_False; [done|]. intros [= -> ->].
  assert (radius0 = radius) as -> by congruence.
  destruct Hout as [Hout|Hout]; [by apply Hout|].
  by apply (proj1 (Forall_forall _ _) Hout point).
Qed.

(** The theorem at the white dot at (10, 10) and the pixel (50, 50). *)
Lemma stroke_changes_only_stamped_canvas_pixels_witness :
  match run_kernel white_dot (canvas128, Statics_init) with
  | Some (c', _) => pixel_at c' 0 50 50 = pixel_at canvas128 0 50 50
  | None => False
  end.
Proof.
  assert (bool_decide (is_Some (run_kernel white_dot (canvas128, Statics_init))) = true)
    as Hdef by (vm_compute; reflexivity).
  destruct (run_kernel white_dot (canvas128, Statics_init)) as [[c' st']|] eqn:Hrun;
    [|discriminate Hdef].
  apply (stroke_changes_only_stamped_canvas_pixels white_dot canvas128 c'
           Statics_init st' 0 [(10, 10)] F32.two F32.one 1 0 50 50).
  - apply (bool_decide_eq_true_1 _). vm_compute. reflexivity.
  - repeat split.
  - vm_compute. reflexivity.
  - exact Hrun.
  - right. right. constructor; [|constructor].
    unfold in_stamp. simpl. lia.
Defined.

(** X21.  An eraser stroke on a well-formed canvas that returns changes no
    colour channel: every pixel of every layer that was readable is still
    readable and has its red, green and blue values; only alpha can
    differ. *)
Theorem eraser_keeps_colour_channels
    (c c' : CanvasCore.t) (st st' : Statics) (layerIndex : Z)
    (points : list (Z * Z)) (size opacity : spec_float)
    (layer : nat) (x y : Z) (p : Pixel)
    (Hwf : CanvasCore.wf c)
    (Hrun : CanvasCore.eraseBrushStroke c st layerIndex points size opacity
            = Some (c', st'))
    (Hp : pixel_at c layer x y = Some p) :
  ∃ p', pixel_at c' layer x y = Some p' ∧ same_rgb p p'.
Proof.
  unfold CanvasCore.eraseBrushStroke in Hrun.
  apply stroke_spec in Hrun as [(Hr & -> & ->)|(Hr & l & px & Hlayer & Hf & ->)];
    [by exists p|].
  unfold pixel_at in *. cbn [CanvasCore.set_layers CanvasCore.layers_].
  destruct (decide (layer = Z.to_nat layerIndex)) as [->|Hne];
    [|rewrite list_lookup_insert_ne by done; by exists p].
  rewrite list_lookup_insert_eq by (by eapply lookup_lt_Some).
  rewrite Hlayer in Hp. cbn [mbind option_bind Layer.set_pixels Layer.pixels_] in *.
  assert (TileGrid.wf (Layer.pixels_ l)) as Hw.
  { destruct Hwf as [Hl _]. by eapply (Forall_lookup_1 _ _ _ _ Hl). }
  set (J := λ gr, ∃ p', TileGrid.getPixel_const gr x y = Some p' ∧ same_rgb p p').
  apply (for_each_stamp_preserves J _ _ _ _ _ points) in Hf as [_ HJ]; [done| |].
  - intros gr point x0 y0 dest q alpha radius0 Hpt Hrad Hgw (p0 & Hp0 & Hrgb)
      Hx0 Hy0 Hst Ha Hc Hq.
    unfold J. rewrite getPixel_const_grid_with by done.
    case_decide as Heq; [|by exists p0].
    injection Heq as -> ->. exists q. split; [done|].
    assert (dest = p0) as -> by congruence.
    unfold CanvasCore.erase_pixel in Hq.
    destruct (CanvasCore.fade_channel _ _); [|done]. simpl in Hq. simplify_eq.
    done.
  - split; [done|]. exists p. by split.
Qed.

(** The theorem at an eraser stamp at (10, 10) of the 128 x 128 canvas. *)
Lemma eraser_keeps_colour_channels_witness :
  match CanvasCore.eraseBrushStroke canvas128 Statics_init 0 [(10, 10)]
          F32.two F32.one with
  | Some (c', _) => ∃ p', pixel_at c' 0 10 10 = Some p' ∧ same_rgb Pixel_default p'
  | None => False
  end.
Proof.
  assert (bool_decide (is_Some (CanvasCore.eraseBrushStroke canvas128 Statics_init 0
                                  [(10, 10)] F32.two F32.one)) = true)
    as Hdef by (vm_compute; reflexivity).
  destruct (CanvasCore.eraseBrushStroke canvas128 Statics_init 0 [(10, 10)]
              F32.two F32.one) as [[c' st']|] eqn:Hrun; [|discriminate Hdef].
  apply (eraser_keeps_colour_channels canvas128 c' Statics_init st' 0 [(10, 10)]
           F32.two F32.one 0 10 10 Pixel_default).
  - apply (bool_decide_eq_true_1 _). vm_compute. reflexivity.
  - exact Hrun.
  - vm_compute. reflexivity.
Defined.

(** ** Several strokes *)

Lemma run_kernels_wf ks s s' :
  run_kernels ks s = Some s' → CanvasCore.wf s.1 → CanvasCore.wf s'.1.
Proof.
  apply (for_each_preserves (λ s : CanvasCore.t * Statics, CanvasCore.wf s.1)).
  intros k s1 s2 H Hwf. by eapply run_kernel_wf.
Qed.

Lemma stroke_on_spec c now ks st c2 st2 :
  CanvasCore.wf c → stroke_on c now ks st = Some (c2, st2) →
  UndoStack.pushState (CanvasCore.undoStack_ c) (layer_grids c) "Brush Stroke" now
  = Some (CanvasCore.undoStack_ c2)
  ∧ CanvasCore.wf c2
  ∧ length (CanvasCore.layers_ c2) = length (CanvasCore.layers_ c).
Proof.
  intros Hwf Hrun. unfold stroke_on in Hrun.
  destruct (beginStroke_wf now c Hwf) as (us & Hpush & Hbegin).
  rewrite Hbegin in Hrun. simpl in Hrun.
  pose proof (run_kernels_frame _ _ _ Hrun) as [Hus Hlen]. simpl in Hus, Hlen.
  apply run_kernels_wf in Hrun.
  - split_and!; [congruence|done|done].
  - simpl. destruct Hwf as [Hl Hu]. split; [done|]. simpl.
    destruct (pushState_wf _ _ "Brush Stroke" now Hu (layer_grids_wf c (conj Hl Hu)))
      as (us' & Hp' & Hwf' & _).
    congruence.
Qed.

Lemma undo_to_state c state :
  CanvasCore.wf c →
  1 ≤ UndoStack.currentIndex_ (CanvasCore.undoStack_ c) →
  UndoStack.states_ (CanvasCore.undoStack_ c)
    !! Z.to_nat (UndoStack.currentIndex_ (CanvasCore.undoStack_ c) - 1) = Some state →
  length (UndoStack.layerSnapshots state) = length (CanvasCore.layers_ c) →
  ∃ c', CanvasCore.undo c = Some c'
    ∧ layer_grids c' = UndoStack.layerSnapshots state
    ∧ CanvasCore.wf c'
    ∧ UndoStack.states_ (CanvasCore.undoStack_ c')
      = UndoStack.states_ (CanvasCore.undoStack_ c)
    ∧ UndoStack.currentIndex_ (CanvasCore.undoStack_ c')
      = UndoStack.currentIndex_ (CanvasCore.undoStack_ c) - 1
    ∧ length (CanvasCore.layers_ c') = length (CanvasCore.layers_ c).
Proof.
  intros Hwf Hidx Hstate Hlen. pose proof Hwf as [Hl Hu].
  assert (UndoStack.canUndo (CanvasCore.undoStack_ c) = true) as Hcan
    by (unfold UndoStack.canUndo; lia).
  destruct (popState_wf _ Hu Hcan) as (state' & Hstate' & Hpop).
  assert (state' = state) as -> by congruence.
  assert (Forall TileGrid.wf (UndoStack.layerSnapshots state)) as Hsw.
  { destruct Hu as (_ & _ & _ & Hst). by eapply (Forall_lookup_1 _ _ _ _ Hst). }
  destruct (restore_spec _ (CanvasCore.layers_ c) Hsw) as (ls & Hr & Hres).
  assert (CanvasCore.undo c
          = Some (CanvasCore.set_layers ls
                    (CanvasCore.set_undoStack
                       (UndoStack.mk (UndoStack.states_ (CanvasCore.undoStack_ c))
                          (UndoStack.currentIndex_ (CanvasCore.undoStack_ c) - 1)
                          (UndoStack.maxStates_ (CanvasCore.undoStack_ c))) c)))
    as Hundo.
  { unfold CanvasCore.undo. rewrite Hcan, Hpop. simpl. by rewrite Hr. }
  eexists. split; [exact Hundo|].
  split_and!; try done.
  - unfold layer_grids. simpl. by eapply restored_all.
  - by eapply undo_wf.
  - simpl. by destruct Hres.
Qed.

(** X18.  On a well-formed canvas whose history may hold at least two states,
    after two strokes, each begun with [beginStroke], two calls of [undo]
    succeed: the first gives every layer the grid it had before the second
    stroke, the second the grid it had before the first stroke. *)
Theorem two_undos_restore_the_state_before_two_strokes
    (c c1 c2 : CanvasCore.t) (now1 now2 : Z) (ks1 ks2 : list kernel_call)
    (st st1 st2 : Statics)
    (Hwf : CanvasCore.wf c)
    (Hmax : 2 ≤ UndoStack.maxStates_ (CanvasCore.undoStack_ c))
    (Hrun1 : stroke_on c now1 ks1 st = Some (c1, st1))
    (Hrun2 : stroke_on c1 now2 ks2 st1 = Some (c2, st2)) :
  ∃ c3 c4, CanvasCore.undo c2 = Some c3 ∧ CanvasCore.undo c3 = Some c4
    ∧ layer_grids c3 = layer_grids c1
    ∧ layer_grids c4 = layer_grids c.
Proof.
  destruct (stroke_on_spec _ _ _ _ _ _ Hwf Hrun1) as (Hpush1 & Hwf1 & Hlen1).
  destruct (stroke_on_spec _ _ _ _ _ _ Hwf1 Hrun2) as (Hpush2 & Hwf2 & Hlen2).
  pose proof Hwf as [Hl Hu]. pose proof Hwf1 as [Hl1 Hu1].
  set (us := CanvasCore.undoStack_ c) in *.
  set (us1 := CanvasCore.undoStack_ c1) in *.
  set (us2 := CanvasCore.undoStack_ c2) in *.
  destruct (pushState_wf us _ "Brush Stroke" now1 Hu (layer_grids_wf c Hwf))
    as (us1' & Hp1 & _ & Hmax1 & Hone1 & Hsize1 & Hlast1).
  assert (us1' = us1) as -> by congruence.
  destruct (pushState_wf us1 _ "Brush Stroke" now2 Hu1 (layer_grids_wf c1 Hwf1))
    as (us2' & Hp2 & _ & Hmax2 & Hone2 & Hsize2 & Hlast2).
  assert (us2' = us2) as -> by congruence.
  pose proof (pushState_states us1 _ "Brush Stroke" now2 Hu1 (layer_grids_wf c1 Hwf1))
    as Hcf.
  rewrite Hpush2 in Hcf. injection Hcf as Hcf.
  assert (UndoStack.size us1 = Z.of_nat (length (UndoStack.states_ us1))) as Hsz1
    by done.
  destruct (undo_to_state c2 _ Hwf2 Hone2 Hlast2) as (c3 & Hu3 & Hg3 & Hwf3 & Hst3 & Hi3 & Hlen3).
  { simpl. unfold layer_grids. rewrite length_fmap. done. }
  assert (UndoStack.currentIndex_ us2 = Z.min (UndoStack.currentIndex_ us1 + 1)
                                              (UndoStack.maxStates_ us1)) as Hidx2
    by (by rewrite Hcf).
  assert (UndoStack.states_ us2
          = drop (Z.to_nat (UndoStack.currentIndex_ us1 + 1 - UndoStack.maxStates_ us1))
                 (UndoStack.states_ us1
                  ++ [UndoStack.mkState (layer_grids c1) "Brush Stroke" now2])) as Hst2.
  { rewrite Hcf. cbn [UndoStack.states_]. rewrite take_ge by lia. done. }
  destruct (undo_to_state c3 (UndoStack.mkState (layer_grids c) "Brush Stroke" now1) Hwf3)
    as (c4 & Hu4 & Hg4 & _).
  - fold us2 in Hi3. lia.
  - rewrite Hst3, Hi3. fold us2. rewrite Hst2, lookup_drop.
    rewrite lookup_app_l by lia.
    rewrite <- Hlast1. f_equal. lia.
  - simpl. unfold layer_grids. rewrite length_fmap. lia.
  - exists c3, c4. by split_and!.
Qed.

(** The theorem at two white dots painted on the 128 x 128 canvas. *)
Lemma two_undos_restore_the_state_before_two_strokes_witness :
  match stroke_on canvas128 0 dot_stroke Statics_init with
  | Some (c1, st1) =>
      match stroke_on c1 1 dot_stroke st1 with
      | Some (c2, _) =>
          ∃ c3 c4, CanvasCore.undo c2 = Some c3 ∧ CanvasCore.undo c3 = Some c4
            ∧ layer_grids c3 = layer_grids c1
            ∧ layer_grids c4 = layer_grids canvas128
      | None => False
      end
  | None => False
  end.
Proof.
  assert (bool_decide (is_Some (s ← stroke_on canvas128 0 dot_stroke Statics_init;
                                stroke_on s.1 1 dot_stroke s.2)) = true)
    as Hdef by (vm_compute; reflexivity).
  destruct (stroke_on canvas128 0 dot_stroke Statics_init) as [[c1 st1]|] eqn:Hrun1;
    [|discriminate Hdef].
  cbn [mbind option_bind fst snd] in Hdef.
  destruct (stroke_on c1 1 dot_stroke st1) as [[c2 st2]|] eqn:Hrun2;
    [|discriminate Hdef].
  apply (two_undos_restore_the_state_before_two_strokes canvas128 c1 c2 0 1
           dot_stroke dot_stroke Statics_init st1 st2).
  - apply (bool_decide_eq_true_1 _). vm_compute. reflexivity.
  - simpl. lia.
  - exact Hrun1.
  - exact Hrun2.
Defined.

(** ** The tile loop *)

Lemma for_each_ret_app {A S} (l1 l2 : list A) (body : A → S → option (flow S)) s :
  for_each_ret (l1 ++ l2) body s
  = (f ← for_each_ret l1 body s;
     match f with
     | Continue s' => for_each_ret l2 body s'
     | Return s' => Some (Return s')
     end).
Proof.
  revert s. induction l1 as [|i l1 IH]; intros s; [done|].
  simpl. destruct (body i s) as [[s1|s1]|]; simpl; [apply IH|done|done].
Qed.

Lemma for_each_ret_fmap {A B S} (h : A → B) (l : list A)
    (body : B → S → option (flow S)) s :
  for_each_ret (h <$> l) body s = for_each_ret l (λ i, body (h i)) s.
Proof.
  revert s. induction l as [|i l IH]; intros s; [done|].
  simpl. destruct (body (h i) s) as [[s1|s1]|]; simpl; [apply IH|done|done].
Qed.

Lemma for_each_ret_ext {A S} (l : list A) (body body' : A → S → option (flow S)) s :
  (∀ i s, body i s = body' i s) →
  for_each_ret l body s = for_each_ret l body' s.
Proof.
  intros Hext. revert s. induction l as [|i l IH]; intros s; [done|].
  simpl. rewrite Hext. destruct (body' i s) as [[s1|s1]|]; simpl; [apply IH|done|done].
Qed.

Lemma nested_loops_flat {S} (ys xs : list Z) (f : Z → Z → S → option (flow S)) s :
  for_each_ret ys (λ ty, for_each_ret xs (f ty)) s
  = for_each_ret (ty ← ys; tx ← xs; [(ty, tx)]) (λ p, f p.1 p.2) s.
Proof.
  revert s. induction ys as [|y ys IH]; intros s; [done|].
  rewrite bind_cons, for_each_ret_app. simpl.
  rewrite bind_singleton_fmap, for_each_ret_fmap. simpl.
  destruct (for_each_ret xs (f y) s) as [[s1|s1]|]; simpl; [apply IH|done|done].
Qed.

Lemma fmap_list_bind {A B C} (h : B → C) (g : A → list B) (l : list A) :
  h <$> (l ≫= g) = l ≫= (λ x, h <$> g x).
Proof.
  induction l as [|x l IH]; [done|]. by rewrite !bind_cons, fmap_app, IH.
Qed.

Lemma row_major_indices n m :
  0 ≤ n → 0 ≤ m →
  (λ p : Z * Z, p.1 * m + p.2) <$> (ty ← seqZ 0 n; tx ← seqZ 0 m; [(ty, tx)])
  = seqZ 0 (n * m).
Proof.
  intros Hn Hm.
  assert ((λ p : Z * Z, p.1 * m + p.2) <$> (ty ← seqZ 0 n; tx ← seqZ 0 m; [(ty, tx)])
          = grid_enum (λ ty tx, ty * m + tx) n m) as ->.
  { unfold grid_enum. rewrite fmap_list_bind. apply list_bind_ext; [|done].
    intros ty. rewrite fmap_list_bind. by apply list_bind_ext. }
  apply list_eq_same_length with (Z.to_nat (n * m)).
  - by rewrite length_seqZ.
  - rewrite length_grid_enum_Z. nia.
  - intros i x y Hi Hx Hy.
    apply grid_enum_lookup_inv_Z in Hx as (ty & tx & Hty & Htx & -> & ->).
    apply lookup_seqZ in Hy as [-> _]. nia.
Qed.

Section TileLoopProofs.
Context {G : Type} (kernel : Tile.t → G → option (Tile.t * G)).
Context (w : Z) (cb : option ProgressCallback) (total : Z).

Lemma tile_step_index ty tx s :
  tile_step kernel w cb total ty tx s
  = tile_step kernel w cb total 0 (ty * tiles_across w + tx) s.
Proof.
  unfold tile_step, tiles_across.
  by replace (0 * Z.quot (w + TILE_SIZE - 1) TILE_SIZE
              + (ty * Z.quot (w + TILE_SIZE - 1) TILE_SIZE + tx))
    with (ty * Z.quot (w + TILE_SIZE - 1) TILE_SIZE + tx) by lia.
Qed.

Lemma reports_after_S k :
  reports_after cb total (S k)
  = reports_after cb total k
    ++ match cb with
       | Some c =>
           if has_progress c
           then [F32.div (F32.of_int (Z.of_nat k + 1)) (F32.of_int total)]
           else []
       | None => []
       end.
Proof.
  unfold reports_after. destruct cb as [c|]; [|done].
  destruct (has_progress c); [|done].
  rewrite seqZ_S, fmap_app. simpl. by rewrite (Z.add_comm 1).
Qed.

Lemma tile_step_run (k : nat) done tile rest gs tile' gs1 :
  length done = k → kernel tile gs = Some (tile', gs1) →
  tile_step kernel w cb total 0 (Z.of_nat k)
    (mkRun (done ++ tile :: rest) gs (Z.of_nat k)
           (reports_after cb total k) (polls_after cb k))
  = Some ((if cancel_at cb k then Return else Continue)
            (mkRun ((done ++ [tile']) ++ rest) gs1 (Z.of_nat (S k))
                   (reports_after cb total (S k)) (polls_after cb (S k)))).
Proof.
  intros Hk Hker. unfold tile_step.
  cbn [tiles globals currentTile reported polls].
  replace (Z.to_nat (0 * Z.quot (w + TILE_SIZE - 1) TILE_SIZE + Z.of_nat k))
    with k by lia.
  rewrite lookup_app_r by lia. rewrite Hk, Nat.sub_diag. cbn [lookup list_lookup].
  cbn [mbind option_bind]. rewrite Hker. cbn [mbind option_bind].
  assert (<[k := tile']> (done ++ tile :: rest) = (done ++ [tile']) ++ rest) as ->.
  { rewrite insert_app_r_alt by lia. rewrite Hk, Nat.sub_diag. simpl.
    by rewrite <- app_assoc. }
  rewrite reports_after_S.
  replace (Z.of_nat (S k)) with (Z.of_nat k + 1) by lia.
  unfold cancel_at, polls_after.
  destruct cb as [c|]; [|by rewrite app_nil_r].
  destruct (cancelled c) as [answer|].
  - destruct (has_progress c); rewrite ?app_nil_r; by destruct (answer k).
  - destruct (has_progress c); by rewrite ?app_nil_r.
Qed.

(** Tiles filtered without a positive answer from [cancelled()]. *)
Lemma tile_steps_continue : ∀ (todo : list Tile.t) (k : nat) done rest gs out gs',
  length done = k →
  filter_tiles kernel todo gs = Some (out, gs') →
  (∀ j, (k ≤ j < k + length todo)%nat → cancel_at cb j = false) →
  for_each_ret (seqZ (Z.of_nat k) (Z.of_nat (length todo)))
    (tile_step kernel w cb total 0)
    (mkRun (done ++ todo ++ rest) gs (Z.of_nat k)
           (reports_after cb total k) (polls_after cb k))
  = Some (Continue
            (mkRun (done ++ out ++ rest) gs' (Z.of_nat (k + length todo))
                   (reports_after cb total (k + length todo))
                   (polls_after cb (k + length todo)))).
Proof.
  induction todo as [|tile todo IH]; intros k done rest gs out gs' Hk Hf Hgo.
  - simpl in Hf. injection Hf as <- <-. simpl. by rewrite Nat.add_0_r.
  - simpl in Hf.
    destruct (kernel tile gs) as [[tile' gs1]|] eqn:Hker; [|done]. simpl in Hf.
    destruct (filter_tiles kernel todo gs1) as [[out' gs2]|] eqn:Hrest; [|done].
    simpl in Hf. injection Hf as <- <-.
    cbn [length]. rewrite seqZ_cons by lia. cbn [for_each_ret].
    rewrite <- app_comm_cons.
    rewrite (tile_step_run k done tile (todo ++ rest) gs tile' gs1) by done.
    rewrite Hgo by (simpl; lia). cbn [mbind option_bind].
    replace (Z.succ (Z.of_nat k)) with (Z.of_nat (S k)) by lia.
    replace (Z.pred (Z.of_nat (S (length todo)))) with (Z.of_nat (length todo)) by lia.
    rewrite (IH (S k) (done ++ [tile']) rest gs1 out' gs2).
    + rewrite <- !app_assoc. simpl.
      by replace (k + S (length todo))%nat with (S (k + length todo)) by lia.
    + rewrite length_app. simpl. lia.
    + done.
    + intros j Hj. apply Hgo. simpl. lia.
Qed.
End TileLoopProofs.

(** X29.  The tile loop shared by the filter plugins, on an image of
    positive size: when the per-tile filter succeeds on the first [n] tiles
    of the array, the poll of [cancelled()] answers false after each of the
    first [n - 1] tiles and, unless all tiles of the image are done, true
    after the [n]-th, then the loop returns with exactly these [n] tiles
    filtered, in array order and with the process-wide state threaded
    through, and the remaining tiles untouched; it has reported the
    fraction of tiles done after each filtered tile if a progress callback
    is set, and polled once per filtered tile if a cancellation callback is
    set. *)
Theorem process_filters_tiles_in_order_until_cancelled {G : Type}
    (kernel : Tile.t → G → option (Tile.t * G)) (data : list Tile.t) (w h : Z)
    (cb : option ProgressCallback) (gs gs' : G) (n : nat) (out : list Tile.t)
    (Hw : 0 < w) (Hh : 0 < h)
    (Hn : (1 ≤ n ≤ length data)%nat)
    (Htotal : Z.of_nat n ≤ tiles_across w * tiles_across h)
    (Hfilter : filter_tiles kernel (take n data) gs = Some (out, gs'))
    (Hgo : ∀ j, (j < n - 1)%nat → cancel_at cb j = false)
    (Hstop : Z.of_nat n < tiles_across w * tiles_across h →
             cancel_at cb (n - 1) = true) :
  process_with kernel (Some data) w h cb gs
  = Some (Some (mkRun (out ++ drop n data) gs' (Z.of_nat n)
                  (reports_after cb (tiles_across w * tiles_across h) n)
                  (polls_after cb n))).
Proof.
  set (total := tiles_across w * tiles_across h) in *.
  assert (0 < tiles_across w) as Hcx by (by apply tile_count_pos).
  assert (0 < tiles_across h) as Hcy by (by apply tile_count_pos).
  unfold process_with, tile_loop. fold (tiles_across w). fold (tiles_across h).
  fold total. unfold for_range_ret. rewrite !Z.sub_0_r.
  rewrite (nested_loops_flat (seqZ 0 (tiles_across h)) (seqZ 0 (tiles_across w))
             (tile_step kernel w cb total)).
  rewrite (for_each_ret_ext _ _
             (λ p, tile_step kernel w cb total 0 (p.1 * tiles_across w + p.2)))
    by (intros p s; apply tile_step_index).
  rewrite <- (for_each_ret_fmap (λ p : Z * Z, p.1 * tiles_across w + p.2) _
                (tile_step kernel w cb total 0)).
  rewrite row_major_indices by lia.
  replace (tiles_across h * tiles_across w) with total by (unfold total; lia).
  (* the first n - 1 tiles, the n-th tile, the tiles never reached *)
  destruct n as [|m]; [lia|].
  assert (seqZ 0 total
          = seqZ (Z.of_nat 0) (Z.of_nat (length (take m data)))
            ++ Z.of_nat m :: seqZ (Z.of_nat (S m)) (total - Z.of_nat (S m))) as ->.
  { rewrite length_take_le by lia. change (Z.of_nat 0) with 0.
    replace total with (Z.of_nat m + (total - Z.of_nat m)) at 1 by lia.
    rewrite seqZ_app by lia. f_equal. rewrite Z.add_0_l.
    rewrite (seqZ_cons (Z.of_nat m)) by lia. f_equal. f_equal; lia. }
  destruct (lookup_lt_is_Some_2 data m) as [tile Htile]; [lia|].
  rewrite (take_S_r data m tile Htile) in Hfilter.
  assert (∃ out1 gs1 tile',
            filter_tiles kernel (take m data) gs = Some (out1, gs1)
            ∧ kernel tile gs1 = Some (tile', gs')
            ∧ out = out1 ++ [tile']) as (out1 & gs1 & tile' & Hf1 & Hker & ->).
  { clear -Hfilter. revert gs out Hfilter.
    induction (take m data) as [|t l IH]; intros gs out Hf; simpl in Hf.
    - destruct (kernel tile gs) as [[tile' gs1]|] eqn:Hk; [|done].
      simpl in Hf. simplify_eq. by exists [], gs, tile'.
    - destruct (kernel t gs) as [[t' gs0]|] eqn:Hk; [|done]. simpl in Hf.
      destruct (filter_tiles kernel (l ++ [tile]) gs0) as [[out' gs2]|] eqn:Hr; [|done].
      simpl in Hf. simplify_eq.
      destruct (IH gs0 out' Hr) as (out1 & gs1 & tile' & Hf1 & Hker & ->).
      exists (t' :: out1), gs1, tile'. simpl. rewrite Hk. simpl. rewrite Hf1. done. }
  assert (length out1 = m) as Hlen1.
  { assert (∀ l gs out gs', filter_tiles kernel l gs = Some (out, gs') →
                            length out = length l) as Hlen.
    { clear. induction l as [|t l IH]; intros gs out gs' Hf; simpl in Hf.
      - by simplify_eq.
      - destruct (kernel t gs) as [[t' gs0]|]; [|done]. simpl in Hf.
        destruct (filter_tiles kernel l gs0) as [[out' gs2]|] eqn:Hr; [|done].
        simpl in Hf. simplify_eq. simpl. f_equal. by eapply IH. }
    rewrite (Hlen _ _ _ _ Hf1), length_take_le; lia. }
  rewrite for_each_ret_app.
  pose proof (tile_steps_continue kernel w cb total (take m data) 0 []
                (drop m data) gs out1 gs1 eq_refl Hf1) as Hfirst.
  rewrite app_nil_l, take_drop in Hfirst.
  assert (reports_after cb total 0 = []) as Hr0
    by (unfold reports_after; destruct cb as [c|]; [by destruct (has_progress c)|done]).
  rewrite Hr0 in Hfirst.
  assert (polls_after cb 0 = 0%nat) as Hp0
    by (unfold polls_after; destruct cb as [c|]; [by destruct (cancelled c)|done]).
  rewrite Hp0 in Hfirst. change (Z.of_nat 0) with 0 in *.
  rewrite Hfirst; clear Hfirst.
  2:{ intros j Hj. apply Hgo. rewrite length_take_le in Hj by lia. lia. }
  cbn [mbind option_bind for_each_ret app].
  rewrite length_take_le by lia. rewrite Nat.add_0_l.
  rewrite (drop_S data tile m Htile).
  rewrite (tile_step_run kernel w cb total m out1 tile (drop (S m) data) gs1 tile' gs')
    by done.
  cbn [mbind option_bind].
  destruct (cancel_at cb m) eqn:Hc; [done|].
  destruct (decide (Z.of_nat (S m) < total)) as [Hlt|Hge].
  { rewrite Nat.sub_succ, Nat.sub_0_r in Hstop. rewrite Hstop in Hc by done. done. }
  rewrite (seqZ_nil _ (total - Z.of_nat (S m))) by lia. done.
Qed.

(** The theorem at the two dark tiles of a 512 x 256 image, filtered without
    a callback. *)
Lemma process_filters_tiles_in_order_until_cancelled_witness :
  process_with count_tiles (Some two_tiles) 512 256 None 0
  = Some (Some (mkRun [Tile.fill white dark_tile; Tile.fill white dark_tile]
                  2 2 [] 0)).
Proof.
  apply (process_filters_tiles_in_order_until_cancelled count_tiles two_tiles 512 256
           None 0 2 2 [Tile.fill white dark_tile; Tile.fill white dark_tile]).
  - lia.
  - lia.
  - simpl. lia.
  - vm_compute. discriminate.
  - reflexivity.
  - intros j _. reflexivity.
  - intros Hlt. vm_compute in Hlt. discriminate Hlt.
Defined.

(** ** Blending *)

Lemma blendPixels_no_alpha dest src mode opacity :
  zero_or_nan (src_alpha src opacity) = true →
  CanvasCore.blendPixels dest src mode opacity = Some dest.
Proof.
  unfold CanvasCore.blendPixels. fold (src_alpha src opacity).
  destruct (src_alpha src opacity) as [[]| | |]; try done.
Qed.

(** X23.  [blendPixels] leaves the destination pixel exactly as it is, in
    every blend mode, when the source pixel has alpha 0, when the opacity
    is +0, and also when the opacity is NaN. *)
Theorem blend_without_source_alpha_keeps_destination
    (dest src : Pixel) (mode : BlendMode) (opacity : spec_float)
    (Hnone : a src = 0 ∨ opacity = F32.zero ∨ is_nan opacity = true) :
  CanvasCore.blendPixels dest src mode opacity = Some dest.
Proof.
  apply blendPixels_no_alpha. unfold src_alpha.
  destruct Hnone as [Ha|[->| Hn]].
  - rewrite Ha.
    assert (F32.div (F32.of_int 0) F32.c65535 = F32.zero) as ->
      by (vm_compute; reflexivity).
    by destruct opacity as [[]|[]| |[] m e].
  - by destruct (F32.div (F32.of_int (a src)) F32.c65535) as [[]|[]| |[] m e].
  - destruct opacity; try done.
    by destruct (F32.div (F32.of_int (a src)) F32.c65535) as [[]|[]| |[] m e].
Qed.

(** The theorem at a transparent source multiplied onto white. *)
Lemma blend_without_source_alpha_keeps_destination_witness :
  CanvasCore.blendPixels white (mkPixel 1 2 3 0) Multiply F32.one = Some white.
Proof.
  apply (blend_without_source_alpha_keeps_destination white (mkPixel 1 2 3 0)
           Multiply F32.one).
  left. reflexivity.
Defined.

Lemma blend_opaque_facts :
  F32.mul (F32.div (F32.of_int 65535) F32.c65535) F32.one = F32.one
  ∧ F32.sub F32.one F32.one = F32.zero
  ∧ F32.add F32.one F32.zero = F32.one
  ∧ F32.leb F32.one F32.zero = false
  ∧ F32.ltb F32.zero F32.one = true
  ∧ F32.to_uint16 (F32.mul F32.one F32.c65535) = Some 65535
  ∧ F32.div (F32.of_int 65535) F32.c65535 = F32.one.
Proof. split_and!; vm_compute; reflexivity. Qed.

(** The destination term of a blend with an opaque source vanishes, and the
    source term is kept as it is. *)
Lemma blend_channel_opaque (result : spec_float) (d da : Z) :
  unit_float result = true → 0 ≤ d < 65536 → 0 ≤ da < 65536 →
  CanvasCore.blend_channel result (unit_of d) F32.one (unit_of da) F32.one
  = F32.to_uint16 (F32.mul result F32.c65535).
Proof.
  intros Hres Hd Hda.
  destruct (channel_ok_spec _ Hd) as [Hud%unit_float_small _].
  destruct (channel_ok_spec _ Hda) as [Huda%unit_float_small _].
  destruct blend_opaque_facts as (_ & H11 & _).
  unfold CanvasCore.blend_channel. rewrite H11.
  rewrite (mul_zero_small _ (mul_small _ _ Hud Huda)).
  by rewrite mul_one_unit, add_zero_unit, div_one_unit.
Qed.

Lemma blendPixels_opaque (D S : Pixel) mode :
  Pixel_ok D → Pixel_ok S → a S = 65535 →
  unit_float (CanvasCore.blend_fn mode (unit_of (r D)) (unit_of (r S))) = true →
  unit_float (CanvasCore.blend_fn mode (unit_of (g D)) (unit_of (g S))) = true →
  unit_float (CanvasCore.blend_fn mode (unit_of (b D)) (unit_of (b S))) = true →
  CanvasCore.blendPixels D S mode F32.one
  = (r' ← F32.to_uint16
            (F32.mul (CanvasCore.blend_fn mode (unit_of (r D)) (unit_of (r S)))
                     F32.c65535);
     g' ← F32.to_uint16
            (F32.mul (CanvasCore.blend_fn mode (unit_of (g D)) (unit_of (g S)))
                     F32.c65535);
     b' ← F32.to_uint16
            (F32.mul (CanvasCore.blend_fn mode (unit_of (b D)) (unit_of (b S)))
                     F32.c65535);
     Some (mkPixel r' g' b' 65535)).
Proof.
  intros (HDr & HDg & HDb & HDa) HS Ha Hr Hg Hb.
  destruct (channel_ok_spec _ HDa) as [Hda%unit_float_small _].
  destruct blend_opaque_facts as (Hsa & H11 & H10 & Hle & Hlt & Halpha & _).
  unfold CanvasCore.blendPixels.
  rewrite Ha, Hsa, Hle, H11.
  fold (unit_of (a D)) (unit_of (r D)) (unit_of (g D)) (unit_of (b D))
       (unit_of (r S)) (unit_of (g S)) (unit_of (b S)).
  rewrite (mul_zero_small _ (small_float_finite _ Hda)), H10, Hlt.
  rewrite !blend_channel_opaque by done.
  rewrite Halpha. done.
Qed.

(** X24.  Multiply at opacity 1 onto a destination with 16-bit channels:
    an opaque white source keeps the colour channels of the destination
    exactly, an opaque black source gives black, and in both cases the
    result is opaque. *)
Theorem multiply_white_is_neutral_black_absorbs (D : Pixel) (HD : Pixel_ok D) :
  CanvasCore.blendPixels D white Multiply F32.one
  = Some (mkPixel (r D) (g D) (b D) 65535)
  ∧ CanvasCore.blendPixels D (mkPixel 0 0 0 65535) Multiply F32.one
    = Some (mkPixel 0 0 0 65535).
Proof.
  pose proof HD as (HDr & HDg & HDb & HDa).
  destruct (channel_ok_spec _ HDr) as [Hur Hrr].
  destruct (channel_ok_spec _ HDg) as [Hug Hrg].
  destruct (channel_ok_spec _ HDb) as [Hub Hrb].
  assert (unit_of 65535 = F32.one) as H1 by (vm_compute; reflexivity).
  assert (unit_of 0 = F32.zero) as H0 by (vm_compute; reflexivity).
  assert (F32.to_uint16 (F32.mul F32.zero F32.c65535) = Some 0) as Hz
    by (vm_compute; reflexivity).
  split.
  - rewrite blendPixels_opaque; try done; cbn [CanvasCore.blend_fn white r g b a];
      rewrite ?H1, ?mul_one_unit by done; try done.
    all: try (unfold Pixel_ok, white; simpl; lia).
    by rewrite Hrr, Hrg, Hrb.
  - rewrite blendPixels_opaque; try done; cbn [CanvasCore.blend_fn r g b a];
      rewrite ?H0, ?(mul_zero_small (unit_of _))
        by (by apply small_float_finite, unit_float_small); try done.
    all: try (unfold Pixel_ok; simpl; lia).
Qed.

(** The theorem at a half-transparent gray destination. *)
Lemma multiply_white_is_neutral_black_absorbs_witness :
  CanvasCore.blendPixels (gray 30000) white Multiply F32.one
  = Some (mkPixel 30000 30000 30000 65535)
  ∧ CanvasCore.blendPixels (gray 30000) (mkPixel 0 0 0 65535) Multiply F32.one
    = Some (mkPixel 0 0 0 65535).
Proof.
  apply (multiply_white_is_neutral_black_absorbs (gray 30000)).
  unfold Pixel_ok. simpl. lia.
Defined.

(** ** Indexed conditional loop invariant *)

Lemma for_range_indexed {St} (I : Z → St → Prop) lo hi (body : Z → St → option St) :
  lo ≤ hi →
  (∀ i s s', lo ≤ i < hi → body i s = Some s' → I i s → I (i + 1) s') →
  ∀ s s', for_range lo hi body s = Some s' → I lo s → I hi s'.
Proof.
  intros Hle Hstep s s' Hl HI. unfold for_range in Hl.
  remember (Z.to_nat (hi - lo)) as n eqn:Hn.
  replace (hi - lo) with (Z.of_nat n) in Hl by lia.
  replace hi with (lo + Z.of_nat n) in * by lia. clear Hn Hle.
  revert lo s Hl HI Hstep. induction n as [|n IH]; intros lo s Hl HI Hstep.
  - simpl in Hl. simplify_eq. by rewrite Z.add_0_r.
  - rewrite seqZ_cons in Hl by lia. simpl in Hl.
    destruct (body lo s) as [s1|] eqn:Hb; [|done]. simpl in Hl.
    replace (Z.pred (Z.of_nat (S n))) with (Z.of_nat n) in Hl by lia.
    replace (lo + Z.of_nat (S n)) with (Z.succ lo + Z.of_nat n) by lia.
    apply (IH (Z.succ lo) s1); [done| |].
    + replace (Z.succ lo) with (lo + 1) by lia. eapply Hstep; [lia|done..].
    + intros i s2 s3 Hi. apply Hstep. lia.
Qed.

(** ** Tiles with one pixel replaced *)

Lemma at_const_tile_with tl x0 y0 p x y :
  Tile.wf tl → Tile.out_of_range x0 y0 = false → Tile.out_of_range x y = false →
  Tile.at_const (tile_with tl (Z.to_nat (y0 * TILE_SIZE + x0)) p) x y
  = if decide ((x, y) = (x0, y0)) then Some p else Tile.at_const tl x y.
Proof.
  intros Hwf Hr0 Hr. destruct (stored_in_range tl x0 y0 Hwf Hr0) as [q Hq].
  unfold Tile.at_const. rewrite Hr. cbn [tile_with Tile.set_pixels Tile.pixels_].
  case_decide as Heq.
  - injection Heq as -> ->. apply list_lookup_insert_eq. by eapply lookup_lt_Some.
  - apply list_lookup_insert_ne.
    unfold Tile.out_of_range, TILE_SIZE in *. intros Hi.
    apply Heq. f_equal; lia.
Qed.

(** ** The smudge buffer *)

Section SmudgeProofs.
Context (tile : Tile.t) (x0 y0 radius : Z).
Hypothesis Hwf : Tile.wf tile.
Hypothesis Hradius : 0 ≤ radius.
Hypothesis Hx0 : radius ≤ x0 < TILE_SIZE - radius.
Hypothesis Hy0 : radius ≤ y0 < TILE_SIZE - radius.

Lemma offset_in_tile dx dy :
  - radius ≤ dx ≤ radius → - radius ≤ dy ≤ radius →
  Smudge.in_tile (x0 + dx) (y0 + dy) = true
  ∧ Tile.out_of_range (x0 + dx) (y0 + dy) = false.
Proof.
  intros Hdx Hdy. unfold Smudge.in_tile, Tile.out_of_range, TILE_SIZE in *.
  rewrite !Z.geb_leb. split.
  - rewrite !andb_true_iff, !Z.leb_le, !Z.ltb_lt. lia.
  - rewrite !orb_false_iff, !Z.leb_gt, !Z.ltb_ge. lia.
Qed.

Lemma buffer_index_inj dx dy dx' dy' :
  - radius ≤ dx ≤ radius → - radius ≤ dx' ≤ radius →
  buffer_index radius dx dy = buffer_index radius dx' dy' →
  dx = dx' ∧ dy = dy'.
Proof.
  unfold buffer_index. intros Hdx Hdx' Heq.
  destruct (Z.lt_trichotomy dy dy') as [Hlt|[->|Hlt]]; [|lia|].
  - assert (2 * radius + 1 ≤ (dy' - dy) * (2 * radius + 1)) by nia. lia.
  - assert (2 * radius + 1 ≤ (dy - dy') * (2 * radius + 1)) by nia. lia.
Qed.

Lemma buffer_index_lt dx dy dx' dy' :
  - radius ≤ dx ≤ radius → - radius ≤ dx' ≤ radius →
  buffer_index radius dx' dy' < buffer_index radius dx dy + 1 →
  buffer_index radius dx' dy' < buffer_index radius dx dy
  ∨ (dx' = dx ∧ dy' = dy).
Proof.
  intros Hdx Hdx' Hlt.
  destruct (decide (buffer_index radius dx' dy' = buffer_index radius dx dy))
    as [Heq|Hne]; [|lia].
  right. by apply buffer_index_inj.
Qed.

Lemma pick_up_color_spec gs gs1 :
  Smudge.pick_up_color tile x0 y0 radius gs = Some gs1 →
  Smudge.initialized gs1 = true
  ∧ ∀ dx dy, - radius ≤ dx ≤ radius → - radius ≤ dy ≤ radius →
      Smudge.buffer gs1 !! Z.to_nat (buffer_index radius dx dy)
      = Tile.at_const tile (x0 + dx) (y0 + dy).
Proof.
  unfold Smudge.pick_up_color. intros H.
  destruct (for_range _ _ _ _) as [[buf idx]|] eqn:Hloop; [|done].
  simpl in H. simplify_eq. cbn [Smudge.initialized Smudge.buffer].
  split.
  { unfold Smudge.ensure_buffer. case_match; [done|].
    by destruct (Smudge.initialized gs). }
  assert (picked tile x0 y0 radius (buffer_index radius (- radius) (radius + 1)) (buf, idx)) as [_ Hp].
  { refine (for_range_indexed
              (λ dy, picked tile x0 y0 radius (buffer_index radius (- radius) dy))
              _ _ _ _ _ _ _ Hloop _); [lia| |].
    - intros dy s s' Hdy Hrow HI.
      replace (buffer_index radius (- radius) (dy + 1))
        with (buffer_index radius (radius + 1) dy) by (unfold buffer_index; lia).
      refine (for_range_indexed (λ dx, picked tile x0 y0 radius (buffer_index radius dx dy))
                _ _ _ _ _ _ _ Hrow HI); [lia|].
      clear Hrow HI s s'. intros dx [b i] s' Hdx Hbody [Hi HI]. cbn [fst snd] in *. subst i.
      destruct (b !! Z.to_nat (buffer_index radius dx dy)) as [old|] eqn:Hold;
        [|done].
      cbn [mbind option_bind] in Hbody.
      destruct (offset_in_tile dx dy) as [Hin Hr]; [lia..|].
      rewrite Hin in Hbody.
      destruct (stored_in_range tile _ _ Hwf Hr) as [p Hp].
      assert (Tile.at_const tile (x0 + dx) (y0 + dy) = Some p) as Hat
        by (unfold Tile.at_const; by rewrite Hr).
      rewrite Hat in Hbody. cbn [mbind option_bind] in Hbody. simplify_eq.
      split; [unfold buffer_index; cbn; lia|]. cbn [fst].
      intros dx' dy' Hdx' Hdy' Hlt.
      replace (buffer_index radius (dx + 1) dy)
        with (buffer_index radius dx dy + 1) in Hlt by (unfold buffer_index; lia).
      destruct (buffer_index_lt dx dy dx' dy') as [Hlt'|[-> ->]]; [lia..| |].
      + rewrite list_lookup_insert_ne; [by apply HI|].
        unfold buffer_index in *. nia.
      + rewrite Hat. apply list_lookup_insert_eq. by eapply lookup_lt_Some.
    - split; [unfold buffer_index; cbn; lia|]. cbn [fst].
      intros dx dy Hdx Hdy Hlt. unfold buffer_index in Hlt. nia. }
  intros dx dy Hdx Hdy. apply Hp; [done..|]. unfold buffer_index. nia.
Qed.

Lemma apply_smudge_spec strength gs st tile' gs' x y :
  (∀ dx dy, - radius ≤ dx ≤ radius → - radius ≤ dy ≤ radius →
     Smudge.buffer gs !! Z.to_nat (buffer_index radius dx dy)
     = Tile.at_const tile (x0 + dx) (y0 + dy)) →
  Smudge.initialized gs = true →
  Smudge.apply_smudge tile x0 y0 radius strength (gs, st) = Some (tile', gs') →
  Tile.out_of_range x y = false →
  Tile.at_const tile' x y
  = if in_square x0 y0 radius x y
    then p ← Tile.at_const tile x y;
         mix_pixel p (smudge_alpha strength radius (x - x0) (y - y0)) p
    else Tile.at_const tile x y.
Proof.
  intros Hbuf Hinit H Hr. unfold Smudge.apply_smudge in H.
  cbn [fst snd] in H. rewrite Hinit in H. cbn [negb] in H.
  destruct (for_range _ _ _ _) as [[[t d] idx]|] eqn:Hloop; [|done].
  cbn [mbind option_bind] in H.
  destruct (Smudge.pick_up_color t x0 y0 radius gs) as [gs1|]; [|done].
  cbn [mbind option_bind] in H. simplify_eq.
  assert (smudged tile x0 y0 radius strength (buffer_index radius (- radius) (radius + 1)) (tile', d, idx))
    as (_ & _ & Hs).
  { refine (for_range_indexed
              (λ dy, smudged tile x0 y0 radius strength (buffer_index radius (- radius) dy))
              _ _ _ _ _ _ _ Hloop _); [lia| |].
    - intros dy s s' Hdy Hrow HI.
      replace (buffer_index radius (- radius) (dy + 1))
        with (buffer_index radius (radius + 1) dy) by (unfold buffer_index; lia).
      refine (for_range_indexed (λ dx, smudged tile x0 y0 radius strength (buffer_index radius dx dy))
                _ _ _ _ _ _ _ Hrow HI); [lia|].
      clear Hrow HI s s'. intros dx [[t0 d0] i] s' Hdx Hbody (Hi & Hw0 & HI).
      cbn [fst snd] in *. subst i.
      destruct (offset_in_tile dx dy) as [Hin Hr0]; [lia..|].
      rewrite Hin in Hbody. unfold Tile.at_mut in Hbody. rewrite Hr0 in Hbody.
      rewrite Hbuf in Hbody by lia.
      destruct (stored_in_range tile _ _ Hwf Hr0) as [p Hp].
      assert (Tile.at_const tile (x0 + dx) (y0 + dy) = Some p) as Hat
        by (unfold Tile.at_const; by rewrite Hr0).
      rewrite Hat in Hbody. cbn [mbind option_bind] in Hbody.
      fold (smudge_alpha strength radius dx dy) in Hbody.
      assert (Tile.at_const t0 (x0 + dx) (y0 + dy) = Some p) as Hat0.
      { rewrite HI by done. rewrite <- Hat.
        replace (x0 + dx - x0) with dx by lia. replace (y0 + dy - y0) with dy by lia.
        rewrite Z.ltb_irrefl, andb_false_r. done. }
      unfold Tile.at_const in Hat0. rewrite Hr0 in Hat0.
      cbn [Tile.load Tile.store Tile.setDirty Tile.pixels_] in Hbody.
      rewrite Hat0 in Hbody. cbn [mbind option_bind] in Hbody.
      destruct (mix_pixel p (smudge_alpha strength radius dx dy) p) as [p'|] eqn:Hmix;
        [|done].
      cbn [mbind option_bind] in Hbody. simplify_eq.
      fold (tile_with t0 (Z.to_nat ((y0 + dy) * TILE_SIZE + (x0 + dx))) p').
      split; [unfold buffer_index; cbn; lia|]. cbn [fst snd].
      split.
      { unfold Tile.wf, tile_with. cbn [Tile.set_pixels Tile.pixels_].
        by rewrite length_insert. }
      intros x' y' Hr'. rewrite at_const_tile_with by done.
      replace (buffer_index radius (dx + 1) dy)
        with (buffer_index radius dx dy + 1) by (unfold buffer_index; lia).
      case_decide as Heq.
      + injection Heq as -> ->.
        replace (x0 + dx - x0) with dx by lia. replace (y0 + dy - y0) with dy by lia.
        replace (in_square x0 y0 radius (x0 + dx) (y0 + dy)) with true
          by (unfold in_square; lia).
        replace (buffer_index radius dx dy <? buffer_index radius dx dy + 1)
          with true by lia.
        cbn [andb]. rewrite Hat. done.
      + rewrite HI by done.
        destruct (in_square x0 y0 radius x' y') eqn:Hsq; [|done]. cbn [andb].
        assert ((buffer_index radius (x' - x0) (y' - y0) <? buffer_index radius dx dy + 1)
                = (buffer_index radius (x' - x0) (y' - y0) <? buffer_index radius dx dy))
          as ->; [|done].
        unfold in_square in Hsq.
        destruct (decide (buffer_index radius (x' - x0) (y' - y0)
                          = buffer_index radius dx dy)) as [Hk|Hk]; [|lia].
        apply buffer_index_inj in Hk as [Hdx' Hdy']; [|lia..].
        exfalso. apply Heq. f_equal; lia.
    - split; [unfold buffer_index; cbn; lia|]. cbn [fst snd]. split; [done|].
      intros x' y' Hr'.
      destruct (in_square x0 y0 radius x' y') eqn:Hsq; [|done]. cbn [andb].
      replace (buffer_index radius (x' - x0) (y' - y0)
               <? buffer_index radius (- radius) (- radius)) with false; [done|].
      unfold in_square in Hsq. unfold buffer_index. nia. }
  rewrite Hs by done.
  destruct (in_square x0 y0 radius x y) eqn:Hsq; [|done]. cbn [andb].
  replace (buffer_index radius (x - x0) (y - y0)
           <? buffer_index radius (- radius) (radius + 1)) with true; [done|].
  unfold in_square in Hsq. unfold buffer_index. nia.
Qed.
End SmudgeProofs.

(** X30.  The smudge plugin's per-tile filter in its default mode, on a
    full tile and with a radius from 0 to 127, when it returns: every pixel
    of the tile outside the square of side 2 * radius + 1 centred at
    (128, 128) is unchanged, and every pixel inside it has been mixed with
    its own previous value, with weight strength * max(0, 1 - distance /
    radius); no colour is carried from one pixel to another. *)
Theorem plain_smudge_blends_each_pixel_with_itself
    (smart_smudge : Tile.t → Z → Z → Z → spec_float → Smudge.SmudgeState * Statics
                    → option (Tile.t * (Smudge.SmudgeState * Statics)))
    (radius : Z) (strength : spec_float) (tile tile' : Tile.t)
    (gs gs' : Smudge.SmudgeState * Statics) (x y : Z)
    (Hwf : Tile.wf tile)
    (Hradius : 0 ≤ radius ≤ 127)
    (Hrun : Smudge.tile_filter smart_smudge false radius strength tile gs
            = Some (tile', gs'))
    (Hr : Tile.out_of_range x y = false) :
  Tile.at_const tile' x y
  = if in_square 128 128 radius x y
    then p ← Tile.at_const tile x y;
         mix_pixel p (smudge_alpha strength radius (x - 128) (y - 128)) p
    else Tile.at_const tile x y.
Proof.
  unfold Smudge.tile_filter in Hrun.
  change (Z.quot TILE_SIZE 2) with 128 in Hrun.
  destruct (Smudge.pick_up_color tile 128 128 radius gs.1) as [gs1|] eqn:Hpick;
    [|done].
  cbn [mbind option_bind] in Hrun.
  assert (radius ≤ 128 < TILE_SIZE - radius) as H128 by (unfold TILE_SIZE; lia).
  destruct (pick_up_color_spec tile 128 128 radius Hwf ltac:(lia) H128 H128 _ _ Hpick)
    as [Hinit Hbuf].
  by eapply (apply_smudge_spec tile 128 128 radius Hwf ltac:(lia) H128 H128).
Qed.

(** The theorem at the dark tile, strength 0.1 and radius 1. *)
Lemma plain_smudge_blends_each_pixel_with_itself_witness :
  match Smudge.tile_filter no_smart_smudge false 1 F32.c0_1 dark_tile
          (Smudge.g_smudgeState_init, Statics_init) with
  | Some (tile', _) =>
      Tile.at_const tile' 128 128
      = (p ← Tile.at_const dark_tile 128 128;
         mix_pixel p (smudge_alpha F32.c0_1 1 0 0) p)
      ∧ Tile.at_const tile' 130 128 = Tile.at_const dark_tile 130 128
  | None => False
  end.
Proof.
  assert (bool_decide (is_Some (Smudge.tile_filter no_smart_smudge false 1 F32.c0_1
                                  dark_tile (Smudge.g_smudgeState_init, Statics_init)))
          = true) as Hdef by (vm_compute; reflexivity).
  destruct (Smudge.tile_filter no_smart_smudge false 1 F32.c0_1 dark_tile
              (Smudge.g_smudgeState_init, Statics_init))
    as [[tile' gs']|] eqn:Hrun; [|discriminate Hdef].
  assert (Tile.wf dark_tile) as Hwf
    by (apply (bool_decide_eq_true_1 _); vm_compute; reflexivity).
  pose proof (plain_smudge_blends_each_pixel_with_itself no_smart_smudge 1 F32.c0_1
                dark_tile tile' (Smudge.g_smudgeState_init, Statics_init) gs' 128 128
                Hwf ltac:(lia) Hrun eq_refl) as Hin.
  pose proof (plain_smudge_blends_each_pixel_with_itself no_smart_smudge 1 F32.c0_1
                dark_tile tile' (Smudge.g_smudgeState_init, Statics_init) gs' 130 128
                Hwf ltac:(lia) Hrun eq_refl) as Hout.
  change (in_square 128 128 1 128 128) with true in Hin.
  change (128 - 128) with 0 in Hin.
  change (in_square 128 128 1 130 128) with false in Hout.
  split; [exact Hin|exact Hout].
Defined.

(** ** Compositing *)

Lemma for_range_empty {St} lo hi (body : Z → St → option St) s :
  hi ≤ lo → for_range lo hi body s = Some s.
Proof.
  intros Hle. unfold for_range.
  by replace (seqZ lo (hi - lo)) with (@nil Z)
    by (symmetry; apply length_zero_iff_nil; rewrite length_seqZ; lia).
Qed.

Lemma for_range_indexed_max {St} (I : Z → St → Prop) lo hi
    (body : Z → St → option St) :
  (∀ i s s', lo ≤ i < hi → body i s = Some s' → I i s → I (i + 1) s') →
  ∀ s s', for_range lo hi body s = Some s' → I lo s → I (Z.max lo hi) s'.
Proof.
  intros Hstep s s' Hl HI. destruct (decide (lo ≤ hi)) as [Hle|Hgt].
  - rewrite Z.max_r by done. by eapply for_range_indexed.
  - rewrite for_range_empty in Hl by lia. simplify_eq. by rewrite Z.max_l by lia.
Qed.

Lemma for_range_defined {St} (I : Z → St → Prop) lo hi
    (body : Z → St → option St) :
  (∀ i s, lo ≤ i < hi → I i s → ∃ s', body i s = Some s' ∧ I (i + 1) s') →
  ∀ s, I lo s → ∃ s', for_range lo hi body s = Some s' ∧ I (Z.max lo hi) s'.
Proof.
  intros Hstep s HI. destruct (decide (lo ≤ hi)) as [Hle|Hgt].
  - rewrite Z.max_r by done. by apply for_range_invariant.
  - exists s. rewrite for_range_empty by lia. by rewrite Z.max_l by lia.
Qed.

Lemma in_tile_range px py :
  0 ≤ px < TILE_SIZE → 0 ≤ py < TILE_SIZE → Tile.out_of_range px py = false.
Proof.
  intros Hpx Hpy. unfold Tile.out_of_range, TILE_SIZE in *.
  rewrite !Z.geb_leb, !orb_false_iff, !Z.leb_gt, !Z.ltb_ge. lia.
Qed.

Lemma out_of_range_bounds px py :
  Tile.out_of_range px py = false → 0 ≤ px < TILE_SIZE ∧ 0 ≤ py < TILE_SIZE.
Proof. unfold Tile.out_of_range, TILE_SIZE. lia. Qed.

(** One pixel of [render_tile]. *)
Lemma blend_at_step mode opacity S D d px py s :
  Tile.wf S → Tile.wf D → 0 ≤ px < TILE_SIZE → 0 ≤ py < TILE_SIZE →
  rendering mode opacity S D d (py * TILE_SIZE + px) s →
  (∀ s', blend_at mode opacity px py s = Some s' →
         rendering mode opacity S D d (py * TILE_SIZE + (px + 1)) s')
  ∧ (is_Some (blend_of mode opacity S D px py) →
     is_Some (blend_at mode opacity px py s)).
Proof.
  intros HS HD Hpx Hpy. destruct s as [[S1 D1] d1].
  intros (Hd & Hp1 & Hx1 & Hy1 & _ & Hw1 & _ & HI). cbn [fst snd] in *. subst d1.
  pose proof (in_tile_range px py Hpx Hpy) as Hr.
  destruct (stored_in_range S _ _ HS Hr) as [sv Hsv].
  destruct (stored_in_range D _ _ HD Hr) as [dv Hdv].
  assert (Tile.pixels_ D1 !! Z.to_nat (py * TILE_SIZE + px) = Some dv) as Hdv1.
  { pose proof (HI px py Hr) as H. rewrite Z.ltb_irrefl in H.
    unfold Tile.at_const in H. by rewrite Hr, Hdv in H. }
  assert (blend_of mode opacity S D px py
          = CanvasCore.blendPixels dv sv mode opacity) as Hof.
  { unfold blend_of, Tile.at_const. by rewrite Hr, Hdv, Hsv. }
  assert (blend_at mode opacity px py (S1, D1, d)
          = (p ← CanvasCore.blendPixels dv sv mode opacity;
             Some (Tile.setDirty true S1,
                   tile_with D1 (Z.to_nat (py * TILE_SIZE + px)) p, d))) as Hat.
  { unfold blend_at, Tile.at_mut. cbn [fst snd]. rewrite Hr.
    cbn [Tile.load Tile.store Tile.setDirty Tile.pixels_].
    rewrite Hdv1, Hp1, Hsv. cbn [mbind option_bind].
    by destruct (CanvasCore.blendPixels dv sv mode opacity). }
  rewrite Hat, Hof. split.
  - intros s' Hs'.
    destruct (CanvasCore.blendPixels dv sv mode opacity) as [p|] eqn:Hblend; [|done].
    cbn [mbind option_bind] in Hs'. injection Hs' as <-.
    unfold rendering. cbn [fst snd Tile.setDirty Tile.pixels_ Tile.x_ Tile.y_ Tile.dirty_].
    split_and!; try done.
    { unfold Tile.wf, tile_with. cbn [Tile.set_pixels Tile.pixels_].
      by rewrite length_insert. }
    intros px' py' Hr'. rewrite at_const_tile_with by done.
    case_decide as Heq.
    + injection Heq as -> ->.
      replace (py * TILE_SIZE + px <? py * TILE_SIZE + (px + 1)) with true by lia.
      by rewrite Hof.
    + rewrite HI by done.
      assert ((py' * TILE_SIZE + px' <? py * TILE_SIZE + (px + 1))
              = (py' * TILE_SIZE + px' <? py * TILE_SIZE + px)) as ->; [|done].
      destruct (decide (py' * TILE_SIZE + px' = py * TILE_SIZE + px)) as [Hk|Hk];
        [|lia].
      exfalso. apply Heq. apply out_of_range_bounds in Hr'.
      unfold TILE_SIZE in *. f_equal; lia.
  - intros [p ->]. done.
Qed.

Lemma rendering_start mode opacity S D d :
  Tile.wf D → rendering mode opacity S D d (0 * TILE_SIZE + 0) (S, D, d).
Proof.
  intros HD. unfold rendering. cbn [fst snd]. split_and!; try done; try lia.
  intros px py [Hpx Hpy]%out_of_range_bounds.
  replace (py * TILE_SIZE + px <? 0 * TILE_SIZE + 0) with false; [done|].
  unfold TILE_SIZE in *. lia.
Qed.

Lemma rendering_end mode opacity S D d S' D' d' :
  rendering mode opacity S D d (TILE_SIZE * TILE_SIZE + 0) (S', D', d') →
  d' = d ∧ S' = Tile.setDirty true S ∧ blended mode opacity S D D'.
Proof.
  intros (Hd & Hpx & Hx & Hy & Hdirty & Hwf' & Hdirty' & Hall). cbn [fst snd] in *.
  split; [done|]. split.
  - destruct S', S. cbn in *. subst. rewrite Hdirty by done. done.
  - split; [done|]. split; [by apply Hdirty'|].
    intros px py Hr. rewrite Hall by done.
    apply out_of_range_bounds in Hr.
    replace (py * TILE_SIZE + px <? TILE_SIZE * TILE_SIZE + 0) with true; [done|].
    unfold TILE_SIZE in *. lia.
Qed.

Lemma render_tile_spec mode opacity S D d S' D' d' :
  Tile.wf S → Tile.wf D →
  render_tile mode opacity S D d = Some (S', D', d') →
  d' = d ∧ S' = Tile.setDirty true S ∧ blended mode opacity S D D'.
Proof.
  intros HS HD Hrun. unfold render_tile in Hrun. apply rendering_end.
  refine (for_range_indexed
            (λ py, rendering mode opacity S D d (py * TILE_SIZE + 0))
            _ _ _ _ _ _ _ Hrun _); [done| |by apply rendering_start].
  intros py s s' Hpy Hrow HI.
  replace ((py + 1) * TILE_SIZE + 0) with (py * TILE_SIZE + TILE_SIZE) by lia.
  refine (for_range_indexed
            (λ px, rendering mode opacity S D d (py * TILE_SIZE + px))
            _ _ _ _ _ _ _ Hrow HI); [done|].
  intros px s1 s2 Hpx Hbody HI1.
  by apply (blend_at_step mode opacity S D d px py s1).
Qed.

Lemma render_tile_defined mode opacity S D d :
  Tile.wf S → Tile.wf D →
  (∀ px py, Tile.out_of_range px py = false →
            is_Some (blend_of mode opacity S D px py)) →
  is_Some (render_tile mode opacity S D d).
Proof.
  intros HS HD Hdef. unfold render_tile.
  destruct (for_range_invariant
              (λ py, rendering mode opacity S D d (py * TILE_SIZE + 0))
              0 TILE_SIZE
              (λ py, for_range 0 TILE_SIZE (λ px, blend_at mode opacity px py))
              (S, D, d)) as (s' & -> & _); [done|by apply rendering_start| |done].
  intros py s Hpy HI.
  replace ((py + 1) * TILE_SIZE + 0) with (py * TILE_SIZE + TILE_SIZE) by lia.
  apply (for_range_invariant
           (λ px, rendering mode opacity S D d (py * TILE_SIZE + px)));
    [done|done|].
  intros px s1 Hpx HI1.
  destruct (blend_at_step mode opacity S D d px py s1 HS HD Hpx Hpy HI1)
    as [Hnext Hsome].
  destruct Hsome as [s2 Hs2]; [by apply Hdef, in_tile_range|].
  exists s2. split; [done|]. by apply Hnext.
Qed.

Lemma of_nat_to_nat_max z : Z.of_nat (Z.to_nat z) = Z.max 0 z.
Proof. lia. Qed.

Lemma same_tiling_addressable gr gr' x y :
  same_tiling gr gr' → addressable gr x y →
  addressable gr' x y ∧ tile_index gr' x y = tile_index gr x y.
Proof.
  intros [Hx Hy] Ha.
  unfold addressable, grid_out_of_range, TileGrid.tile_out_of_range, tile_index in *.
  by rewrite Hx, Hy.
Qed.

Lemma at_const_stored tl x y :
  Tile.out_of_range (Z.rem x TILE_SIZE) (Z.rem y TILE_SIZE) = false →
  Tile.at_const tl (Z.rem x TILE_SIZE) (Z.rem y TILE_SIZE)
  = Tile.pixels_ tl !! pixel_index x y.
Proof. intros Hr. unfold Tile.at_const. by rewrite Hr. Qed.

Lemma tile_coords t p :
  0 ≤ t → 0 ≤ p < TILE_SIZE →
  Z.quot (t * TILE_SIZE + p) TILE_SIZE = t ∧ Z.rem (t * TILE_SIZE + p) TILE_SIZE = p.
Proof.
  intros Ht Hp. unfold TILE_SIZE in *.
  rewrite Z.quot_div_nonneg, Z.rem_mod_nonneg by lia.
  rewrite (Z.add_comm (t * 256)), Z.div_add, Z.mod_add by lia.
  rewrite Z.div_small, Z.mod_small by lia. lia.
Qed.

Lemma tile_in_range gr tx ty :
  0 ≤ tx < TileGrid.tileCountX_ gr → 0 ≤ ty < TileGrid.tileCountY_ gr →
  TileGrid.tile_out_of_range gr tx ty = false.
Proof.
  intros Hx Hy. unfold TileGrid.tile_out_of_range.
  rewrite !Z.geb_leb, !orb_false_iff, !Z.leb_gt, !Z.ltb_ge. lia.
Qed.

(** The pixel [(px, py)] of the tile [(tx, ty)] of a grid. *)
Lemma getPixel_const_tile gr tx ty px py tl :
  0 ≤ tx < TileGrid.tileCountX_ gr → 0 ≤ ty < TileGrid.tileCountY_ gr →
  0 ≤ px < TILE_SIZE → 0 ≤ py < TILE_SIZE →
  TileGrid.tiles_ gr !! Z.to_nat (ty * TileGrid.tileCountX_ gr + tx) = Some tl →
  addressable gr (tx * TILE_SIZE + px) (ty * TILE_SIZE + py)
  ∧ TileGrid.getPixel_const gr (tx * TILE_SIZE + px) (ty * TILE_SIZE + py)
    = Tile.at_const tl px py.
Proof.
  intros Hx Hy Hpx Hpy Htl.
  destruct (tile_coords tx px) as [Hqx Hrx]; [lia..|].
  destruct (tile_coords ty py) as [Hqy Hry]; [lia..|].
  pose proof (tile_in_range gr tx ty Hx Hy) as Ht.
  pose proof (in_tile_range px py Hpx Hpy) as Hr.
  split.
  - unfold addressable, grid_out_of_range. by rewrite Hqx, Hqy, Hrx, Hry, Ht, Hr.
  - unfold TileGrid.getPixel_const, TileGrid.getTile_const.
    rewrite Hqx, Hqy, Hrx, Hry, Ht, Htl. done.
Qed.

Lemma rendering_tiles_start mode opacity G T st n :
  n ≤ 0 → rendering_tiles mode opacity G T st n (G, T, st) ↔ Forall Tile.wf (TileGrid.tiles_ T).
Proof.
  intros Hn. unfold rendering_tiles. cbn [fst snd]. split.
  - intros (_ & _ & _ & _ & _ & _ & _ & _ & _ & H & _). done.
  - intros H. split_and!; try done.
    intros j. by replace (Z.of_nat j <? n) with false by bool_lia.
Qed.

(** One tile of [Layer_renderTo]. *)
Lemma render_tile_at_step mode opacity G T st tx ty s :
  TileGrid.wf G → TileGrid.wf T → same_tiling T G →
  0 ≤ tx < TileGrid.tileCountX_ G → 0 ≤ ty < TileGrid.tileCountY_ G →
  rendering_tiles mode opacity G T st (ty * TileGrid.tileCountX_ G + tx) s →
  ∃ S D,
    TileGrid.tiles_ G !! Z.to_nat (ty * TileGrid.tileCountX_ G + tx) = Some S
    ∧ TileGrid.tiles_ T !! Z.to_nat (ty * TileGrid.tileCountX_ G + tx) = Some D
    ∧ (∀ s', render_tile_at mode opacity 0 0 tx ty s = Some s' →
             rendering_tiles mode opacity G T st
               (ty * TileGrid.tileCountX_ G + (tx + 1)) s')
    ∧ ((∀ px py, Tile.out_of_range px py = false →
                 is_Some (blend_of mode opacity S D px py)) →
       is_Some (render_tile_at mode opacity 0 0 tx ty s)).
Proof.
  intros HG HT Hsame Htx Hty. destruct s as [[G2 T2] st2].
  set (cx := TileGrid.tileCountX_ G) in *. set (cy := TileGrid.tileCountY_ G) in *.
  pose proof Hsame as [Hcx Hcy]. fold cx in Hcx. fold cy in Hcy.
  intros (Hst & [HGx HGy] & [HT'x HT'y] & HGw & HGh & HTw & HTh & HlG & HlT & HwT & Hi).
  cbn [fst snd] in *. subst st2.
  pose proof (tile_in_range G tx ty Htx Hty) as HrG.
  assert (TileGrid.tile_out_of_range G2 tx ty = false) as HrG2.
  { unfold TileGrid.tile_out_of_range in *. by rewrite HGx, HGy. }
  assert (TileGrid.tile_out_of_range T tx ty = false) as HrT.
  { unfold TileGrid.tile_out_of_range in *. by rewrite <- Hcx, <- Hcy. }
  assert (TileGrid.tile_out_of_range T2 tx ty = false) as HrT2.
  { unfold TileGrid.tile_out_of_range in *. by rewrite HT'x, HT'y. }
  destruct (tile_in_range_lookup G tx ty HG HrG) as (S & HS & HSw).
  destruct (tile_in_range_lookup T tx ty HT HrT) as (D & HD & HDw).
  fold cx in HS. rewrite <- Hcx in HD.
  set (i := Z.to_nat (ty * cx + tx)) in *.
  assert (0 ≤ ty * cx) as Hnn by nia.
  pose proof (Hi i) as Hii.
  replace (Z.of_nat i <? ty * cx + tx) with false in Hii by lia.
  destruct Hii as [HG2i HT2i].
  assert (render_tile_at mode opacity 0 0 tx ty (G2, T2, st)
          = ('(S', D', d') ← render_tile mode opacity S D (dummy_pixel st);
             Some (TileGrid.set_tiles (<[i := S']> (TileGrid.tiles_ G2)) G2,
                   TileGrid.set_tiles (<[i := D']> (TileGrid.tiles_ T2)) T2,
                   mkStatics d' (dummy_tile st)))) as Hat.
  { unfold render_tile_at. cbn [fst snd].
    change (Z.quot 0 TILE_SIZE) with 0. rewrite !Z.add_0_r.
    unfold TileGrid.getTile_mut. rewrite HrG2, HrT2.
    rewrite HGx, HT'x, <- Hcx. fold cx. fold i.
    cbn [TileGrid.deref]. rewrite HG2i, HS, HT2i, HD.
    cbn [mbind option_bind].
    destruct (render_tile mode opacity S D (dummy_pixel st)) as [[[S' D'] d']|];
      done. }
  exists S, D. split; [done|]. split; [done|]. rewrite Hat. split.
  - intros s' Hs'.
    destruct (render_tile mode opacity S D (dummy_pixel st))
      as [[[S' D'] d']|] eqn:Htile; [|done].
    cbn [mbind option_bind] in Hs'.
    destruct (render_tile_spec _ _ _ _ _ _ _ _ HSw HDw Htile) as (-> & -> & Hbl).
    injection Hs' as <-. unfold rendering_tiles.
    cbn [fst snd TileGrid.set_tiles TileGrid.tiles_ TileGrid.width_
         TileGrid.height_ TileGrid.tileCountX_ TileGrid.tileCountY_].
    split_and!; try done.
    + by destruct st.
    + by rewrite length_insert.
    + by rewrite length_insert.
    + apply Forall_insert; [done|]. by destruct Hbl.
    + intros j. destruct (decide (j = i)) as [->|Hne].
      * replace (Z.of_nat i <? ty * cx + (tx + 1)) with true by lia.
        rewrite !list_lookup_insert_eq
          by (first [rewrite HlG|rewrite HlT]; by eapply lookup_lt_Some).
        rewrite HS. split; [done|]. intros D0 HD0.
        assert (D0 = D) as -> by congruence. by exists S, D'.
      * rewrite !list_lookup_insert_ne by done.
        replace (Z.of_nat j <? ty * cx + (tx + 1))
          with (Z.of_nat j <? ty * cx + tx) by lia.
        pose proof (Hi j) as Hj.
        destruct (Z.of_nat j <? ty * cx + tx); [|done].
        destruct Hj as [Hj1 Hj2]. split; [done|].
        intros D0 HD0. destruct (Hj2 D0 HD0) as (S0 & D0' & ? & ? & ?).
        by exists S0, D0'.
  - intros Hdef.
    destruct (render_tile_defined mode opacity S D (dummy_pixel st) HSw HDw Hdef)
      as [[[S' D'] d'] ->].
    done.
Qed.

(** The state after the tile loops. *)
Lemma rendering_tiles_end l T st G1 T1 st1 :
  TileGrid.wf (Layer.pixels_ l) → TileGrid.wf T →
  same_tiling T (Layer.pixels_ l) → hidden l = false →
  rendering_tiles (Layer.blendMode_ l) (Layer.opacity_ l) (Layer.pixels_ l) T st
    (Z.max 0 (TileGrid.tileCountY_ (Layer.pixels_ l))
     * Z.max 0 (TileGrid.tileCountX_ (Layer.pixels_ l)) + 0) (G1, T1, st1) →
  st1 = st ∧ Layer.set_pixels G1 l = touched l ∧ TileGrid.wf T1 ∧ same_tiling T T1
  ∧ TileGrid.width_ T1 = TileGrid.width_ T
  ∧ TileGrid.height_ T1 = TileGrid.height_ T
  ∧ ∀ x y, addressable T x y →
      TileGrid.getPixel_const T1 x y
      = (dest ← TileGrid.getPixel_const T x y; render_pixel l x y dest).
Proof.
  intros HG HT Hsame Hh.
  set (G := Layer.pixels_ l) in *.
  set (mode := Layer.blendMode_ l) in *. set (opacity := Layer.opacity_ l) in *.
  set (cx := TileGrid.tileCountX_ G) in *. set (cy := TileGrid.tileCountY_ G) in *.
  pose proof Hsame as [Hcx Hcy]. fold cx in Hcx. fold cy in Hcy.
  pose proof HG as (_ & _ & HlenG & HallG). fold cx cy in HlenG.
  pose proof HT as (HTx & HTy & HlenT & HallT). rewrite <- Hcx, <- Hcy in HlenT.
  intros (Hst & [HGx HGy] & [HT'x HT'y] & HGw & HGh & HTw & HTh & HlG & HlT & HwT & Hi).
  cbn [fst snd] in *.
  assert (Z.max 0 cy * Z.max 0 cx + 0 = Z.of_nat (length (TileGrid.tiles_ G))) as HN.
  { by rewrite Z.add_0_r, HlenG, Nat2Z.inj_mul, !of_nat_to_nat_max. }
  rewrite HN in Hi.
  split; [done|]. split.
  { unfold touched. rewrite Hh. f_equal. fold G.
    destruct G1 as [ts1 w1 h1 cx1 cy1]. cbn in *. subst.
    unfold TileGrid.set_tiles. f_equal. apply list_eq. intros j.
    pose proof (Hi j) as Hj. rewrite list_lookup_fmap.
    destruct (Z.of_nat j <? Z.of_nat (length (TileGrid.tiles_ G))) eqn:Hlt;
      [by destruct Hj|].
    destruct Hj as [-> _]. rewrite lookup_ge_None_2 by lia. done. }
  split.
  { unfold TileGrid.wf. rewrite HT'x, HT'y, HTw, HTh, HlT.
    destruct HT as (? & ? & ? & ?). done. }
  split; [done|]. split; [done|]. split; [done|].
  intros x y Ha.
  destruct (addressable_lookup T x y HT Ha) as (D & q & HD & HDw & Hq & Hc).
  pose proof Ha as [_ Hl]%addressable_split.
  destruct (same_tiling_addressable T T1 x y) as [Ha' Hi']; [done..|].
  destruct (same_tiling_addressable T G x y) as [HaG HiG]; [done..|].
  pose proof (Hi (tile_index T x y)) as Hj.
  replace (Z.of_nat (tile_index T x y) <? Z.of_nat (length (TileGrid.tiles_ G)))
    with true in Hj.
  2:{ apply lookup_lt_Some in HD. symmetry. apply Z.ltb_lt.
      rewrite HlenG, <- HlenT. lia. }
  destruct Hj as [_ Hj]. destruct (Hj D HD) as (S & D' & HS & HD' & _ & _ & Hbl).
  rewrite (getPixel_const_addr T1) by done. rewrite Hi', HD'.
  cbn [mbind option_bind]. rewrite <- at_const_stored by done.
  rewrite Hbl by done. unfold blend_of. rewrite !at_const_stored by done.
  rewrite Hc, Hq. cbn [mbind option_bind].
  unfold render_pixel. rewrite Hh. fold G.
  rewrite (getPixel_const_addr G) by done. rewrite HiG, HS. done.
Qed.

Lemma Layer_renderTo_spec l T st l' T' st' :
  TileGrid.wf (Layer.pixels_ l) → TileGrid.wf T →
  same_tiling T (Layer.pixels_ l) →
  Layer_renderTo l T st 0 0 = Some (l', T', st') →
  st' = st ∧ l' = touched l ∧ TileGrid.wf T' ∧ same_tiling T T'
  ∧ TileGrid.width_ T' = TileGrid.width_ T
  ∧ TileGrid.height_ T' = TileGrid.height_ T
  ∧ ∀ x y, addressable T x y →
      TileGrid.getPixel_const T' x y
      = (dest ← TileGrid.getPixel_const T x y; render_pixel l x y dest).
Proof.
  intros HG HT Hsame Hrun. unfold Layer_renderTo in Hrun.
  fold (hidden l) in Hrun. destruct (hidden l) eqn:Hh.
  { injection Hrun as <- <- <-. unfold touched, render_pixel. rewrite Hh.
    split_and!; try done. intros x y Ha.
    by destruct (TileGrid.getPixel_const T x y). }
  destruct (for_range _ _ _ _) as [[[G1 T1] st1]|] eqn:Hloop; [|done].
  cbn [mbind option_bind] in Hrun. injection Hrun as <- <- <-.
  apply (rendering_tiles_end l T st G1 T1 st1 HG HT Hsame Hh).
  set (cx := TileGrid.tileCountX_ (Layer.pixels_ l)) in *.
  refine (for_range_indexed_max
            (λ ty, rendering_tiles _ _ (Layer.pixels_ l) T st (ty * Z.max 0 cx + 0))
            _ _ _ _ _ _ Hloop _).
  - intros ty s s' Hty Hrow HI.
    replace ((ty + 1) * Z.max 0 cx + 0) with (ty * Z.max 0 cx + Z.max 0 cx) by lia.
    refine (for_range_indexed_max
              (λ tx, rendering_tiles _ _ (Layer.pixels_ l) T st (ty * Z.max 0 cx + tx))
              _ _ _ _ _ _ Hrow HI).
    intros tx s1 s2 Htx Hbody HI1. rewrite (Z.max_r 0 cx) in * by lia.
    destruct (render_tile_at_step _ _ _ _ _ tx ty s1 HG HT Hsame Htx Hty HI1)
      as (S & D & _ & _ & Hnext & _).
    by apply Hnext.
  - apply rendering_tiles_start; [lia|]. by destruct HT as (_ & _ & _ & ?).
Qed.

Lemma Layer_renderTo_defined l T st :
  TileGrid.wf (Layer.pixels_ l) → TileGrid.wf T →
  same_tiling T (Layer.pixels_ l) →
  (∀ x y, addressable T x y →
          is_Some (dest ← TileGrid.getPixel_const T x y; render_pixel l x y dest)) →
  is_Some (Layer_renderTo l T st 0 0).
Proof.
  intros HG HT Hsame Hdef. unfold Layer_renderTo.
  fold (hidden l). destruct (hidden l) eqn:Hh; [done|].
  set (cx := TileGrid.tileCountX_ (Layer.pixels_ l)) in *.
  set (cy := TileGrid.tileCountY_ (Layer.pixels_ l)) in *.
  destruct (for_range_defined
              (λ ty, rendering_tiles (Layer.blendMode_ l) (Layer.opacity_ l)
                       (Layer.pixels_ l) T st (ty * Z.max 0 cx + 0))
              0 cy
              (λ ty, for_range 0 cx (λ tx,
                 render_tile_at (Layer.blendMode_ l) (Layer.opacity_ l) 0 0 tx ty))
              ) with (s := (Layer.pixels_ l, T, st)) as ([[G1 T1] st1] & -> & _);
    [| |done].
  - intros ty s Hty HI.
    replace ((ty + 1) * Z.max 0 cx + 0) with (ty * Z.max 0 cx + Z.max 0 cx) by lia.
    apply (for_range_defined
             (λ tx, rendering_tiles (Layer.blendMode_ l) (Layer.opacity_ l)
                      (Layer.pixels_ l) T st (ty * Z.max 0 cx + tx))); [|done].
    intros tx s1 Htx HI1. rewrite (Z.max_r 0 cx) in * by lia.
    destruct (render_tile_at_step _ _ _ _ _ tx ty s1 HG HT Hsame Htx Hty HI1)
      as (S & D & HS & HD & Hnext & Hsome).
    destruct Hsome as [s2 Hs2].
    { intros px py [Hpx Hpy]%out_of_range_bounds.
      pose proof Hsame as [Hcx Hcy]. fold cx in Hcx. fold cy in Hcy.
      destruct (getPixel_const_tile (Layer.pixels_ l) tx ty px py S) as [_ HpG];
        [done..|].
      destruct (getPixel_const_tile T tx ty px py D) as [Ha HpT];
        [by rewrite <- Hcx|by rewrite <- Hcy|done|done|by rewrite <- Hcx|].
      specialize (Hdef _ _ Ha). rewrite HpT in Hdef.
      unfold render_pixel in Hdef. rewrite Hh, HpG in Hdef. done. }
    exists s2. split; [done|]. by apply Hnext.
  - apply rendering_tiles_start; [lia|]. by destruct HT as (_ & _ & _ & ?).
Qed.

Lemma render_layers_spec ls : ∀ done T st ls' T' st',
  Forall (λ l, TileGrid.wf (Layer.pixels_ l) ∧ same_tiling T (Layer.pixels_ l)) ls →
  TileGrid.wf T →
  for_each ls
    (λ layer (s : list Layer.t * TileGrid.t * Statics),
      '(layer', target1, st1) ← Layer_renderTo layer s.1.2 s.2 0 0;
      Some (s.1.1 ++ [layer'], target1, st1))
    (done, T, st) = Some (ls', T', st') →
  st' = st ∧ ls' = done ++ (touched <$> ls) ∧ TileGrid.wf T' ∧ same_tiling T T'
  ∧ TileGrid.width_ T' = TileGrid.width_ T
  ∧ TileGrid.height_ T' = TileGrid.height_ T
  ∧ ∀ x y, addressable T x y →
      TileGrid.getPixel_const T' x y
      = (dest ← TileGrid.getPixel_const T x y; composite_pixel ls x y dest).
Proof.
  induction ls as [|l ls IH]; intros done T st ls' T' st' Hall HT Hrun.
  - simpl in Hrun. injection Hrun as <- <- <-. rewrite app_nil_r.
    split_and!; try done. intros x y Ha.
    by destruct (TileGrid.getPixel_const T x y).
  - apply Forall_cons in Hall as [[Hl Hsame] Hall]. cbn [for_each fst snd] in Hrun.
    destruct (Layer_renderTo l T st 0 0) as [[[l1 T1] st1]|] eqn:Hlayer; [|done].
    cbn [mbind option_bind] in Hrun.
    destruct (Layer_renderTo_spec _ _ _ _ _ _ Hl HT Hsame Hlayer)
      as (-> & -> & HT1 & [Hx Hy] & Hw & Hh & Hpx).
    apply IH in Hrun as (-> & -> & HT' & [Hx' Hy'] & Hw' & Hh' & Hpx'); [|  |done].
    2:{ eapply Forall_impl; [exact Hall|]. intros l0 [? [? ?]].
        split; [done|]. split; congruence. }
    split_and!; try done; try congruence.
    + by rewrite <- app_assoc.
    + split; congruence.
    + intros x y Ha.
      destruct (same_tiling_addressable T T1 x y) as [Ha1 _]; [done..|].
      rewrite Hpx', Hpx by done.
      destruct (TileGrid.getPixel_const T x y) as [d0|]; [|done].
      cbn [mbind option_bind]. unfold composite_pixel. cbn [for_each]. done.
Qed.

Lemma render_layers_defined ls : ∀ done T st,
  Forall (λ l, TileGrid.wf (Layer.pixels_ l) ∧ same_tiling T (Layer.pixels_ l)) ls →
  TileGrid.wf T →
  (∀ x y, addressable T x y →
          is_Some (dest ← TileGrid.getPixel_const T x y; composite_pixel ls x y dest)) →
  is_Some (for_each ls
             (λ layer (s : list Layer.t * TileGrid.t * Statics),
               '(layer', target1, st1) ← Layer_renderTo layer s.1.2 s.2 0 0;
               Some (s.1.1 ++ [layer'], target1, st1))
             (done, T, st)).
Proof.
  induction ls as [|l ls IH]; intros acc T st Hall HT Hdef; [by eexists|].
  apply Forall_cons in Hall as [[Hl Hsame] Hall]. cbn [for_each fst snd].
  destruct (Layer_renderTo_defined l T st Hl HT Hsame) as [[[l1 T1] st1] Hlayer].
  { intros x y Ha. specialize (Hdef x y Ha).
    destruct (TileGrid.getPixel_const T x y) as [d0|]; [|done].
    cbn [mbind option_bind] in *. unfold composite_pixel in Hdef. cbn [for_each] in Hdef.
    by destruct (render_pixel l x y d0). }
  rewrite Hlayer. cbn [mbind option_bind].
  destruct (Layer_renderTo_spec _ _ _ _ _ _ Hl HT Hsame Hlayer)
    as (-> & -> & HT1 & [Hx Hy] & Hw & Hh & Hpx).
  apply IH; [|done|].
  - eapply Forall_impl; [exact Hall|]. intros l0 [? [? ?]].
    split; [done|]. split; congruence.
  - intros x y Ha1.
    destruct (same_tiling_addressable T1 T x y) as [Ha _]; [by split|done|].
    rewrite Hpx by done. specialize (Hdef x y Ha).
    destruct (TileGrid.getPixel_const T x y) as [d0|]; [|done].
    cbn [mbind option_bind] in *. unfold composite_pixel in Hdef. cbn [for_each] in Hdef.
    done.
Qed.

Lemma CanvasCore_renderTo_spec c target st c' target' st' :
  Forall (λ l, TileGrid.wf (Layer.pixels_ l) ∧ same_tiling target (Layer.pixels_ l))
         (CanvasCore.layers_ c) →
  TileGrid.wf target →
  CanvasCore_renderTo c target st = Some (c', target', st') →
  st' = st
  ∧ c' = CanvasCore.set_layers (touched <$> CanvasCore.layers_ c) c
  ∧ TileGrid.wf target' ∧ same_tiling target target'
  ∧ TileGrid.width_ target' = TileGrid.width_ target
  ∧ TileGrid.height_ target' = TileGrid.height_ target
  ∧ ∀ x y, addressable target x y →
      TileGrid.getPixel_const target' x y
      = composite_pixel (CanvasCore.layers_ c) x y Pixel_default.
Proof.
  intros Hall HT Hrun. unfold CanvasCore_renderTo in Hrun.
  destruct (for_each _ _ _) as [[[ls T1] st1]|] eqn:Hloop; [|done].
  cbn [mbind option_bind] in Hrun. injection Hrun as <- <- <-.
  assert (TileGrid.clear target = TileGrid.fill Pixel_default target) as Hclear by done.
  rewrite Hclear in Hloop.
  apply render_layers_spec in Hloop as (-> & -> & HT' & [Hx Hy] & Hw & Hh & Hpx);
    [|done|by apply TileGrid_fill_wf].
  split_and!; try done.
  intros x y Ha. rewrite Hpx by done.
  by rewrite getPixel_const_fill.
Qed.

Lemma CanvasCore_renderTo_defined c target st :
  Forall (λ l, TileGrid.wf (Layer.pixels_ l) ∧ same_tiling target (Layer.pixels_ l))
         (CanvasCore.layers_ c) →
  TileGrid.wf target →
  (∀ x y, addressable target x y →
          is_Some (composite_pixel (CanvasCore.layers_ c) x y Pixel_default)) →
  is_Some (CanvasCore_renderTo c target st).
Proof.
  intros Hall HT Hdef. unfold CanvasCore_renderTo.
  assert (TileGrid.clear target = TileGrid.fill Pixel_default target) as -> by done.
  destruct (render_layers_defined (CanvasCore.layers_ c) []
              (TileGrid.fill Pixel_default target) st) as [[[ls T1] st1] ->];
    [done|by apply TileGrid_fill_wf| |done].
  intros x y Ha. rewrite getPixel_const_fill by done. by apply Hdef.
Qed.

(** ** Opaque sources *)

Lemma to_uint16_range f v : F32.to_uint16 f = Some v → 0 ≤ v < 65536.
Proof.
  unfold F32.to_uint16. destruct (F32.trunc f) as [z|]; [|done]. simpl.
  case_match eqn:Hr; [|done]. intros [= <-]. lia.
Qed.

Lemma blendPixels_ok dest src mode opacity p :
  Pixel_ok dest → CanvasCore.blendPixels dest src mode opacity = Some p → Pixel_ok p.
Proof.
  intros Hd. unfold CanvasCore.blendPixels, CanvasCore.blend_channel.
  case_match; [by intros [= <-]|].
  case_match; [|by intros [= <-]].
  intros Hb.
  repeat match type of Hb with
         | context [F32.to_uint16 ?f ≫= _] =>
             let Hf := fresh "Hf" in
             destruct (F32.to_uint16 f) eqn:Hf; [apply to_uint16_range in Hf|done];
             cbn [mbind option_bind] in Hb
         end.
  injection Hb as <-. unfold Pixel_ok. cbn [r g b a]. done.
Qed.

Lemma composite_pixel_ok ls x y : ∀ d p,
  Pixel_ok d → composite_pixel ls x y d = Some p → Pixel_ok p.
Proof.
  unfold composite_pixel. induction ls as [|l ls IH]; intros d p Hd H.
  - simpl in H. by simplify_eq.
  - cbn [for_each] in H.
    destruct (render_pixel l x y d) as [d1|] eqn:Hl; [|done].
    cbn [mbind option_bind] in H. apply (IH d1); [|done].
    unfold render_pixel in Hl. destruct (hidden l); [by simplify_eq|].
    destruct (TileGrid.getPixel_const _ x y) as [src|]; [|done].
    by eapply blendPixels_ok.
Qed.

Lemma composite_pixel_app ls1 ls2 x y d :
  composite_pixel (ls1 ++ ls2) x y d
  = composite_pixel ls1 x y d ≫= composite_pixel ls2 x y.
Proof.
  unfold composite_pixel. revert d. induction ls1 as [|l ls1 IH]; intros d; [done|].
  cbn [app for_each]. destruct (render_pixel l x y d) as [d1|]; [|done].
  cbn [mbind option_bind]. apply IH.
Qed.

Lemma Pixel_default_ok : Pixel_ok Pixel_default.
Proof. unfold Pixel_ok, Pixel_default. simpl. lia. Qed.

Lemma blend_opaque_normal D S :
  Pixel_ok D → Pixel_ok S → a S = 65535 →
  CanvasCore.blendPixels D S Normal F32.one = Some S.
Proof.
  intros HD HS Ha. pose proof HS as (HSr & HSg & HSb & _).
  destruct (channel_ok_spec _ HSr) as [Hur Hrr].
  destruct (channel_ok_spec _ HSg) as [Hug Hrg].
  destruct (channel_ok_spec _ HSb) as [Hub Hrb].
  rewrite blendPixels_opaque by done. cbn [CanvasCore.blend_fn].
  rewrite Hrr, Hrg, Hrb. cbn [mbind option_bind]. rewrite <- Ha. by destruct S.
Qed.

(** A new canvas can be composited: every pixel of its opaque black
    background blends onto the cleared target. *)
Lemma fresh_canvas_renders width height st :
  is_Some (CanvasCore_renderTo (CanvasCore.new width height)
             (TileGrid.new width height) st).
Proof.
  apply CanvasCore_renderTo_defined.
  - constructor; [|constructor]. split; [apply TileGrid_wf_new|]. by split.
  - apply TileGrid_wf_new.
  - intros x y _. unfold composite_pixel. cbn [CanvasCore.new CanvasCore.addLayer
      CanvasCore.set_layers CanvasCore.layers_ app for_each].
    unfold render_pixel, hidden, Layer.new.
    cbn [Layer.visible_ Layer.opacity_ Layer.blendMode_ Layer.pixels_
         CanvasCore.width_ CanvasCore.height_].
    change (negb true || F32.leb F32.one F32.zero) with false. cbv iota.
    rewrite getPixel_const_new. cbn [mbind option_bind].
    rewrite blend_opaque_normal; [done|apply Pixel_default_ok..|done].
Qed.

(** ** The composite *)

(** [getCompositedImage] is [renderTo] onto a new grid of the canvas size,
    then [toMat]. *)
Lemma getCompositedImage_inv c st c' st' mat :
  getCompositedImage c st = Some (c', st', mat) →
  ∃ composite,
    CanvasCore_renderTo c
      (TileGrid.new (CanvasCore.width_ c) (CanvasCore.height_ c)) st
    = Some (c', composite, st')
    ∧ TileGrid.toMat composite = Some mat.
Proof.
  unfold getCompositedImage. intros Hrun.
  destruct (CanvasCore_renderTo _ _ _) as [[[c1 composite] st1]|]; [|done].
  cbn [mbind option_bind] in Hrun.
  destruct (TileGrid.toMat composite) as [m|] eqn:Hm; [|done].
  cbn [mbind option_bind] in Hrun. injection Hrun as <- <- <-. by exists composite.
Qed.

Lemma getCompositedImage_defined c st :
  Forall (λ l, TileGrid.wf (Layer.pixels_ l)
               ∧ same_tiling (TileGrid.new (CanvasCore.width_ c) (CanvasCore.height_ c))
                             (Layer.pixels_ l))
         (CanvasCore.layers_ c) →
  (∀ x y, addressable (TileGrid.new (CanvasCore.width_ c) (CanvasCore.height_ c)) x y →
          is_Some (composite_pixel (CanvasCore.layers_ c) x y Pixel_default)) →
  is_Some (getCompositedImage c st).
Proof.
  intros Hall Hdef. unfold getCompositedImage.
  destruct (CanvasCore_renderTo_defined c
              (TileGrid.new (CanvasCore.width_ c) (CanvasCore.height_ c)) st)
    as [[[c' composite] st'] Hrun]; [done|apply TileGrid_wf_new|done|].
  rewrite Hrun. cbn [mbind option_bind].
  apply CanvasCore_renderTo_spec in Hrun as (_ & _ & HT' & _);
    [|done|apply TileGrid_wf_new].
  destruct (toMat_spec composite HT') as (m & -> & _). done.
Qed.

(** The image of a new canvas can be composited. *)
Lemma fresh_canvas_composites width height st :
  is_Some (getCompositedImage (CanvasCore.new width height) st).
Proof.
  unfold getCompositedImage.
  change (CanvasCore.width_ (CanvasCore.new width height)) with width.
  change (CanvasCore.height_ (CanvasCore.new width height)) with height.
  destruct (fresh_canvas_renders width height st) as [[[c' target'] st'] Hrun].
  rewrite Hrun. cbn [mbind option_bind].
  apply CanvasCore_renderTo_spec in Hrun as (_ & _ & HT' & _); cycle 1.
  - constructor; [|constructor]. split; [apply TileGrid_wf_new|]. by split.
  - apply TileGrid_wf_new.
  - destruct (toMat_spec target' HT') as (m & -> & _). done.
Qed.

(** X25.  [getCompositedImage] of a well-formed canvas whose width and
    height are not negative and whose layers all have the tile counts of
    the canvas size has a defined result exactly when, at every pixel of an
    allocated tile of the composite (those of the image and the padding up
    to the tile border), blending the layers one after the other from
    bottom to top onto the default pixel is defined, hidden layers
    (invisible, or with opacity at most 0) being skipped. *)
Theorem composited_image_defined_iff_blend_chains_defined
    (c : CanvasCore.t) (st : Statics)
    (Hwf : CanvasCore.wf c)
    (Hwidth : 0 ≤ CanvasCore.width_ c) (Hheight : 0 ≤ CanvasCore.height_ c)
    (Hsame : Forall (λ l, same_tiling
                            (TileGrid.new (CanvasCore.width_ c) (CanvasCore.height_ c))
                            (Layer.pixels_ l)) (CanvasCore.layers_ c)) :
  is_Some (getCompositedImage c st)
  ↔ ∀ x y, addressable (TileGrid.new (CanvasCore.width_ c) (CanvasCore.height_ c)) x y →
      is_Some (composite_pixel (CanvasCore.layers_ c) x y Pixel_default).
Proof.
  destruct Hwf as [Hl _].
  set (target := TileGrid.new (CanvasCore.width_ c) (CanvasCore.height_ c)) in *.
  assert (TileGrid.wf target) as HT by apply TileGrid_wf_new.
  assert (Forall (λ l, TileGrid.wf (Layer.pixels_ l)
                       ∧ same_tiling target (Layer.pixels_ l))
                 (CanvasCore.layers_ c)) as Hall by (by apply Forall_and).
  split.
  - intros [[[c' st'] mat] Hrun] x y Ha.
    apply getCompositedImage_inv in Hrun as (composite & Hrun & _).
    apply CanvasCore_renderTo_spec in Hrun as (_ & _ & HT' & Hsame' & _ & _ & Hpx);
      [|done..].
    rewrite <- Hpx by done.
    destruct (same_tiling_addressable target composite x y) as [Ha' _]; [done..|].
    destruct (addressable_lookup composite x y HT' Ha') as (tl & q & _ & _ & _ & ->).
    done.
  - by apply getCompositedImage_defined.
Qed.

(** The theorem at the 1 x 1 canvas. *)
Lemma composited_image_defined_iff_blend_chains_defined_witness :
  is_Some (getCompositedImage canvas1 Statics_init)
  ↔ ∀ x y, addressable (TileGrid.new 1 1) x y →
      is_Some (composite_pixel (CanvasCore.layers_ canvas1) x y Pixel_default).
Proof.
  apply (composited_image_defined_iff_blend_chains_defined canvas1 Statics_init).
  - apply (bool_decide_eq_true_1 _). vm_compute. reflexivity.
  - simpl. lia.
  - simpl. lia.
  - repeat constructor.
Defined.

Lemma getDirtyTiles_all (ts : list Tile.t) :
  filter (λ tl, Tile.dirty_ tl = true) (Tile.setDirty true <$> ts)
  = Tile.setDirty true <$> ts.
Proof.
  induction ts as [|tl ts IH]; [done|].
  rewrite fmap_cons, filter_cons, decide_True by done. by rewrite IH.
Qed.

Lemma touched_spec l :
  same_metadata l (touched l)
  ∧ (∀ x y, TileGrid.getPixel_const (Layer.pixels_ (touched l)) x y
            = TileGrid.getPixel_const (Layer.pixels_ l) x y)
  ∧ (hidden l = true → touched l = l)
  ∧ (hidden l = false →
     TileGrid.getDirtyTiles (Layer.pixels_ (touched l))
     = TileGrid.tiles_ (Layer.pixels_ (touched l))).
Proof.
  unfold touched. destruct (hidden l) eqn:Hh.
  { split_and!; try done. }
  split_and!; try done.
  - intros x y. apply getPixel_const_ext; try done.
    cbn [Layer.set_pixels Layer.pixels_ TileGrid.set_tiles TileGrid.tiles_].
    rewrite <- list_fmap_compose. done.
  - intros _. unfold TileGrid.getDirtyTiles.
    cbn [Layer.set_pixels Layer.pixels_ TileGrid.set_tiles TileGrid.tiles_].
    apply getDirtyTiles_all.
Qed.

(** X26.  [getCompositedImage] of a well-formed canvas whose width and
    height are not negative and whose layers all have the tile counts of
    the canvas size, when it returns, has changed no pixel value, no
    metadata, not the size, not the number of layers and not the history
    of the canvas; but because [Layer::renderTo] reads the source tiles
    through the mutable accessor, every tile of every layer that is not
    hidden is flagged dirty afterwards.  Hidden layers are left exactly as
    they were. *)
Theorem compositing_flags_every_rendered_layer_dirty
    (c c' : CanvasCore.t) (st st' : Statics) (mat : Mat.t)
    (Hwf : CanvasCore.wf c)
    (Hwidth : 0 ≤ CanvasCore.width_ c) (Hheight : 0 ≤ CanvasCore.height_ c)
    (Hsame : Forall (λ l, same_tiling
                            (TileGrid.new (CanvasCore.width_ c) (CanvasCore.height_ c))
                            (Layer.pixels_ l)) (CanvasCore.layers_ c))
    (Hrun : getCompositedImage c st = Some (c', st', mat)) :
  CanvasCore.width_ c' = CanvasCore.width_ c
  ∧ CanvasCore.height_ c' = CanvasCore.height_ c
  ∧ length (CanvasCore.layers_ c') = length (CanvasCore.layers_ c)
  ∧ CanvasCore.undoStack_ c' = CanvasCore.undoStack_ c
  ∧ ∀ i l, CanvasCore.layers_ c !! i = Some l →
      ∃ l', CanvasCore.layers_ c' !! i = Some l'
        ∧ same_metadata l l'
        ∧ (∀ x y, TileGrid.getPixel_const (Layer.pixels_ l') x y
                  = TileGrid.getPixel_const (Layer.pixels_ l) x y)
        ∧ (hidden l = true → l' = l)
        ∧ (hidden l = false →
           TileGrid.getDirtyTiles (Layer.pixels_ l') = TileGrid.tiles_ (Layer.pixels_ l')).
Proof.
  destruct Hwf as [Hl _].
  apply getCompositedImage_inv in Hrun as (composite & Hrun & _).
  apply CanvasCore_renderTo_spec in Hrun as (_ & -> & _);
    [|by apply Forall_and|apply TileGrid_wf_new].
  cbn [CanvasCore.set_layers CanvasCore.layers_ CanvasCore.undoStack_
       CanvasCore.width_ CanvasCore.height_].
  split; [done|]. split; [done|].
  split; [by rewrite length_fmap|]. split; [done|].
  intros i l Hi. exists (touched l). rewrite list_lookup_fmap, Hi.
  split; [done|]. apply touched_spec.
Qed.

(** The theorem at the 1 x 1 canvas: its background tile, clean before, is
    dirty after compositing. *)
Lemma compositing_flags_every_rendered_layer_dirty_witness :
  match getCompositedImage canvas1 Statics_init with
  | Some (c', _, _) =>
      (l ← CanvasCore.layers_ canvas1 !! 0%nat;
       Some (TileGrid.getDirtyTiles (Layer.pixels_ l))) = Some []
      ∧ ∃ l', CanvasCore.layers_ c' !! 0%nat = Some l'
          ∧ TileGrid.getDirtyTiles (Layer.pixels_ l')
            = TileGrid.tiles_ (Layer.pixels_ l')
  | None => False
  end.
Proof.
  destruct (getCompositedImage canvas1 Statics_init) as [[[c' st'] mat]|] eqn:Hrun.
  - split; [vm_compute; reflexivity|].
    destruct (compositing_flags_every_rendered_layer_dirty canvas1 c'
                Statics_init st' mat) as (_ & _ & _ & _ & Hlayers).
    + apply (bool_decide_eq_true_1 _). vm_compute. reflexivity.
    + simpl. lia.
    + simpl. lia.
    + repeat constructor.
    + exact Hrun.
    + destruct (Hlayers 0%nat (Layer.new "Background" 1 1) eq_refl)
        as (l' & Hl' & _ & Hpx & _ & Hdirty).
      exists l'. split; [exact Hl'|]. apply Hdirty. reflexivity.
  - destruct (fresh_canvas_composites 1 1 Statics_init) as [r Hr].
    unfold canvas1 in Hrun. congruence.
Defined.

(** X27.  When [getCompositedImage] of a well-formed canvas whose width and
    height are not negative and whose layers all have the tile counts of
    the canvas size returns, and the topmost layer is visible, has opacity
    1 and blend mode Normal, then wherever in the image that layer holds an
    opaque pixel with 16-bit channels the matrix holds exactly that pixel,
    in the order B, G, R, A, whatever the layers below contain. *)
Theorem opaque_top_layer_covers_the_composite
    (c c' : CanvasCore.t) (st st' : Statics) (mat : Mat.t)
    (below : list Layer.t) (top : Layer.t) (x y : Z) (src : Pixel)
    (Hwf : CanvasCore.wf c)
    (Hwidth : 0 ≤ CanvasCore.width_ c) (Hheight : 0 ≤ CanvasCore.height_ c)
    (Hsame : Forall (λ l, same_tiling
                            (TileGrid.new (CanvasCore.width_ c) (CanvasCore.height_ c))
                            (Layer.pixels_ l)) (CanvasCore.layers_ c))
    (Hrun : getCompositedImage c st = Some (c', st', mat))
    (Hlayers : CanvasCore.layers_ c = below ++ [top])
    (Hvisible : Layer.visible_ top = true)
    (Hopacity : Layer.opacity_ top = F32.one)
    (Hmode : Layer.blendMode_ top = Normal)
    (Hx : 0 ≤ x < CanvasCore.width_ c) (Hy : 0 ≤ y < CanvasCore.height_ c)
    (Hsrc : TileGrid.getPixel_const (Layer.pixels_ top) x y = Some src)
    (Hok : Pixel_ok src) (Hopaque : a src = 65535) :
  Mat.at_ mat y x = Some (to_vec src).
Proof.
  destruct Hwf as [Hl _].
  set (target := TileGrid.new (CanvasCore.width_ c) (CanvasCore.height_ c)) in *.
  assert (TileGrid.wf target) as HT by apply TileGrid_wf_new.
  apply getCompositedImage_inv in Hrun as (composite & Hrun & Hmat).
  fold target in Hrun.
  apply CanvasCore_renderTo_spec in Hrun as (_ & _ & HT' & Hsame' & Hw & Hh & Hpx);
    [|by apply Forall_and|done].
  destruct (toMat_spec composite HT') as (m & Hm & _ & _ & Hat).
  rewrite Hm in Hmat. injection Hmat as ->.
  assert (in_image composite x y) as Hin by (unfold in_image; by rewrite Hw, Hh).
  assert (in_image target x y) as Hin0 by done.
  apply Hat; [done|].
  rewrite Hpx by (by apply in_image_addressable).
  rewrite Hlayers, composite_pixel_app.
  destruct (composite_pixel below x y Pixel_default) as [d|] eqn:Hbelow.
  - cbn [mbind option_bind]. unfold composite_pixel. cbn [for_each].
    unfold render_pixel, hidden. rewrite Hvisible, Hopacity, Hmode, Hsrc.
    change (negb true || F32.leb F32.one F32.zero) with false.
    cbn [mbind option_bind]. rewrite blend_opaque_normal; try done.
    eapply composite_pixel_ok; [|exact Hbelow]. apply Pixel_default_ok.
  - destruct (getPixel_const_defined composite x y HT' Hin) as [p Hp].
    rewrite Hpx in Hp by (by apply in_image_addressable).
    rewrite Hlayers, composite_pixel_app, Hbelow in Hp. done.
Qed.

(** A white layer over the black background can be composited. *)
Lemma white_on_black_composites st :
  is_Some (getCompositedImage white_on_black st).
Proof.
  apply getCompositedImage_defined.
  - constructor; [split; [apply TileGrid_wf_new|by split]|].
    constructor; [|constructor].
    split; [apply TileGrid_fill_wf, TileGrid_wf_new|by split].
  - intros x y Ha. unfold composite_pixel, white_on_black.
    cbn [CanvasCore.set_layers CanvasCore.layers_ for_each].
    unfold render_pixel, hidden, white_layer, Layer.new, Layer.set_pixels.
    cbn [Layer.visible_ Layer.opacity_ Layer.blendMode_ Layer.pixels_].
    change (negb true || F32.leb F32.one F32.zero) with false. cbv iota.
    rewrite getPixel_const_new. cbn [mbind option_bind].
    rewrite blend_opaque_normal; [|apply Pixel_default_ok..|done].
    cbn [mbind option_bind].
    rewrite getPixel_const_fill by (done || apply TileGrid_wf_new).
    cbn [mbind option_bind].
    rewrite blend_opaque_normal; [done|apply Pixel_default_ok| |done].
    unfold Pixel_ok, white. simpl. lia.
Qed.

(** The theorem at the white layer over the black background. *)
Lemma opaque_top_layer_covers_the_composite_witness :
  match getCompositedImage white_on_black Statics_init with
  | Some (_, _, mat) => Mat.at_ mat 0 0 = Some (to_vec white)
  | None => False
  end.
Proof.
  destruct (getCompositedImage white_on_black Statics_init)
    as [[[c' st'] mat]|] eqn:Hrun.
  - apply (opaque_top_layer_covers_the_composite white_on_black c'
             Statics_init st' mat [Layer.new "Background" 1 1] white_layer
             0 0 white).
    + apply (bool_decide_eq_true_1 _). vm_compute. reflexivity.
    + simpl. lia.
    + simpl. lia.
    + repeat constructor.
    + exact Hrun.
    + reflexivity.
    + reflexivity.
    + reflexivity.
    + reflexivity.
    + simpl. lia.
    + simpl. lia.
    + vm_compute. reflexivity.
    + unfold Pixel_ok, white. simpl. lia.
    + reflexivity.
  - destruct (white_on_black_composites Statics_init) as [r Hr]. congruence.
Defined.

(** X28.  [getCompositedImage] of a well-formed canvas whose width and
    height are not negative and whose layers all have the tile counts of
    the canvas size, when it returns: the matrix has [height] rows and
    [width] columns, and its entry at row [y] and column [x] holds, in the
    order B, G, R, A, the layers blended from bottom to top onto the
    default pixel at [(x, y)]; the statics are untouched. *)
Theorem composited_image_entries
    (c c' : CanvasCore.t) (st st' : Statics) (mat : Mat.t)
    (Hwf : CanvasCore.wf c)
    (Hwidth : 0 ≤ CanvasCore.width_ c) (Hheight : 0 ≤ CanvasCore.height_ c)
    (Hsame : Forall (λ l, same_tiling
                            (TileGrid.new (CanvasCore.width_ c) (CanvasCore.height_ c))
                            (Layer.pixels_ l)) (CanvasCore.layers_ c))
    (Hrun : getCompositedImage c st = Some (c', st', mat)) :
  Mat.rows mat = CanvasCore.height_ c
  ∧ Mat.cols mat = CanvasCore.width_ c
  ∧ st' = st
  ∧ ∀ x y, 0 ≤ x < CanvasCore.width_ c → 0 ≤ y < CanvasCore.height_ c →
      Mat.at_ mat y x
      = to_vec <$> composite_pixel (CanvasCore.layers_ c) x y Pixel_default.
Proof.
  destruct Hwf as [Hl _]. unfold getCompositedImage in Hrun.
  set (target := TileGrid.new (CanvasCore.width_ c) (CanvasCore.height_ c)) in *.
  assert (TileGrid.wf target) as HT by apply TileGrid_wf_new.
  destruct (CanvasCore_renderTo c target st) as [[[c1 composite] st1]|] eqn:Hrender;
    [|done].
  cbn [mbind option_bind] in Hrun.
  apply CanvasCore_renderTo_spec in Hrender as (-> & _ & HT' & Hsame' & Hw & Hh & Hpx);
    [|by apply Forall_and|done].
  destruct (toMat_spec composite HT') as (m & Hm & Hrows & Hcols & Hat).
  rewrite Hm in Hrun. cbn [mbind option_bind] in Hrun. injection Hrun as <- <- <-.
  rewrite Hrows, Hcols, Hw, Hh. split_and!; try done.
  intros x y Hx Hy.
  assert (in_image composite x y) as Hin by (unfold in_image; by rewrite Hw, Hh).
  assert (in_image target x y) as Hin0 by done.
  destruct (getPixel_const_defined composite x y HT' Hin) as [p Hp].
  rewrite (Hat x y p Hin Hp).
  rewrite <- Hpx by (by apply in_image_addressable). by rewrite Hp.
Qed.

(** The theorem at the 1 x 1 canvas. *)
Lemma composited_image_entries_witness :
  match getCompositedImage canvas1 Statics_init with
  | Some (_, _, mat) =>
      Mat.rows mat = 1 ∧ Mat.cols mat = 1
      ∧ Mat.at_ mat 0 0
        = to_vec <$> composite_pixel (CanvasCore.layers_ canvas1) 0 0 Pixel_default
  | None => False
  end.
Proof.
  destruct (getCompositedImage canvas1 Statics_init) as [[[c' st'] mat]|] eqn:Hrun.
  - destruct (composited_image_entries canvas1 c' Statics_init st' mat)
      as (Hrows & Hcols & _ & Hat).
    + apply (bool_decide_eq_true_1 _). vm_compute. reflexivity.
    + simpl. lia.
    + simpl. lia.
    + repeat constructor.
    + exact Hrun.
    + split; [exact Hrows|]. split; [exact Hcols|]. apply Hat; simpl; lia.
  - destruct (fresh_canvas_composites 1 1 Statics_init) as [r Hr].
    unfold canvas1 in Hrun. congruence.
Defined.
